(** * Browser-session orchestration layer of the material price updater

    A shallow embedding of the pooling, scheduling, session and recovery
    machinery of the repository:

    - [SessionManager]  src/services/session-manager.js
    - [TaskQueue]       src/utils/task-queue.js
    - [BrowserPool]     src/services/browser-pool.js
    - [PriceScraper]    the batch driver with the recovery system
                        (recoverFromDisconnection, processRemainingItems,
                        processItemSource, processAllMaterialItems)

    JavaScript promises are modelled by explicit state passing.  A call to
    an external collaborator (file system, browser process, database,
    vision service) is answered by an oracle indexed by the number of
    external calls made so far, so every deterministic behaviour of the
    environment is an instance of the model. *)

From Stdlib Require Import ZArith QArith String List Bool Lia.
From Stdlib Require Import Floats.SpecFloat.
From stdpp Require Import gmap strings list.

Local Open Scope string_scope.
Local Open Scope list_scope.
Local Open Scope Z_scope.

(** The outcome of an awaited call: a value, or a rejected promise carrying
    the [message] of the thrown [Error]. *)
Inductive Reply (A : Type) : Type :=
| Ok (a : A)
| Throw (message : string).
Arguments Ok {A} a.
Arguments Throw {A} message.

(** The property names every plain object [{}] inherits from
    [Object.prototype].  Reading such a key of an object used as a table
    finds the inherited value when the table has no entry of its own, an
    assignment to [__proto__] replaces the prototype instead of adding an
    entry, and [delete] removes own entries only. *)
Definition objectPrototypeKeys : list string :=
  ["__proto__"; "constructor"; "hasOwnProperty"; "isPrototypeOf";
   "propertyIsEnumerable"; "toLocaleString"; "toString"; "valueOf";
   "__defineGetter__"; "__defineSetter__"; "__lookupGetter__";
   "__lookupSetter__"].

(* ===================================================================== *)
(** * Numbers *)
(* ===================================================================== *)

(** The arithmetic of JavaScript numbers, IEEE 754 binary64 with
    rounding to nearest, ties to even: the operations of [SpecFloat] at
    53 bits of precision.  A record of the driver holds a finite number
    as its exact rational value. *)
Module Number.

Definition prec : Z := 53.
Definition emax : Z := 1024.

Definition mul : spec_float -> spec_float -> spec_float := SFmul prec emax.
Definition div : spec_float -> spec_float -> spec_float := SFdiv prec emax.
Definition sub : spec_float -> spec_float -> spec_float := SFsub prec emax.

(** The number of an integer literal. *)
Definition ofZ (n : Z) : spec_float := binary_normalize prec emax n 0 false.

(** The number nearest to a rational, as a decimal literal or a parsed
    numeral denotes it: the correctly rounded quotient of the numerator
    by the denominator. *)
Definition ofQ (q : Q) : spec_float :=
  match Qnum q with
  | Z0 => S754_zero false
  | Zpos n => div (S754_finite false n 0) (S754_finite false (Qden q) 0)
  | Zneg n => div (S754_finite true n 0) (S754_finite false (Qden q) 0)
  end.

(** The value of a finite number; [None] for NaN and the infinities. *)
Definition toQ (x : spec_float) : option Q :=
  match x with
  | S754_zero _ => Some 0%Q
  | S754_finite s m e => Some (inject_Z (cond_Zopp s (Zpos m)) * 2 ^ e)%Q
  | S754_infinity _ | S754_nan => None
  end.

(** [Math.round(x)]: the integer [floor(x + 1/2)], computed exactly; a
    number without fractional bits, a zero, NaN and the infinities are
    returned as they are, and a negative [x] that rounds to zero gives
    [-0]. *)
Definition round (x : spec_float) : spec_float :=
  match x with
  | S754_finite s m (Zneg k) =>
      binary_normalize prec emax
        ((2 * cond_Zopp s (Zpos m) + 2 ^ Zpos k) / 2 ^ (Zpos k + 1)) 0 s
  | _ => x
  end.

(** [x > y]; false when either is NaN. *)
Definition gtb (x y : spec_float) : bool := SFltb y x.

End Number.

(* ===================================================================== *)
(** * SessionManager (src/services/session-manager.js) *)
(* ===================================================================== *)
Module SessionManager.

(** [SESSION_VALIDITY_HOURS] *)
Definition SESSION_VALIDITY_HOURS : Z := 24.

(** The validity window in milliseconds. *)
Definition sessionValidityWindow : Z := SESSION_VALIDITY_HOURS * (1000 * 60 * 60).

(** A session record [{timestamp, cookies, ...extraData}].  [timestamp] is
    the number of milliseconds [new Date(sessionData.timestamp)] yields;
    [None] stands for a missing (falsy) field or a string that does not
    parse (NaN), both of which make [isSessionValid] answer false. *)
Record Session : Type := mkSession {
  timestamp : option Z;
  cookies : list string;
  extraData : list (string * string)
}.

(** One property of the [extraData] object handed to [saveSession].  Two
    keys meet the manager's own fields: [Timestamp t] is a [timestamp]
    key whose value [new Date(...)] reads as [t] ([None] for a falsy value
    or one that does not parse), and [Cookies c] is a [cookies] key
    holding the array [c]. *)
Inductive Property : Type :=
| Timestamp (t : option Z)
| Cookies (c : list string)
| Other (key value : string).

(** The object literal [{timestamp: new Date().toISOString(), cookies:
    cookies, ...extraData}]: the spread comes last, so a [timestamp] or a
    [cookies] key of [extraData] replaces the field written before it. *)
Definition spreadProperty (sessionData : Session) (p : Property) : Session :=
  match p with
  | Timestamp t => mkSession t (cookies sessionData) (extraData sessionData)
  | Cookies c => mkSession (timestamp sessionData) c (extraData sessionData)
  | Other key value =>
      mkSession (timestamp sessionData) (cookies sessionData)
                (extraData sessionData ++ [(key, value)])
  end.

Definition spread (now : Z) (cks : list string) (extra : list Property) : Session :=
  foldl spreadProperty (mkSession (Some now) cks []) extra.

(** [s.replace(pattern, '')] for a string [pattern]: the first occurrence
    of [pattern] in [s] is removed, and only the first. *)
Fixpoint removeFirst (pattern s : string) : string :=
  if String.prefix pattern s
  then String.substring (String.length pattern)
                        (String.length s - String.length pattern)%nat s
  else match s with
       | EmptyString => EmptyString
       | String c rest => String c (removeFirst pattern rest)
       end.

(** The file of a domain in the sessions directory, [`${domain}.json`]. *)
Definition fileName (domain : string) : string := domain +:+ ".json".

(** [file.replace('.json', '')], the key under which [initialize] stores
    what it read from [file]. *)
Definition domainOfFile (file : string) : string := removeFirst ".json" file.

(** [delete this.sessions[domain]].  The table is a plain object, whose
    [__proto__] slot is not an entry of its own: [delete] leaves it. *)
Definition deleteSession (domain : string) (m : gmap string Session)
    : gmap string Session :=
  if decide (domain = "__proto__") then m else delete domain m.

(** What [JSON.parse(await fs.readFile(...))] finds in a session file. *)
Inductive FileEntry : Type :=
| Parsed (s : Session)
| Corrupt.

(** The manager's fields, the sessions directory ([disk], keyed by the
    domain of the file [<domain>.json]) and the count [io] of file-system
    calls issued so far. *)
Record Store : Type := mkStore {
  sessions : gmap string Session;
  initialized : bool;
  disk : gmap string FileEntry;
  io : nat
}.

Definition set_sessions (m : gmap string Session) (st : Store) : Store :=
  mkStore m (initialized st) (disk st) (io st).
Definition set_initialized (b : bool) (st : Store) : Store :=
  mkStore (sessions st) b (disk st) (io st).
Definition set_disk (d : gmap string FileEntry) (st : Store) : Store :=
  mkStore (sessions st) (initialized st) d (io st).

(** [isSessionValid(sessionData)], with [now] the reading of [new Date()]:
    [diffHours = (now - sessionTime) / (1000 * 60 * 60)] and
    [diffHours < SESSION_VALIDITY_HOURS]. *)
Definition isSessionValid (now : Z) (sessionData : Session) : bool :=
  match timestamp sessionData with
  | None => false
  | Some sessionTime =>
      let diffHours := (inject_Z (now - sessionTime) / inject_Z (1000 * 60 * 60))%Q in
      negb (Qle_bool (inject_Z SESSION_VALIDITY_HOURS) diffHours)
  end.

Section WithFileSystem.

(** [fails k] tells whether the [k]-th file-system call of the run is
    rejected (EACCES, ENOSPC, ...). *)
Variable fails : nat -> bool.

(** One file-system call: its verdict and the advanced call counter. *)
Definition fs_call (st : Store) : bool * Store :=
  (fails (io st), mkStore (sessions st) (initialized st) (disk st) (S (io st))).

(** The body of the [for (const file of files)] loop of [initialize] for
    one [.json] file, given by its key in [disk].  The session is stored
    under [file.replace('.json', '')]; the unlink names the file itself.
    Every error inside is caught, logged and skipped. *)
Definition load_file (now : Z) (st : Store) (file : string * FileEntry) : Store :=
  let '(name, entry) := file in
  let '(readFails, st1) := fs_call st in
  if readFails then st1
  else match entry with
       | Corrupt => st1
       | Parsed sessionData =>
           let domain := domainOfFile (fileName name) in
           if isSessionValid now sessionData
           then set_sessions (<[domain := sessionData]> (sessions st1)) st1
           else
             let '(unlinkFails, st2) := fs_call st1 in
             if unlinkFails then st2
             else set_disk (delete name (disk st2)) st2
       end.

(** [initialize()] *)
Definition initialize (now : Z) (st : Store) : Reply Store :=
  if initialized st then Ok st
  else
    let '(mkdirFails, st1) := fs_call st in
    if mkdirFails then Throw "mkdir failed"
    else
      let '(readdirFails, st2) := fs_call st1 in
      if readdirFails then Throw "readdir failed"
      else
        let files := map_to_list (disk st2) in
        Ok (set_initialized true (foldl (load_file now) st2 files)).

(** [saveSession(domain, cookies, extraData)] *)
Definition saveSession (now : Z) (domain : string) (cks : list string)
    (extra : list Property) (st : Store) : Reply (bool * Store) :=
  match initialize now st with
  | Throw m => Throw m
  | Ok st1 =>
      let sessionData := spread now cks extra in
      let st2 := set_sessions (<[domain := sessionData]> (sessions st1)) st1 in
      let '(writeFails, st3) := fs_call st2 in
      if writeFails then Ok (false, st3)
      else Ok (true, set_disk (<[domain := Parsed sessionData]> (disk st3)) st3)
  end.

(** [getSession(domain)] *)
Definition getSession (now : Z) (domain : string) (st : Store)
    : Reply (option Session * Store) :=
  match initialize now st with
  | Throw m => Throw m
  | Ok st1 =>
      match sessions st1 !! domain with
      | None => Ok (None, st1)
      | Some session =>
          if isSessionValid now session then Ok (Some session, st1)
          else
            let st2 := set_sessions (delete domain (sessions st1)) st1 in
            let '(unlinkFails, st3) := fs_call st2 in
            if unlinkFails then Ok (None, st3)
            else Ok (None, set_disk (delete domain (disk st3)) st3)
      end
  end.

End WithFileSystem.

(** Concrete stores used to run the session manager. *)
Definition hour : Z := 1000 * 60 * 60.

(** A session saved at time 0 for domain "x". *)
Definition staleSession : Session := mkSession (Some 0) ["sid=1"] [].

(** An initialised manager holding that session in memory and on disk. *)
Definition staleStore : Store :=
  mkStore {[ "x" := staleSession ]} true {[ "x" := Parsed staleSession ]} 0.

(** A manager that has been initialised over an empty directory. *)
Definition emptyStore : Store := mkStore ∅ true ∅ 0.

Definition diskHealthy : nat -> bool := fun _ => false.
Definition diskBroken : nat -> bool := fun _ => true.

(** ** The remaining operations of the manager *)

Section MoreOperations.

Variable fails : nat -> bool.

(** [clearSession(domain)]: [delete this.sessions[domain]]; the file is
    unlinked when [fs.access] finds it, and an error in that part is
    reported by [false]. *)
Definition clearSession (now : Z) (domain : string) (st : Store) : Reply (bool * Store) :=
  match initialize fails now st with
  | Throw m => Throw m
  | Ok st1 =>
      let st2 := set_sessions (deleteSession domain (sessions st1)) st1 in
      let '(accessFails, st3) := fs_call fails st2 in
      let found := negb accessFails && bool_decide (is_Some (disk st3 !! domain)) in
      if found then
        let '(unlinkFails, st4) := fs_call fails st3 in
        if unlinkFails then Ok (false, st4)
        else Ok (true, set_disk (delete domain (disk st4)) st4)
      else Ok (true, st3)
  end.

(** The loop of [clearAllSessions] over the listed files: the first
    unlink that fails ends it. *)
Fixpoint unlinkAll (files : list (string * FileEntry)) (st : Store) : bool * Store :=
  match files with
  | [] => (true, st)
  | (domain, _) :: rest =>
      let '(unlinkFails, st1) := fs_call fails st in
      if unlinkFails then (false, st1)
      else unlinkAll rest (set_disk (delete domain (disk st1)) st1)
  end.

(** [clearAllSessions()] *)
Definition clearAllSessions (now : Z) (st : Store) : Reply (bool * Store) :=
  match initialize fails now st with
  | Throw m => Throw m
  | Ok st1 =>
      let st2 := set_sessions ∅ st1 in
      let '(readdirFails, st3) := fs_call fails st2 in
      if readdirFails then Ok (false, st3)
      else Ok (unlinkAll (map_to_list (disk st3)) st3)
  end.

(** [applySessionToPage(domain, page)].  The page is represented by the
    cookies set on it; [setCookieFails] tells whether [page.setCookie]
    rejects. *)
Definition applySessionToPage (now : Z) (domain : string) (setCookieFails : bool)
    (page : list string) (st : Store) : Reply (bool * list string * Store) :=
  match getSession fails now domain st with
  | Throw m => Throw m
  | Ok (None, st1) => Ok (false, page, st1)
  | Ok (Some session, st1) =>
      if (length (cookies session) =? 0)%nat then Ok (false, page, st1)
      else if setCookieFails then Ok (false, page, st1)
      else Ok (true, page ++ cookies session, st1)
  end.

End MoreOperations.

(** [getStatus()]: [{initialized, activeSessions, sessionDomains}]. *)
Definition getStatus (st : Store) : bool * nat * list string :=
  (initialized st, size (sessions st), (map_to_list (sessions st)).*1).

(** A directory for an uninitialised manager: a fresh session for "a", a
    corrupt file for "b" and the stale session for "x". *)
Definition freshSession : Session := mkSession (Some (24 * hour)) ["sid=9"] [].

Definition mixedStore : Store :=
  mkStore ∅ false
          {[ "a" := Parsed freshSession; "b" := Corrupt; "x" := Parsed staleSession ]} 0.

End SessionManager.

(* ===================================================================== *)
(** * TaskQueue (src/utils/task-queue.js) *)
(* ===================================================================== *)
Module TaskQueue.

(** A queued entry [{task, taskName, priority, resolve, reject}].  The
    closures are named by [ticket], the number of the [add] call that
    queued the entry (its arrival order). *)
Record Entry : Type := mkEntry {
  taskName : string;
  priority : Z;
  ticket : nat
}.

(** A started task whose promise has not settled yet, with the
    [startTime] its closure captured. *)
Record Started : Type := mkStarted {
  entry : Entry;
  startTime : Z
}.

(** A record pushed on [this.results]: [{taskName, success, result |
    error, duration}]; [payload] holds the result or the error message. *)
Record Outcome : Type := mkOutcome {
  o_taskName : string;
  o_success : bool;
  o_payload : string;
  duration : Z
}.

(** The fields of a [TaskQueue].  [active] lists the pending promise
    chains started by [runNext], [tickets] counts the [add] calls and
    [notified] the invocations of the [onComplete] callback. *)
Record Queue : Type := mkQueue {
  concurrency : Z;
  running : Z;
  queue : list Entry;
  results : list Outcome;
  onComplete : bool;
  active : list Started;
  tickets : nat;
  notified : nat
}.

(** [value || fallback] on an optional number: a missing value and zero
    are both falsy. *)
Definition orDefault (value : option Z) (fallback : Z) : Z :=
  match value with
  | Some v => if v =? 0 then fallback else v
  | None => fallback
  end.

(** [constructor(options)]: [this.concurrency = options.concurrency || 3]. *)
Definition create (optConcurrency : option Z) (optOnComplete : bool) : Queue :=
  mkQueue (orDefault optConcurrency 3) 0 [] [] optOnComplete [] 0 0.

(** [this.queue.sort((a, b) => b.priority - a.priority)]: a stable sort,
    higher priority first (Array.prototype.sort is stable since
    ECMAScript 2019).  Insertion from the right keeps an entry before the
    later entries of the same priority. *)
Fixpoint insertEntry (e : Entry) (l : list Entry) : list Entry :=
  match l with
  | [] => [e]
  | x :: l' =>
      if priority x <=? priority e then e :: x :: l'
      else x :: insertEntry e l'
  end.

Fixpoint sortQueue (l : list Entry) : list Entry :=
  match l with
  | [] => []
  | x :: l' => insertEntry x (sortQueue l')
  end.

(** The part of [runNext] after its guard: sort, [shift] the first entry,
    count it as running and start its promise chain at time [now]. *)
Definition startFirst (now : Z) (q : Queue) : Queue :=
  match sortQueue (queue q) with
  | [] => q
  | e :: rest =>
      mkQueue (concurrency q) (running q + 1) rest (results q) (onComplete q)
              (active q ++ [mkStarted e now]) (tickets q) (notified q)
  end.

(** [runNext()]; the recursive call at its end is bounded by the length of
    the queue, which shrinks at every start. *)
Fixpoint runNext_fuel (fuel : nat) (now : Z) (q : Queue) : Queue :=
  match fuel with
  | O => q
  | S fuel' =>
      if (concurrency q <=? running q) || (length (queue q) =? 0)%nat then q
      else
        let q' := startFirst now q in
        if running q' <? concurrency q' then runNext_fuel fuel' now q' else q'
  end.

Definition runNext (now : Z) (q : Queue) : Queue :=
  runNext_fuel (length (queue q)) now q.

(** [add(task, {taskName, priority})], called at time [now]. *)
Definition add (name : string) (prio : Z) (now : Z) (q : Queue) : Queue :=
  runNext now
    (mkQueue (concurrency q) (running q)
             (queue q ++ [mkEntry name prio (tickets q)])
             (results q) (onComplete q) (active q) (S (tickets q)) (notified q)).

(** Removes the started task with ticket [t] from the pending chains. *)
Fixpoint take (t : nat) (l : list Started) : option (Started * list Started) :=
  match l with
  | [] => None
  | s :: l' =>
      if (ticket (entry s) =? t)%nat then Some (s, l')
      else match take t l' with
           | Some (s', l'') => Some (s', s :: l'')
           | None => None
           end
  end.

(** The record [then] or [catch] pushes for a started task [s] settling
    at time [now]. *)
Definition outcomeOf (s : Started) (outcome : Reply string) (now : Z) : Outcome :=
  match outcome with
  | Ok result => mkOutcome (taskName (entry s)) true result (now - startTime s)
  | Throw message => mkOutcome (taskName (entry s)) false message (now - startTime s)
  end.

(** The handlers chained on a started task, run when the task with ticket
    [t] settles at time [now] with [outcome]: [then] or [catch] pushes the
    outcome, [finally] frees the slot, calls [runNext] and, when the queue
    is drained, the [onComplete] callback. *)
Definition settle (t : nat) (outcome : Reply string) (now : Z) (q : Queue) : Queue :=
  match take t (active q) with
  | None => q
  | Some (s, others) =>
      let q1 := mkQueue (concurrency q) (running q - 1) (queue q)
                        (results q ++ [outcomeOf s outcome now]) (onComplete q) others
                        (tickets q) (notified q) in
      let q2 := runNext now q1 in
      if (length (queue q2) =? 0)%nat && (running q2 =? 0) && onComplete q2
      then mkQueue (concurrency q2) (running q2) (queue q2) (results q2)
                   (onComplete q2) (active q2) (tickets q2) (S (notified q2))
      else q2
  end.

(** ** The handlers as separate jobs

    [settle] runs the handlers of one task back to back.  In the program
    they are jobs of their own: [then] or [catch] pushes the outcome and
    resolves or rejects the promise [add] returned, and [finally] runs in
    a later job.  Whatever is scheduled in between (the caller resumed by
    that promise, an [add], a handler of another task) finds the outcome
    recorded while the slot is still counted in [running]. *)

(** A queue with the tasks whose outcome is recorded and whose [finally]
    handler is still to run. *)
Record Handlers : Type := mkHandlers {
  state : Queue;
  releasing : list Started
}.

(** The [then] handler ([outcome] a result) or the [catch] handler
    ([outcome] an error) of the task with ticket [t], run at time [now]. *)
Definition fulfil (t : nat) (outcome : Reply string) (now : Z) (h : Handlers)
    : Handlers :=
  let q := state h in
  match take t (active q) with
  | None => h
  | Some (s, others) =>
      mkHandlers (mkQueue (concurrency q) (running q) (queue q)
                          (results q ++ [outcomeOf s outcome now]) (onComplete q)
                          others (tickets q) (notified q))
                 (releasing h ++ [s])
  end.

(** The [finally] handler of the task with ticket [t], run at time
    [now]: [this.running--], [this.runNext()] and the completion check. *)
Definition release (t : nat) (now : Z) (h : Handlers) : Handlers :=
  let q := state h in
  match take t (releasing h) with
  | None => h
  | Some (_, others) =>
      let q1 := mkQueue (concurrency q) (running q - 1) (queue q) (results q)
                        (onComplete q) (active q) (tickets q) (notified q) in
      let q2 := runNext now q1 in
      mkHandlers
        (if (length (queue q2) =? 0)%nat && (running q2 =? 0) && onComplete q2
         then mkQueue (concurrency q2) (running q2) (queue q2) (results q2)
                      (onComplete q2) (active q2) (tickets q2) (S (notified q2))
         else q2)
        others
  end.

(** The jobs that touch a queue. *)
Inductive Job : Type :=
| Adds (name : string) (prio : Z) (now : Z)
| Fulfils (t : nat) (outcome : Reply string) (now : Z)
| Releases (t : nat) (now : Z).

Definition job (h : Handlers) (j : Job) : Handlers :=
  match j with
  | Adds name prio now => mkHandlers (add name prio now (state h)) (releasing h)
  | Fulfils t outcome now => fulfil t outcome now h
  | Releases t now => release t now h
  end.

Definition jobs (h : Handlers) (js : list Job) : Handlers := foldl job h js.

(** [getStatus()]: [{queueLength, running, completed, concurrency}]. *)
Definition getStatus (q : Queue) : nat * Z * nat * Z :=
  (length (queue q), running q, length (results q), concurrency q).

(** What happens to a queue: an [add] call, or a started task settling. *)
Inductive Event : Type :=
| Add (name : string) (prio : Z) (now : Z)
| Settle (t : nat) (outcome : Reply string) (now : Z).

Definition step (q : Queue) (ev : Event) : Queue :=
  match ev with
  | Add name prio now => add name prio now q
  | Settle t outcome now => settle t outcome now q
  end.

Definition run (q : Queue) (evs : list Event) : Queue := foldl step q evs.

(** The queue's entry with the best claim to the next slot among [l]:
    no entry has a higher priority, and none of the same priority arrived
    earlier. *)
Definition Best (e : Entry) (l : list Entry) : Prop :=
  e ∈ l /\
  forall x, x ∈ l ->
    priority x <= priority e /\
    (priority x = priority e -> (ticket e <= ticket x)%nat).

(** A queue of concurrency 1 with task "a" running and "b", "c", "d"
    waiting; "c" and "d" share the highest priority. *)
Definition busyQueue : list Event :=
  [Add "a" 0 100; Add "b" 1 101; Add "c" 5 102; Add "d" 5 103].

(** ** Properties of states *)

(** Higher priority first. *)
Definition Descending (l : list Entry) : Prop :=
  ForallOrdPairs (fun x y => priority y <= priority x) l.

(** Entries of equal priority stand in arrival order. *)
Definition TieOrdered (l : list Entry) : Prop :=
  ForallOrdPairs (fun x y => priority x = priority y -> (ticket x < ticket y)%nat) l.

(** [running] counts the started, unsettled tasks and stays within the
    concurrency; queued entries keep arrival order among equal priorities
    and carry tickets already handed out. *)
Record Inv (q : Queue) : Prop := mkInv {
  inv_count : running q = Z.of_nat (length (active q));
  inv_bound : running q <= Z.max 0 (concurrency q);
  inv_ties : TieOrdered (queue q);
  inv_fresh : Forall (fun x => (ticket x < tickets q)%nat) (queue q)
}.

(** No slot is left free while an entry is queued. *)
Definition Saturated (q : Queue) : Prop :=
  running q < concurrency q -> queue q = [].

(** ** Tasks in flight *)

(** The tickets of the entries still queued and of the tasks started and
    not yet settled. *)
Definition pendingTickets (q : Queue) : list nat :=
  (ticket <$> queue q) ++ ((fun s => ticket (entry s)) <$> active q).

(** The tickets of every task not yet released: queued, started, or
    recorded with its [finally] handler still to run. *)
Definition inFlight (h : Handlers) : list nat :=
  pendingTickets (state h) ++ ((fun s => ticket (entry s)) <$> releasing h).

(** Every [add] call is queued, running or recorded, and in one place
    only. *)
Record Tracked (q : Queue) : Prop := mkTracked {
  tracked_count :
    tickets q = (length (results q) + length (active q) + length (queue q))%nat;
  tracked_nodup : NoDup (pendingTickets q);
  tracked_fresh : Forall (fun t => (t < tickets q)%nat) (pendingTickets q)
}.

(** The slots counted in [running] that no unsettled task holds. *)
Definition surplus (q : Queue) : Z := running q - Z.of_nat (length (active q)).

(** What holds of a queue between any two jobs. *)
Record Accounted (h : Handlers) : Prop := mkAccounted {
  accounted_tracked : Tracked (state h);
  accounted_running :
    running (state h)
    = Z.of_nat (length (active (state h)) + length (releasing h));
  accounted_nodup : NoDup (inFlight h);
  accounted_fresh : Forall (fun t => (t < tickets (state h))%nat) (inFlight h)
}.

(** ** Waiting for the queue to drain *)

(** What [this.onComplete] holds: the callback passed to the constructor,
    or the closure of the [k]-th [waitForAll] call, which resolves that
    call's promise. *)
Inductive Callback : Type :=
| FromOptions
| Waiter (k : nat).

(** A queue together with the callbacks around it: [optionCalls] counts
    the calls of the constructor's callback, [resolved] lists the
    [waitForAll] calls whose promise was resolved, in order, and
    [waiters] counts the [waitForAll] calls. *)
Record Watched : Type := mkWatched {
  inner : Queue;
  callback : option Callback;
  optionCalls : nat;
  resolved : list nat;
  waiters : nat
}.

Definition watch (optConcurrency : option Z) (optOnComplete : bool) : Watched :=
  mkWatched (create optConcurrency optOnComplete)
            (if optOnComplete then Some FromOptions else None) 0 [] 0.

(** [this.queue.length === 0 && this.running === 0] *)
Definition idle (q : Queue) : bool :=
  (length (queue q) =? 0)%nat && (running q =? 0).

(** [this.onComplete(this.results)] *)
Definition invoke (w : Watched) : Watched :=
  match callback w with
  | None => w
  | Some FromOptions =>
      mkWatched (inner w) (callback w) (S (optionCalls w)) (resolved w) (waiters w)
  | Some (Waiter k) =>
      mkWatched (inner w) (callback w) (optionCalls w) (resolved w ++ [k]) (waiters w)
  end.

(** [waitForAll()]: an idle queue answers at once; otherwise the call
    stores its resolver in [this.onComplete], replacing what was there. *)
Definition waitForAll (w : Watched) : Watched :=
  let q := inner w in
  let k := waiters w in
  if idle q
  then mkWatched q (callback w) (optionCalls w) (resolved w ++ [k]) (S k)
  else mkWatched (mkQueue (concurrency q) (running q) (queue q) (results q) true
                          (active q) (tickets q) (notified q))
                 (Some (Waiter k)) (optionCalls w) (resolved w) (S k).

Inductive Call : Type :=
| OnQueue (ev : Event)
| WaitForAll.

(** A queue event runs on the queue; when its [finally] handler called
    [this.onComplete], the callback in place is the one invoked. *)
Definition watchedStep (w : Watched) (c : Call) : Watched :=
  match c with
  | WaitForAll => waitForAll w
  | OnQueue ev =>
      let q' := step (inner w) ev in
      let w' := mkWatched q' (callback w) (optionCalls w) (resolved w) (waiters w) in
      if (notified q' =? notified (inner w))%nat then w' else invoke w'
  end.

Definition watchedRun (w : Watched) (cs : list Call) : Watched :=
  foldl watchedStep w cs.

End TaskQueue.

(* ===================================================================== *)
(** * Error classification shared by the pool and the batch driver *)
(* ===================================================================== *)

(** [message.includes(needle)] *)
Fixpoint includes (needle message : string) : bool :=
  if String.prefix needle message then true
  else match message with
       | EmptyString => false
       | String _ rest => includes needle rest
       end.

(** The test repeated in every catch block:
    [message.includes("disconnected") || message.includes("Target closed")
     || message.includes("Session closed") || message.includes("Protocol error")]. *)
Definition isDisconnectionMessage (message : string) : bool :=
  includes "disconnected" message
  || includes "Target closed" message
  || includes "Session closed" message
  || includes "Protocol error" message.

(* ===================================================================== *)
(** * BrowserPool (src/services/browser-pool.js) *)
(* ===================================================================== *)
Module BrowserPool.

(** An entry [{page, id, inUse, domain}] of [this.pages[domain]].  The
    string id is modelled by a number the environment hands out. *)
Record PageData : Type := mkPageData {
  id : nat;
  inUse : bool;
  domain : string
}.

(** What the disconnect handler can observe of the pool when it runs. *)
Record View : Type := mkView {
  seenBrowser : option bool;
  seenPages : gmap string (list PageData);
  seenTimers : gset nat
}.

(** A [getPage] call suspended at one of its [await]s (JavaScript runs
    each stretch between two awaits to completion, another call may run
    in between):
    - [AwaitingInitialize d]: at [await this.initialize()];
    - [AwaitingEvaluate d i pageId]: in the reuse loop at index [i], at
      [await pageData.page.evaluate(...)], the page already marked in use;
    - [AwaitingNewPage d]: past the cap test, at [await
      this.browser.newPage()] and the configuration awaits after it;
    - [Polling d]: in the waiting branch, between two interval checks;
    - [AwaitingPollEvaluate d pageId]: the waiting branch claimed a page
      and checks that it responds. *)
Inductive Pending : Type :=
| AwaitingInitialize (d : string)
| AwaitingEvaluate (d : string) (i : nat) (pageId : nat)
| AwaitingNewPage (d : string)
| Polling (d : string)
| AwaitingPollEvaluate (d : string) (pageId : nat).

Global Instance Pending_eq_dec : EqDecision Pending.
Proof. solve_decision. Defined.

(** The pool.  [browser] is [None] for [null] and [Some c] for a browser
    object whose [isConnected()] answers [c]; [pageTimers] holds the ids
    with an idle timer armed; [onDisconnect] tells whether a handler is
    registered.  [pending] lists the suspended [getPage] calls,
    [delivered] the answers given to callers (a page id or an error) and
    [handlerCalls] what each invocation of the handler saw. *)
Record Pool : Type := mkPool {
  browser : option bool;
  pages : gmap string (list PageData);
  maxPagesPerDomain : nat;
  pageTimers : gset nat;
  onDisconnect : bool;
  pending : list Pending;
  delivered : list (Reply nat);
  handlerCalls : list View
}.

Definition set_browser (b : option bool) (p : Pool) : Pool :=
  mkPool b (pages p) (maxPagesPerDomain p) (pageTimers p) (onDisconnect p)
         (pending p) (delivered p) (handlerCalls p).
Definition set_pages (m : gmap string (list PageData)) (p : Pool) : Pool :=
  mkPool (browser p) m (maxPagesPerDomain p) (pageTimers p) (onDisconnect p)
         (pending p) (delivered p) (handlerCalls p).
Definition set_pageTimers (t : gset nat) (p : Pool) : Pool :=
  mkPool (browser p) (pages p) (maxPagesPerDomain p) t (onDisconnect p)
         (pending p) (delivered p) (handlerCalls p).
Definition set_pending (l : list Pending) (p : Pool) : Pool :=
  mkPool (browser p) (pages p) (maxPagesPerDomain p) (pageTimers p) (onDisconnect p)
         l (delivered p) (handlerCalls p).

(** The caller's promise settles. *)
Definition deliver (r : Reply nat) (p : Pool) : Pool :=
  mkPool (browser p) (pages p) (maxPagesPerDomain p) (pageTimers p) (onDisconnect p)
         (pending p) (delivered p ++ [r]) (handlerCalls p).

(** The call suspends at an await. *)
Definition suspend (k : Pending) (p : Pool) : Pool :=
  set_pending (pending p ++ [k]) p.

(** [constructor(options)]: [maxPagesPerDomain = options.maxPagesPerDomain || 2]. *)
Definition create (optMaxPages : option nat) : Pool :=
  mkPool None ∅
         (match optMaxPages with
          | Some (S n) => S n
          | _ => 2%nat
          end)
         ∅ false [] [] [].

(** [this.pages[domain]], with the empty list for a missing key. *)
Definition pagesOf (p : Pool) (d : string) : list PageData :=
  default [] (pages p !! d).

(** Number of handles of domain [d] with [inUse = true]. *)
Definition inUseCount (p : Pool) (d : string) : nat :=
  length (filter (fun pd => inUse pd = true) (pagesOf p d)).

(** [setDisconnectHandler(handler)] with a function. *)
Definition setDisconnectHandler (p : Pool) : Pool :=
  mkPool (browser p) (pages p) (maxPagesPerDomain p) (pageTimers p) true
         (pending p) (delivered p) (handlerCalls p).

(** [cleanupResources()]: clear the idle timers, reset the page tracking,
    keep the browser reference. *)
Definition cleanupResources (p : Pool) : Pool :=
  set_pageTimers ∅ (set_pages ∅ p).

(** The listener [initialize] registers for the browser's 'disconnected'
    event.  The browser object stays referenced and now reports itself
    disconnected. *)
Definition onDisconnected (p : Pool) : Pool :=
  let p0 := set_browser (match browser p with Some _ => Some false | None => None end) p in
  let wasInitialized := match browser p0 with Some _ => true | None => false end in
  let p1 := cleanupResources p0 in
  if wasInitialized && onDisconnect p1
  then mkPool (browser p1) (pages p1) (maxPagesPerDomain p1) (pageTimers p1)
              (onDisconnect p1) (pending p1) (delivered p1)
              (handlerCalls p1 ++ [mkView (browser p1) (pages p1) (pageTimers p1)])
  else p1.

(** [initialize()], given the outcome of [puppeteer.launch]: [None] for a
    browser, [Some message] for a rejection. *)
Definition initialize (launch : option string) (p : Pool) : Reply Pool :=
  match browser p with
  | Some _ => Ok p
  | None =>
      match launch with
      | None => Ok (set_browser (Some true) p)
      | Some message => Throw message
      end
  end.

(** [close()]: errors while closing are caught; all state is reset. *)
Definition close (p : Pool) : Pool :=
  match browser p with
  | Some _ => set_pageTimers ∅ (set_pages ∅ (set_browser None p))
  | None => p
  end.

(** Index of the first entry at or after [i] with [inUse = false]. *)
Fixpoint firstFree (l : list PageData) (i : nat) : option (nat * PageData) :=
  match l with
  | [] => None
  | pd :: l' =>
      match i with
      | O => if inUse pd then
               match firstFree l' O with
               | Some (j, x) => Some (S j, x)
               | None => None
               end
             else Some (O, pd)
      | S i' =>
          match firstFree l' i' with
          | Some (j, x) => Some (S j, x)
          | None => None
          end
      end
  end.

Definition markInUse (pd : PageData) : PageData := mkPageData (id pd) true (domain pd).
Definition markFree (pd : PageData) : PageData := mkPageData (id pd) false (domain pd).

(** The code after the reuse loop: create a page if under the limit, else
    wait for one to become available. *)
Definition afterLoop (d : string) (p : Pool) : Pool :=
  if (length (pagesOf p d) <? maxPagesPerDomain p)%nat
  then suspend (AwaitingNewPage d) p
  else suspend (Polling d) p.

(** The reuse loop entered at index [i]: the first free page is claimed
    (timer cleared, [inUse = true]) and the call awaits its answer. *)
Definition scanFrom (d : string) (i : nat) (p : Pool) : Pool :=
  match firstFree (pagesOf p d) i with
  | Some (j, pd) =>
      let p1 := set_pageTimers (pageTimers p ∖ {[ id pd ]}) p in
      let p2 := set_pages (<[d := <[j := markInUse pd]> (pagesOf p1 d)]> (pages p1)) p1 in
      suspend (AwaitingEvaluate d j (id pd)) p2
  | None => afterLoop d p
  end.

(** [getPage] once the browser reference is there. *)
Definition afterInitialize (d : string) (p : Pool) : Pool :=
  match browser p with
  | Some false => deliver (Throw "Browser is disconnected") p
  | _ =>
      let p1 := match pages p !! d with
                | None => set_pages (<[d := []]> (pages p)) p
                | Some _ => p
                end in
      scanFrom d 0 p1
  end.

(** [getPage(domain)] up to its first await. *)
Definition getPage (d : string) (p : Pool) : Pool :=
  match browser p with
  | None => suspend (AwaitingInitialize d) p
  | Some _ => afterInitialize d p
  end.

(** Removes one occurrence of a suspended call. *)
Fixpoint removePending (k : Pending) (l : list Pending) : option (list Pending) :=
  match l with
  | [] => None
  | x :: l' =>
      if decide (x = k) then Some l'
      else match removePending k l' with
           | Some l'' => Some (x :: l'')
           | None => None
           end
  end.

Definition resume (k : Pending) (p : Pool) : option Pool :=
  match removePending k (pending p) with
  | Some l => Some (set_pending l p)
  | None => None
  end.

(** [release()] of the handle of page [pageId] of domain [d]. *)
Definition release (d : string) (pageId : nat) (p : Pool) : Pool :=
  let freed := map (fun pd => if (id pd =? pageId)%nat then markFree pd else pd) in
  let p1 := match pages p !! d with
            | Some l => set_pages (<[d := freed l]> (pages p)) p
            | None => p
            end in
  set_pageTimers (pageTimers p1 ∪ {[ pageId ]}) p1.

(** [findIndex(p => p.id === pageId)] followed by a [splice] of that
    entry when it is not in use. *)
Fixpoint removeIdle (pageId : nat) (l : list PageData) : list PageData :=
  match l with
  | [] => []
  | pd :: l' =>
      if (id pd =? pageId)%nat then (if inUse pd then pd :: l' else l')
      else pd :: removeIdle pageId l'
  end.

(** [indexOf(pageData)] followed by a [splice] of that entry. *)
Fixpoint removePage (pageId : nat) (l : list PageData) : list PageData :=
  match l with
  | [] => []
  | pd :: l' =>
      if (id pd =? pageId)%nat then l' else pd :: removePage pageId l'
  end.

(** The idle timer of page [pageId] fires. *)
Definition idleTimeout (d : string) (pageId : nat) (p : Pool) : Pool :=
  let p1 :=
    match pages p !! d with
    | Some l => set_pages (<[d := removeIdle pageId l]> (pages p)) p
    | None => p
    end in
  set_pageTimers (pageTimers p1 ∖ {[ pageId ]}) p1.

(** The catch block of the page creation: a disconnection-class message,
    or a browser that is gone or disconnected, is rethrown as a browser
    disconnection. *)
Definition creationError (message : string) (p : Pool) : Reply nat :=
  if isDisconnectionMessage message
     || match browser p with Some true => false | _ => true end
  then Throw ("Browser disconnection: " +:+ message)
  else Throw message.

(** What happens to a pool.  Events that resume a suspended call carry
    the outcome of the awaited operation. *)
Inductive Event : Type :=
| Call (d : string)
| Initialized (d : string) (launch : option string)
| Evaluated (d : string) (i pageId : nat) (responsive : bool)
| PageCreated (d : string) (outcome : Reply nat)
| PollTick (d : string)
| PollTimeout (d : string)
| PollEvaluated (d : string) (pageId : nat) (responsive : bool)
| Release (d : string) (pageId : nat)
| IdleTimeout (d : string) (pageId : nat)
| Disconnected
| Close
| SetHandler.

(** One atomic stretch of the pool's code; [None] when the event cannot
    occur in the state (no such suspended call, no such timer) and when
    the stretch ends in an exception that nothing catches, which ends
    the process.  That happens when the page table of the domain has been
    reset under a waiting call and the browser is connected again: the
    interval check iterates over [this.pages[domain]], which is
    [undefined], inside the timer callback, and the handler of an
    unresponsive page calls [indexOf] on it inside a promise reaction.
    Under a reuse or a creation the same access throws inside the [async]
    function, which rejects the call with that error. *)
Definition step (p : Pool) (ev : Event) : option Pool :=
  match ev with
  | Call d => Some (getPage d p)
  | Initialized d launch =>
      p1 ← resume (AwaitingInitialize d) p;
      match launch with
      | None => Some (afterInitialize d (set_browser (Some true) p1))
      | Some message => Some (deliver (Throw message) p1)
      end
  | Evaluated d i pageId responsive =>
      p1 ← resume (AwaitingEvaluate d i pageId) p;
      if responsive then Some (deliver (Ok pageId) p1)
      else
        match pages p1 !! d with
        | Some l => Some (scanFrom d i (set_pages (<[d := delete i l]> (pages p1)) p1))
        | None =>
            Some (deliver
                    (Throw "Cannot read properties of undefined (reading 'splice')") p1)
        end
  | PageCreated d outcome =>
      p1 ← resume (AwaitingNewPage d) p;
      match outcome with
      | Ok pageId =>
          match pages p1 !! d with
          | Some l =>
              Some (deliver (Ok pageId)
                      (set_pages (<[d := l ++ [mkPageData pageId true d]]> (pages p1)) p1))
          | None =>
              Some (deliver
                      (creationError
                         "Cannot read properties of undefined (reading 'push')" p1) p1)
          end
      | Throw message => Some (deliver (creationError message p1) p1)
      end
  | PollTick d =>
      if bool_decide (Polling d ∈ pending p) then
        match browser p with
        | Some true =>
            match pages p !! d with
            | None => None
            | Some _ =>
                match firstFree (pagesOf p d) 0 with
                | Some (j, pd) =>
                    p1 ← resume (Polling d) p;
                    let p2 := set_pageTimers (pageTimers p1 ∖ {[ id pd ]}) p1 in
                    let p3 := set_pages (<[d := <[j := markInUse pd]> (pagesOf p2 d)]>
                                           (pages p2)) p2 in
                    Some (suspend (AwaitingPollEvaluate d (id pd)) p3)
                | None => Some p
                end
            end
        | _ =>
            p1 ← resume (Polling d) p;
            Some (deliver (Throw "Browser disconnected while waiting for available page") p1)
        end
      else None
  | PollTimeout d =>
      p1 ← resume (Polling d) p;
      Some (deliver (Throw ("Timeout waiting for available page for domain: " +:+ d)) p1)
  | PollEvaluated d pageId responsive =>
      p1 ← resume (AwaitingPollEvaluate d pageId) p;
      if responsive then Some (deliver (Ok pageId) p1)
      else
        match pages p1 !! d with
        | Some l =>
            Some (getPage d (set_pages (<[d := removePage pageId l]> (pages p1)) p1))
        | None => None
        end
  | Release d pageId => Some (release d pageId p)
  | IdleTimeout d pageId =>
      if bool_decide (pageId ∈ pageTimers p) then Some (idleTimeout d pageId p) else None
  | Disconnected => Some (onDisconnected p)
  | Close => Some (close p)
  | SetHandler => Some (setDisconnectHandler p)
  end.

Fixpoint run (p : Pool) (evs : list Event) : option Pool :=
  match evs with
  | [] => Some p
  | ev :: evs' => p1 ← step p ev; run p1 evs'
  end.

(** A connected pool with the default limit of two pages per domain and
    a disconnect handler registered. *)
Definition readyPool : Pool :=
  setDisconnectHandler (set_browser (Some true) (create None)).

(** Three [getPage("shop.example")] calls issued back to back, as by
    [Promise.all], followed by the completion of their page creations. *)
Definition threeOverlappingCalls : list Event :=
  [Call "shop.example"; Call "shop.example"; Call "shop.example";
   PageCreated "shop.example" (Ok 1%nat);
   PageCreated "shop.example" (Ok 2%nat);
   PageCreated "shop.example" (Ok 3%nat)].

(** A connected pool tracking one leased page and one idle page with its
    timer armed. *)
Definition poolWithPages : Pool :=
  mkPool (Some true)
         {[ "shop.example" := [mkPageData 1 true "shop.example";
                               mkPageData 2 false "shop.example"] ]}
         2 {[ 2%nat ]} true [] [] [].

(** ** Properties of states and executions *)

(** Calls of domain [d] suspended in the creation of a page. *)
Definition creating (p : Pool) (d : string) : nat :=
  length (filter (fun k => k = AwaitingNewPage d) (pending p)).

(** Tracked pages and pages being created stay within the limit. *)
Definition Cap (p : Pool) : Prop :=
  forall d, (length (pagesOf p d) + creating p d <= maxPagesPerDomain p)%nat.

(** [p'] tracks no more pages and has no more creations pending than [p]. *)
Definition Shrinks (p p' : Pool) : Prop :=
  maxPagesPerDomain p' = maxPagesPerDomain p
  /\ forall d, (length (pagesOf p' d) <= length (pagesOf p d))%nat
               /\ (creating p' d <= creating p d)%nat.

(** The events that reach the test [pages.length < maxPagesPerDomain]
    find no creation pending for their domain. *)
Definition Quiet (p : Pool) (ev : Event) : Prop :=
  match ev with
  | Call d | Initialized d _ | Evaluated d _ _ false | PollEvaluated d _ false =>
      creating p d = 0%nat
  | _ => True
  end.

Fixpoint Serial (p : Pool) (evs : list Event) : Prop :=
  match evs with
  | [] => True
  | ev :: evs' =>
      Quiet p ev /\
      match step p ev with
      | Some p1 => Serial p1 evs'
      | None => True
      end
  end.

(** ** Status *)

(** [getTotalPagesCount()] and [getPagesInUseCount()]: sums over the
    domains of the page table. *)
Definition getTotalPagesCount (p : Pool) : nat :=
  sum_list_with (fun e : string * list PageData => length e.2) (map_to_list (pages p)).

Definition getPagesInUseCount (p : Pool) : nat :=
  sum_list_with
    (fun e : string * list PageData => length (filter (fun pd => inUse pd = true) e.2))
    (map_to_list (pages p)).

(** The fields of [getStatus()] computed from the browser reference and
    the page table. *)
Record Status : Type := mkStatus {
  initialized : bool;
  connected : bool;
  totalPages : nat;
  pagesInUse : nat;
  domains : nat
}.

Definition getStatus (p : Pool) : Status :=
  mkStatus (match browser p with Some _ => true | None => false end)
           (match browser p with Some c => c | None => false end)
           (getTotalPagesCount p) (getPagesInUseCount p) (size (pages p)).

(** ** More scenarios *)

(** A first call on a new pool: the browser is launched and a page
    created. *)
Definition firstCall : list Event :=
  [Call "shop.example"; Initialized "shop.example" None;
   PageCreated "shop.example" (Ok 1%nat)].

(** A connected pool at its limit of two pages, both leased. *)
Definition fullPool : Pool :=
  mkPool (Some true)
         {[ "shop.example" := [mkPageData 1 true "shop.example";
                               mkPageData 2 true "shop.example"] ]}
         2 ∅ true [] [] [].

(** [poolWithPages] after its browser has disconnected. *)
Definition disconnectedPool : Pool := onDisconnected poolWithPages.

Definition isClose (ev : Event) : bool :=
  match ev with
  | Close => true
  | _ => false
  end.

Definition isCall (ev : Event) : bool :=
  match ev with
  | Call _ => true
  | _ => false
  end.

(** The number of [getPage] calls among [evs]. *)
Definition calls (evs : list Event) : nat :=
  length (filter (fun ev => isCall ev = true) evs).

End BrowserPool.

(* ===================================================================== *)
(** * The batch driver with its recovery system *)
(* ===================================================================== *)
Module PriceScraper.

(** [MAX_RECOVERY_ATTEMPTS] and [RECOVERY_WAIT_TIME] (milliseconds). *)
Definition MAX_RECOVERY_ATTEMPTS : nat := 5.
Definition RECOVERY_WAIT_TIME : Z := 60000.

(** ** Data *)

Record MaterialItem : Type := mkItem {
  itemId : nat;
  itemName : string
}.

(** A row of item_sources: [sale_price] may be null, [vendor] is
    [source.sources.name] when the join is present. *)
Record ItemSource : Type := mkSource {
  sourceId : nat;
  url : string;
  sale_price : option Q;
  source_id : nat;
  vendor : option string
}.

(** The [result] object of [processItemSource].  A price field holds the
    value of a finite number; [sr_priceWithTax] is [None] as long as the
    field is not set, and when the computed price with tax is not a
    finite number. *)
Record SourceResult : Type := mkSourceResult {
  sr_id : nat;
  sr_materialItemId : nat;
  sr_materialItemName : string;
  sr_success : bool;
  sr_outdated : bool;
  sr_priceChange : option string;
  sr_oldPrice : option Q;
  sr_newPrice : option Q;
  sr_priceWithTax : option Q;
  sr_updatedSource : option nat;
  sr_error : option string
}.

(** An entry of [updatedItemSources]. *)
Record SourceUpdate : Type := mkSourceUpdate {
  su_id : nat;
  su_salePrice : option Q;
  su_priceWithTax : option Q;
  su_source_id : option nat;
  su_item_id : nat
}.

(** An entry of [outdatedUrls]. *)
Record OutdatedUrl : Type := mkOutdatedUrl {
  ou_id : nat;
  ou_url : string;
  ou_materialItemName : string
}.

(** The [results] object of [processDomainItems]. *)
Record DomainResults : Type := mkDomainResults {
  d_domain : string;
  d_success : nat;
  d_failed : nat;
  d_outdated : nat;
  d_priceChanges : list (string * string);
  d_items : list SourceResult;
  d_outdatedUrls : list OutdatedUrl
}.

(** What [processMaterialItem] returns, and what the catch block of
    [processRemainingItems] pushes on [details]: a success flag, the item,
    the updated item sources (read only on success), the outdated URLs
    when the record has them, and the error message when there is one. *)
Record ItemResult : Type := mkItemResult {
  success : bool;
  materialItem : MaterialItem;
  updatedItemSources : list SourceUpdate;
  outdatedUrls : option (list OutdatedUrl);
  error : option string
}.

(** The [results] object of [processRemainingItems]. *)
Record Results : Type := mkResults {
  r_success : nat;
  r_failed : nat;
  r_skipped : nat;
  r_outdated : nat;
  r_materialUpdates : nat;
  r_details : list ItemResult;
  r_updatedItemSources : list SourceUpdate
}.

(** What [recoverFromDisconnection] returns: the results of the resumed
    processing, or [{success: false, error, processed, total}]. *)
Inductive RecoveryResult : Type :=
| Resumed (results : Results)
| GaveUp (error : string) (processed total : nat).

(** What [processAllMaterialItems] returns: [{success: true, message,
    results}] for the fetched items, or [{success: false, message, error}]. *)
Inductive BatchResult : Type :=
| Completed (items : list MaterialItem) (results : Results)
| Aborted (error : string).

(** Lines of the log the statements below refer to. *)
Inductive LogLine : Type :=
| LogExceeded
| LogRecoveryAttempt (attempt : nat)
| LogResuming (startIndex total : nat)
| LogRecoveryError (message : string)
| LogNotConnected
| LogDisconnectionDetected (message : string)
| LogItemError (item : nat) (message : string).

(** ** State *)

(** The state item processing works on: the browser pool, the
    [isInitialized] flag and the number of external calls answered so
    far. *)
Record Services : Type := mkServices {
  pool : BrowserPool.Pool;
  isInitialized : bool;
  clock : nat
}.

(** The module-level state of the driver.  [cooldowns] counts the waits
    of [RECOVERY_WAIT_TIME] slept through. *)
Record World : Type := mkWorld {
  services : Services;
  isRecovering : bool;
  recoveryAttempts : nat;
  currentIndex : nat;
  cooldowns : nat;
  log : list LogLine
}.

Definition set_services (sv : Services) (w : World) : World :=
  mkWorld sv (isRecovering w) (recoveryAttempts w) (currentIndex w) (cooldowns w) (log w).
Definition set_currentIndex (i : nat) (w : World) : World :=
  mkWorld (services w) (isRecovering w) (recoveryAttempts w) i (cooldowns w) (log w).
Definition logLine (l : LogLine) (w : World) : World :=
  mkWorld (services w) (isRecovering w) (recoveryAttempts w) (currentIndex w) (cooldowns w)
          (log w ++ [l]).

(** [!browserPool.browser] *)
Definition browserMissing (sv : Services) : bool :=
  match BrowserPool.browser (pool sv) with
  | None => true
  | Some _ => false
  end.

(** ** Environment *)

(** The collaborators, each answering the call made when [clock] external
    calls have been answered.  [poolClosedDuring k] tells that
    [browserPool.close()] was run by another party (the exported
    [cleanup], a signal handler) while call [k] was pending.
    [takeScreenshot] answers a path or [null] and never throws: its
    body is one [try] block whose [catch] returns [null].
    [updateMaterialItems] is represented by its outcome, the ids of the
    material items it updated. *)
Record Env : Type := mkEnv {
  launch : nat -> option string;
  sessionManagerInitialize : nat -> option string;
  poolClosedDuring : nat -> bool;
  hostname : string -> option string;
  fetchMaterialItems : nat -> Reply (list MaterialItem);
  fetchItemSources : nat -> nat -> Reply (list ItemSource);
  takeScreenshot : nat -> string -> option string;
  extractPriceFromImage : nat -> string -> Reply (option Q);
  markUrlAsOutdated : nat -> nat -> Reply unit;
  updateItemSource : nat -> nat -> Reply nat;
  batchMarkUrlsAsOutdated : nat -> Reply unit;
  batchUpdateItemSources : nat -> Reply unit;
  updateMaterialItemsOutcome : nat -> Reply (list nat);
  cleanupScreenshots : nat -> Reply unit;
  priceChangeThreshold : Q
}.

(** ** Computations over the services *)

(** An asynchronous function over the services: it returns or throws, and
    leaves the services in a new state either way. *)
Definition Async (A : Type) : Type := Services -> Reply A * Services.

Definition ret {A : Type} (a : A) : Async A := fun sv => (Ok a, sv).
Definition bind {A B : Type} (m : Async A) (k : A -> Async B) : Async B :=
  fun sv =>
    match m sv with
    | (Ok a, sv') => k a sv'
    | (Throw message, sv') => (Throw message, sv')
    end.
Definition tryCatch {A : Type} (m : Async A) (handler : string -> Async A) : Async A :=
  fun sv =>
    match m sv with
    | (Ok a, sv') => (Ok a, sv')
    | (Throw message, sv') => handler message sv'
    end.

Notation "x <- m ;; k" := (bind m (fun x => k))
  (at level 100, m at next level, right associativity).

Section WithEnv.

Variable E : Env.

(** An awaited call to a collaborator. *)
Definition await {A : Type} (answer : nat -> Reply A) : Async A :=
  fun sv =>
    let closed := poolClosedDuring E (clock sv) in
    (answer (clock sv),
     mkServices (if closed then BrowserPool.close (pool sv) else pool sv)
                (isInitialized sv) (S (clock sv))).

(** [browserPool.initialize()]: [puppeteer.launch] is called, and counts
    as an external call, only when the pool holds no browser. *)
Definition poolInitialize : Async unit :=
  fun sv =>
    match BrowserPool.browser (pool sv) with
    | Some _ => (Ok tt, sv)
    | None =>
        match BrowserPool.initialize (launch E (clock sv)) (pool sv) with
        | Ok p => (Ok tt, mkServices p (isInitialized sv) (S (clock sv)))
        | Throw message =>
            (Throw message, mkServices (pool sv) (isInitialized sv) (S (clock sv)))
        end
    end.

(** [browserPool.close()] *)
Definition poolClose (sv : Services) : Services :=
  mkServices (BrowserPool.close (pool sv)) (isInitialized sv) (clock sv).

(** [initialize()] of the driver. *)
Definition initialize : Async unit :=
  fun sv =>
    if isInitialized sv then (Ok tt, sv)
    else
      (_ <- poolInitialize ;;
       _ <- await (fun k => match sessionManagerInitialize E k with
                            | None => Ok tt
                            | Some message => Throw message
                            end) ;;
       fun sv' =>
         (Ok tt, mkServices (BrowserPool.setDisconnectHandler (pool sv')) true (clock sv')))
      sv.

(** ** processItemSource *)

(** [Math.round(x * 100) / 100] *)
Definition roundCents (x : spec_float) : spec_float :=
  Number.div (Number.round (Number.mul x (Number.ofZ 100))) (Number.ofZ 100).

(** [priceWithTax]: [Math.round((roundedPrice * 1.15) * 100) / 100] with
    [roundedPrice = Math.round(price * 100) / 100]; [None] when that is
    not a finite number. *)
Definition withTax (price : Q) : option Q :=
  let roundedPrice := roundCents (Number.ofQ price) in
  Number.toQ (roundCents (Number.mul roundedPrice (Number.ofQ (115 # 100)))).

(** [Math.abs((price - old) / old * 100)] *)
Definition percentChange (price old : Q) : spec_float :=
  SFabs (Number.mul (Number.div (Number.sub (Number.ofQ price) (Number.ofQ old))
                                (Number.ofQ old))
                    (Number.ofZ 100)).

(** Whether [percentChange > PRICE_CHANGE_THRESHOLD]; a zero [old] gives
    Infinity for a non-zero price and NaN, which exceeds nothing,
    otherwise. *)
Definition significantChange (price old : Q) : bool :=
  Number.gtb (percentChange price old) (Number.ofQ (priceChangeThreshold E)).

Definition freshResult (source : ItemSource) (item : MaterialItem) : SourceResult :=
  mkSourceResult (sourceId source) (itemId item) (itemName item)
                 false false None (sale_price source) None None None None.

Definition withOutdated (message : string) (r : SourceResult) : SourceResult :=
  mkSourceResult (sr_id r) (sr_materialItemId r) (sr_materialItemName r)
                 (sr_success r) true (sr_priceChange r) (sr_oldPrice r) (sr_newPrice r)
                 (sr_priceWithTax r) (sr_updatedSource r) (Some message).
Definition withPriceChange (v : string) (r : SourceResult) : SourceResult :=
  mkSourceResult (sr_id r) (sr_materialItemId r) (sr_materialItemName r)
                 (sr_success r) (sr_outdated r) (Some v) (sr_oldPrice r) (sr_newPrice r)
                 (sr_priceWithTax r) (sr_updatedSource r) (sr_error r).
Definition withError (message : string) (r : SourceResult) : SourceResult :=
  mkSourceResult (sr_id r) (sr_materialItemId r) (sr_materialItemName r)
                 (sr_success r) (sr_outdated r) (sr_priceChange r) (sr_oldPrice r)
                 (sr_newPrice r) (sr_priceWithTax r) (sr_updatedSource r) (Some message).
Definition withSuccess (price : Q) (priceWithTax : option Q) (row : nat)
    (r : SourceResult) : SourceResult :=
  mkSourceResult (sr_id r) (sr_materialItemId r) (sr_materialItemName r)
                 true (sr_outdated r) (sr_priceChange r) (sr_oldPrice r) (Some price)
                 priceWithTax (Some row) (sr_error r).

(** The [try] block of [processItemSource].  It ends by [return] (second
    component [None]) or by a thrown error ([Some message]); the first
    component is the [result] object as mutated up to that point. *)
Definition processItemSource_try (source : ItemSource) (item : MaterialItem)
    (sv : Services) : SourceResult * option string * Services :=
  let result := freshResult source item in
  if browserMissing sv
  then (result, Some "Browser disconnected before processing item source", sv)
  else
    match await (fun k => Ok (takeScreenshot E k (url source))) sv with
    | (Throw m, sv1) => (result, Some m, sv1)
    | (Ok None, sv1) =>
        match await (fun k => markUrlAsOutdated E k (sourceId source)) sv1 with
        | (Throw m, sv2) => (result, Some m, sv2)
        | (Ok _, sv2) => (withOutdated "Failed to take screenshot" result, None, sv2)
        end
    | (Ok (Some screenshotPath), sv1) =>
        match await (fun k => extractPriceFromImage E k screenshotPath) sv1 with
        | (Throw m, sv2) => (result, Some m, sv2)
        | (Ok extracted, sv2) =>
            (* fs.unlink(screenshotPath), its failure caught and logged *)
            let sv3 := snd (await (fun _ => Ok tt) sv2) in
            match extracted with
            | None =>
                match await (fun k => markUrlAsOutdated E k (sourceId source)) sv3 with
                | (Throw m, sv4) => (result, Some m, sv4)
                | (Ok _, sv4) => (withOutdated "Failed to extract price" result, None, sv4)
                end
            | Some price =>
                let priceWithTax := withTax price in
                let result1 :=
                  match sale_price source with
                  | Some old =>
                      if significantChange price old
                      then withPriceChange (default "Unknown Vendor" (vendor source)) result
                      else result
                  | None => result
                  end in
                match await (fun k => updateItemSource E k (sourceId source)) sv3 with
                | (Throw m, sv4) => (result1, Some m, sv4)
                | (Ok row, sv4) => (withSuccess price priceWithTax row result1, None, sv4)
                end
            end
        end
    end.

(** [processItemSource(source, item)] *)
Definition processItemSource (source : ItemSource) (item : MaterialItem)
    : Async SourceResult :=
  fun sv =>
    match processItemSource_try source item sv with
    | (result, None, sv') => (Ok result, sv')
    | (result, Some message, sv') =>
        if isDisconnectionMessage message || browserMissing sv'
        then (Throw ("Browser disconnection during item source processing: " +:+ message), sv')
        else (Ok (withError message result), sv')
    end.

(** ** processDomainItems *)

(** The [results] object of [processDomainItems] with its two batches. *)
Record DomainAcc : Type := mkDomainAcc {
  acc_results : DomainResults;
  updateBatch : list nat;
  outdatedBatch : list nat
}.

(** The body of the loop after [processItemSource] has returned. *)
Definition recordSource (acc : DomainAcc) (item : MaterialItem) (source : ItemSource)
    (sourceResult : SourceResult) : DomainAcc :=
  let r := acc_results acc in
  if sr_success sourceResult then
    mkDomainAcc
      (mkDomainResults (d_domain r) (S (d_success r)) (d_failed r) (d_outdated r)
         (match sr_priceChange sourceResult with
          | Some v => d_priceChanges r ++ [(itemName item, v)]
          | None => d_priceChanges r
          end)
         (d_items r ++ [sourceResult]) (d_outdatedUrls r))
      (updateBatch acc ++ [sourceId source]) (outdatedBatch acc)
  else if sr_outdated sourceResult then
    mkDomainAcc
      (mkDomainResults (d_domain r) (d_success r) (S (d_failed r)) (S (d_outdated r))
         (d_priceChanges r) (d_items r ++ [sourceResult])
         (d_outdatedUrls r ++ [mkOutdatedUrl (sourceId source) (url source) (itemName item)]))
      (updateBatch acc) (outdatedBatch acc ++ [sourceId source])
  else
    mkDomainAcc
      (mkDomainResults (d_domain r) (d_success r) (S (d_failed r)) (d_outdated r)
         (d_priceChanges r) (d_items r ++ [sourceResult]) (d_outdatedUrls r))
      (updateBatch acc) (outdatedBatch acc).

(** [for (const { item, source } of itemSourcePairs)] *)
Fixpoint processDomainLoop (pairs : list (MaterialItem * ItemSource)) (acc : DomainAcc)
    : Async DomainAcc :=
  match pairs with
  | [] => ret acc
  | (item, source) :: rest =>
      fun sv =>
        if browserMissing sv
        then (Throw "Browser disconnected during domain processing", sv)
        else (sourceResult <- processItemSource source item ;;
              processDomainLoop rest (recordSource acc item source sourceResult)) sv
  end.

(** [processDomainItems(domain, itemSourcePairs)] *)
Definition processDomainItems (domain : string) (pairs : list (MaterialItem * ItemSource))
    : Async DomainResults :=
  acc <- processDomainLoop pairs
           (mkDomainAcc (mkDomainResults domain 0 0 0 [] [] []) [] []) ;;
  _ <- (if (0 <? length (outdatedBatch acc))%nat
        then await (batchMarkUrlsAsOutdated E) else ret tt) ;;
  _ <- (if (0 <? length (updateBatch acc))%nat
        then await (batchUpdateItemSources E) else ret tt) ;;
  ret (acc_results acc).

(** ** processMaterialItem *)

(** [itemsByDomain[domain].push({ item, source })], keys in insertion
    order. *)
Fixpoint addToGroup (domain : string) (pair : MaterialItem * ItemSource)
    (groups : list (string * list (MaterialItem * ItemSource)))
    : list (string * list (MaterialItem * ItemSource)) :=
  match groups with
  | [] => [(domain, [pair])]
  | (d, pairs) :: rest =>
      if String.eqb d domain then (d, pairs ++ [pair]) :: rest
      else (d, pairs) :: addToGroup domain pair rest
  end.

(** The key under which a source is grouped, when the body of the [try]
    runs through.  [new URL(source.url)] throws for a URL that does not
    parse.  For a host name that is a property name of
    [Object.prototype], [itemsByDomain[domain]] reads the inherited
    value, which is truthy and has no [push]: the call throws a
    TypeError.  Either error is caught, logged as an invalid URL, and the
    source is left out. *)
Definition groupKey (source : ItemSource) : option string :=
  match hostname E (url source) with
  | Some domain => if decide (domain ∈ objectPrototypeKeys) then None else Some domain
  | None => None
  end.

(** Grouping by [new URL(source.url).hostname]. *)
Definition groupByDomain (item : MaterialItem) (sources : list ItemSource)
    : list (string * list (MaterialItem * ItemSource)) :=
  foldl (fun groups source =>
           match groupKey source with
           | Some domain => addToGroup domain (item, source) groups
           | None => groups
           end) [] sources.

(** What the domain loop of [processMaterialItem] collects. *)
Record ItemAcc : Type := mkItemAcc {
  domainResults : list DomainResults;
  acc_updated : list SourceUpdate;
  acc_outdated : list OutdatedUrl
}.

Definition collectDomain (materialItem : MaterialItem) (acc : ItemAcc)
    (result : DomainResults) : ItemAcc :=
  mkItemAcc
    (domainResults acc ++ [result])
    (acc_updated acc ++
       map (fun r => mkSourceUpdate (sr_id r) (sr_newPrice r) (sr_priceWithTax r)
                                    (sr_updatedSource r) (itemId materialItem))
           (filter (fun r => sr_success r = true) (d_items result)))
    (acc_outdated acc ++ d_outdatedUrls result).

(** [for (const [domain, pairs] of Object.entries(itemsByDomain))] with
    its try/catch: a disconnection is rethrown, any other error of a
    domain is logged and the next domain is processed. *)
Fixpoint processDomains (materialItem : MaterialItem)
    (groups : list (string * list (MaterialItem * ItemSource))) (acc : ItemAcc)
    : Async ItemAcc :=
  match groups with
  | [] => ret acc
  | (domain, pairs) :: rest =>
      acc' <- tryCatch
                (result <- processDomainItems domain pairs ;;
                 ret (collectDomain materialItem acc result))
                (fun message sv =>
                   if isDisconnectionMessage message || browserMissing sv
                   then (Throw ("Browser disconnection during domain processing: "
                                +:+ message), sv)
                   else (Ok acc, sv)) ;;
      processDomains materialItem rest acc'
  end.

(** [updateMaterialItems(itemSourceUpdates)]: nothing to do for an empty
    list, else the aggregation and its database writes. *)
Definition updateMaterialItems (updates : list SourceUpdate) : Async (list nat) :=
  if (length updates =? 0)%nat then ret []
  else await (updateMaterialItemsOutcome E).

(** The [try] block of [processMaterialItem]. *)
Definition processMaterialItem_try (materialItem : MaterialItem) : Async ItemResult :=
  _ <- initialize ;;
  itemSources <- await (fun k => fetchItemSources E k (itemId materialItem)) ;;
  if (length itemSources =? 0)%nat
  then ret (mkItemResult false materialItem [] None None)
  else
    acc <- processDomains materialItem (groupByDomain materialItem itemSources)
             (mkItemAcc [] [] []) ;;
    materialUpdates <- updateMaterialItems (acc_updated acc) ;;
    if existsb (Nat.eqb (itemId materialItem)) materialUpdates
    then ret (mkItemResult true materialItem (acc_updated acc) (Some (acc_outdated acc)) None)
    else ret (mkItemResult false materialItem (acc_updated acc) (Some (acc_outdated acc)) None).

(** [processMaterialItem(materialItem)]: whatever its [try] block throws
    is caught and returned as a failure record. *)
Definition processMaterialItem (materialItem : MaterialItem) : Async ItemResult :=
  tryCatch (processMaterialItem_try materialItem)
           (fun message => ret (mkItemResult false materialItem [] None (Some message))).

(** ** The recovery system *)

Definition emptyResults : Results := mkResults 0 0 0 0 0 [] [].

(** The merge of [recoveryResults] into [results].  In a give-up object
    [success] is [false] and the other counters and lists are undefined:
    every [|| 0] yields 0 and nothing is pushed. *)
Definition mergeRecovery (results : Results) (recoveryResults : RecoveryResult) : Results :=
  match recoveryResults with
  | Resumed r =>
      mkResults (r_success results + r_success r) (r_failed results + r_failed r)
                (r_skipped results + r_skipped r) (r_outdated results + r_outdated r)
                (r_materialUpdates results)
                (r_details results ++ r_details r)
                (r_updatedItemSources results ++ r_updatedItemSources r)
  | GaveUp _ _ _ => results
  end.

(** The bookkeeping after [processMaterialItem] has returned [result]. *)
Definition recordResult (results : Results) (result : ItemResult) : Results :=
  if success result then
    mkResults (S (r_success results)) (r_failed results) (r_skipped results)
              (r_outdated results) (r_materialUpdates results)
              (r_details results ++ [result])
              (r_updatedItemSources results ++ updatedItemSources result)
  else
    mkResults (r_success results) (S (r_failed results)) (r_skipped results)
              (r_outdated results
               + match outdatedUrls result with Some l => length l | None => 0 end)
              (r_materialUpdates results)
              (r_details results ++ [result])
              (r_updatedItemSources results).

(** The end of the catch block: the item is counted as failed. *)
Definition recordFailure (results : Results) (item : MaterialItem) (message : string)
    : Results :=
  mkResults (r_success results) (S (r_failed results)) (r_skipped results)
            (r_outdated results) (r_materialUpdates results)
            (r_details results ++ [mkItemResult false item [] None (Some message)])
            (r_updatedItemSources results).

(** The loop of [processRemainingItems] over [rest = items[i..]], with
    [recover i] standing for [recoverFromDisconnection(items, i)] and
    [process] for the awaited item processing. *)
Fixpoint processLoop (process : MaterialItem -> Async ItemResult)
    (recover : nat -> World -> option (RecoveryResult * World))
    (rest : list MaterialItem) (i : nat) (results : Results) (w : World)
    : option (Results * World) :=
  match rest with
  | [] => Some (results, w)
  | item :: rest' =>
      let w0 := set_currentIndex i w in
      if browserMissing (services w0) then
        match recover i (logLine LogNotConnected w0) with
        | Some (recoveryResults, w1) => Some (mergeRecovery results recoveryResults, w1)
        | None => None
        end
      else
        match process item (services w0) with
        | (Ok result, sv) =>
            processLoop process recover rest' (S i) (recordResult results result)
                        (set_services sv w0)
        | (Throw message, sv) =>
            let w1 := set_services sv w0 in
            if isDisconnectionMessage message || browserMissing sv then
              match recover i (logLine (LogDisconnectionDetected message) w1) with
              | Some (recoveryResults, w2) => Some (mergeRecovery results recoveryResults, w2)
              | None => None
              end
            else
              processLoop process recover rest' (S i) (recordFailure results item message)
                          (logLine (LogItemError (itemId item) message) w1)
        end
  end.

(** The start of a recovery cycle: the wait, then [isRecovering = true]
    and [recoveryAttempts++]. *)
Definition beginRecovery (w : World) : World :=
  mkWorld (services w) true (S (recoveryAttempts w)) (currentIndex w) (S (cooldowns w))
          (log w ++ [LogRecoveryAttempt (S (recoveryAttempts w))]).

(** [isRecovering = false; recoveryAttempts = 0] *)
Definition resetRecovery (w : World) : World :=
  mkWorld (services w) false 0 (currentIndex w) (cooldowns w) (log w).

(** [recoverFromDisconnection(items, startIndex)].  [fuel] bounds the
    depth of the mutual recursion with [processRemainingItems]. *)
Fixpoint recoverFromDisconnection (fuel : nat) (items : list MaterialItem)
    (startIndex : nat) (w : World) : option (RecoveryResult * World) :=
  match fuel with
  | O => None
  | S fuel' =>
      if (MAX_RECOVERY_ATTEMPTS <=? recoveryAttempts w)%nat then
        Some (GaveUp "Exceeded maximum recovery attempts" startIndex (length items),
              logLine LogExceeded w)
      else
        let w1 := beginRecovery w in
        let w2 := set_services (poolClose (services w1)) w1 in
        match poolInitialize (services w2) with
        | (Ok _, sv) =>
            let w3 := logLine (LogResuming startIndex (length items)) (set_services sv w2) in
            match processLoop processMaterialItem
                    (recoverFromDisconnection fuel' items)
                    (drop startIndex items) startIndex emptyResults w3 with
            | Some (result, w4) =>
                if (length items <=? startIndex + r_success result + r_failed result)%nat
                then Some (Resumed result, resetRecovery w4)
                else Some (Resumed result, w4)
            | None => None
            end
        | (Throw message, sv) =>
            let w3 := logLine (LogRecoveryError message) (set_services sv w2) in
            if isDisconnectionMessage message
            then recoverFromDisconnection fuel' items startIndex w3
            else Some (GaveUp message startIndex (length items), w3)
        end
  end.

(** [processRemainingItems(items, startIndex)] *)
Definition processRemainingItems (fuel : nat) (items : list MaterialItem)
    (startIndex : nat) (w : World) : option (Results * World) :=
  processLoop processMaterialItem (recoverFromDisconnection fuel items)
              (drop startIndex items) startIndex emptyResults w.

(** ** processAllMaterialItems *)

(** The catch block of [processAllMaterialItems]. *)
Definition abortBatch (message : string) (w : World) : BatchResult * World :=
  (Aborted message,
   if isRecovering w then w else set_services (poolClose (services w)) w).

(** [processAllMaterialItems(options)] *)
Definition processAllMaterialItems (fuel : nat) (w : World)
    : option (BatchResult * World) :=
  match initialize (services w) with
  | (Throw message, sv) => Some (abortBatch message (set_services sv w))
  | (Ok _, sv) =>
      match await (fetchMaterialItems E) sv with
      | (Throw message, sv1) => Some (abortBatch message (set_services sv1 w))
      | (Ok materialItems, sv1) =>
          let w1 := mkWorld sv1 false 0 0 (cooldowns w) (log w) in
          match processRemainingItems fuel materialItems 0 w1 with
          | None => None
          | Some (results, w2) =>
              match (if (0 <? length (r_updatedItemSources results))%nat
                     then updateMaterialItems (r_updatedItemSources results)
                     else ret []) (services w2) with
              | (Throw message, sv3) => Some (abortBatch message (set_services sv3 w2))
              | (Ok materialUpdates, sv3) =>
                  let results' :=
                    if (0 <? length (r_updatedItemSources results))%nat
                    then mkResults (r_success results) (r_failed results)
                                   (r_skipped results) (r_outdated results)
                                   (length materialUpdates) (r_details results)
                                   (r_updatedItemSources results)
                    else results in
                  let sv4 := snd (await (cleanupScreenshots E) sv3) in
                  let w3 := set_services sv4 w2 in
                  Some (Completed materialItems results',
                        if isRecovering w3 then w3
                        else set_services (poolClose (services w3)) w3)
              end
          end
      end
  end.

End WithEnv.

(** ** Scenarios *)

Definition bolt : MaterialItem := mkItem 1 "bolt".
Definition nut : MaterialItem := mkItem 2 "nut".
Definition washer : MaterialItem := mkItem 3 "washer".

Definition boltSource : ItemSource :=
  mkSource 7 "https://shop.example/bolt" (Some (5 # 2)) 1 (Some "Shop").

(** The state of a process that has not called [initialize] yet. *)
Definition freshWorld : World :=
  mkWorld (mkServices (BrowserPool.create None) false 0) false 0 0 0 [].

(** Services with a connected browser. *)
Definition connectedServices : Services :=
  mkServices BrowserPool.readyPool true 0.

(** A driver that is initialised and connected, with no recovery so far. *)
Definition connectedWorld : World :=
  mkWorld connectedServices false 0 0 0 [].

Definition targetClosed : string :=
  "Protocol error (Target.setDiscoverTargets): Target closed".

(** An environment in which the browser never comes up: every launch is
    rejected with a disconnection-class error. *)
Definition deadEnv : Env :=
  mkEnv (fun _ => Some targetClosed) (fun _ => None) (fun _ => false)
        (fun u => Some u) (fun _ => Ok [bolt; nut]) (fun _ _ => Ok [])
        (fun _ _ => None) (fun _ _ => Ok None) (fun _ _ => Ok tt)
        (fun _ row => Ok row) (fun _ => Ok tt) (fun _ => Ok tt) (fun _ => Ok [])
        (fun _ => Ok tt) 30.

(** The first launch succeeds, every later one is rejected with a
    disconnection-class error; the store holds no item at first (calls 0
    to 2) and the items bolt and nut afterwards. *)
Definition secondRunEnv : Env :=
  mkEnv (fun k => if (k =? 0)%nat then None else Some targetClosed)
        (fun _ => None) (fun _ => false) (fun u => Some u)
        (fun k => if (k <? 3)%nat then Ok [] else Ok [bolt; nut])
        (fun _ _ => Ok []) (fun _ _ => None) (fun _ _ => Ok None)
        (fun _ _ => Ok tt) (fun _ row => Ok row) (fun _ => Ok tt) (fun _ => Ok tt)
        (fun _ => Ok []) (fun _ => Ok tt) 30.

(** Two batch runs in one process. *)
Definition twoRuns (E : Env) (fuel : nat) (w : World) : option (BatchResult * World) :=
  match processAllMaterialItems E fuel w with
  | Some (_, w1) => processAllMaterialItems E fuel w1
  | None => None
  end.

(** Every launch succeeds; the pool is closed by another party while
    call 0 is pending. *)
Definition flakyEnv : Env :=
  mkEnv (fun _ => None) (fun _ => None) (fun k => (k =? 0)%nat) (fun u => Some u)
        (fun _ => Ok [bolt; nut; washer]) (fun _ _ => Ok [])
        (fun _ _ => None) (fun _ _ => Ok None) (fun _ _ => Ok tt)
        (fun _ row => Ok row) (fun _ => Ok tt) (fun _ => Ok tt) (fun _ => Ok [])
        (fun _ => Ok tt) 30.

(** What a batch run over [flakyEnv] returns from [connectedWorld], and
    the state it leaves: the pool is found closed at the first item, one
    recovery resumes at index 0, and each of the three items, having no
    item source, is recorded as failed. *)
Definition flakyResults : Results :=
  mkResults 0 3 0 0 0
            [mkItemResult false bolt [] None None;
             mkItemResult false nut [] None None;
             mkItemResult false washer [] None None] [].

Definition flakyFinalWorld : World :=
  mkWorld (mkServices (BrowserPool.close BrowserPool.readyPool) true 6) false 0 2 1
          [LogNotConnected; LogRecoveryAttempt 1; LogResuming 0 3].

(** The page of every source is captured and priced at 4.10, and the
    database rejects the update of the row. *)
Definition expiredTokenEnv : Env :=
  mkEnv (fun _ => None) (fun _ => None) (fun _ => false) (fun u => Some u)
        (fun _ => Ok [bolt; nut]) (fun _ _ => Ok [boltSource])
        (fun _ _ => Some "shot.png") (fun _ _ => Ok (Some (41 # 10)%Q))
        (fun _ _ => Ok tt)
        (fun _ _ => Throw "JWT expired") (fun _ => Ok tt) (fun _ => Ok tt)
        (fun _ => Ok []) (fun _ => Ok tt) 30.

(** The browser process cannot be started: every launch is rejected
    with an error that is not of the disconnection class. *)
Definition brokenLaunchEnv : Env :=
  mkEnv (fun _ => Some "Failed to launch the browser process!") (fun _ => None)
        (fun _ => false) (fun u => Some u) (fun _ => Ok [bolt; nut]) (fun _ _ => Ok [])
        (fun _ _ => None) (fun _ _ => Ok None) (fun _ _ => Ok tt)
        (fun _ row => Ok row) (fun _ => Ok tt) (fun _ => Ok tt) (fun _ => Ok [])
        (fun _ => Ok tt) 30.

(** Bolt has one source, nut and washer have none.  Every launch
    succeeds, and the pool is closed by another party while call 0, the
    fetch of the sources of bolt, is pending. *)
Definition interruptedEnv : Env :=
  mkEnv (fun _ => None) (fun _ => None) (fun k => (k =? 0)%nat) (fun u => Some u)
        (fun _ => Ok [bolt; nut; washer])
        (fun _ item => if (item =? 1)%nat then Ok [boltSource] else Ok [])
        (fun _ _ => Some "shot.png") (fun _ _ => Ok (Some 3%Q)) (fun _ _ => Ok tt)
        (fun _ row => Ok row) (fun _ => Ok tt) (fun _ => Ok tt) (fun _ => Ok [1%nat])
        (fun _ => Ok tt) 30.

Definition socketDisconnected : string :=
  "Client network socket disconnected before secure TLS connection was established".

(** The same items with the pool left alone; the request to the vision
    service fails with a network error whose message holds the word
    "disconnected". *)
Definition droppedConnectionEnv : Env :=
  mkEnv (fun _ => None) (fun _ => None) (fun _ => false) (fun u => Some u)
        (fun _ => Ok [bolt; nut; washer])
        (fun _ item => if (item =? 1)%nat then Ok [boltSource] else Ok [])
        (fun _ _ => Some "shot.png") (fun _ _ => Throw socketDisconnected)
        (fun _ _ => Ok tt)
        (fun _ row => Ok row) (fun _ => Ok tt) (fun _ => Ok tt) (fun _ => Ok [1%nat])
        (fun _ => Ok tt) 30.

(** ** Properties of results and logs *)

(** No other party closes the pool while a call is pending. *)
Definition PoolStays (E : Env) : Prop := forall k, poolClosedDuring E k = false.

(** Whatever the vision service and the database throw while an item
    source is processed is not of the disconnection class. *)
Definition OrdinaryErrors (E : Env) : Prop :=
  (forall k s m, extractPriceFromImage E k s = Throw m -> isDisconnectionMessage m = false)
  /\ (forall k i m, markUrlAsOutdated E k i = Throw m -> isDisconnectionMessage m = false)
  /\ (forall k i m, updateItemSource E k i = Throw m -> isDisconnectionMessage m = false).

(** A computation that leaves the browser reference in place. *)
Definition StaysConnected {A : Type} (m : Async A) : Prop :=
  forall sv r sv', m sv = (r, sv') -> browserMissing sv = false -> browserMissing sv' = false.

(** A line that records a recovery being abandoned. *)
Definition isGiveUp (l : LogLine) : bool :=
  match l with
  | LogExceeded => true
  | LogRecoveryError message => negb (isDisconnectionMessage message)
  | _ => false
  end.

(** The counters of a results object account for its details. *)
Definition Counted (r : Results) : Prop :=
  (r_success r + r_failed r + r_skipped r = length (r_details r))%nat.

(** The items the details of a results object are about. *)
Definition detailIds (r : Results) : list nat :=
  map (fun d => itemId (materialItem d)) (r_details r).

(** What a call [recover j], standing for
    [recoverFromDisconnection(items, j)], guarantees: it only appends to
    the log; a give-up is logged and reports [j] and the total; resumed
    results are accounted for and, unless a later recovery was abandoned,
    cover the items from [j] on, once each and in order. *)
Definition RecoverSpec (items : list MaterialItem)
    (recover : nat -> World -> option (RecoveryResult * World)) : Prop :=
  forall j w rr w',
    recover j w = Some (rr, w') ->
    exists new,
      log w' = log w ++ new /\
      match rr with
      | GaveUp _ processed total =>
          existsb isGiveUp new = true /\ processed = j /\ total = length items
      | Resumed r =>
          Counted r
          /\ (length (r_details r) <= length (drop j items))%nat
          /\ (existsb isGiveUp new = false -> detailIds r = map itemId (drop j items))
      end.

(** An item processor whose records are about the item it was given. *)
Definition Faithful (process : MaterialItem -> Async ItemResult) : Prop :=
  forall item sv r sv', process item sv = (Ok r, sv') -> materialItem r = item.

(** ** Clean-up *)

Section Cleanup.

Variable E : Env.

(** [cleanup()]: nothing unless [initialize] has completed; else the
    screenshots are cleaned up and the pool closed, the failure of either
    being caught, and [isInitialized] is reset. *)
Definition cleanup (sv : Services) : Services :=
  if isInitialized sv then
    let sv1 := snd (await E (cleanupScreenshots E) sv) in
    mkServices (BrowserPool.close (pool sv1)) false (clock sv1)
  else sv.

End Cleanup.

(** ** More properties of results and states *)

(** [result.outdatedUrls.length], zero when the record has no such
    list. *)
Definition outdatedCount (d : ItemResult) : nat :=
  match outdatedUrls d with
  | Some l => length l
  | None => 0%nat
  end.

(** The counters and the list of updates of a results object are those
    of its details. *)
Record Reflects (r : Results) : Prop := mkReflects {
  reflects_success :
    r_success r = length (filter (fun d => success d = true) (r_details r));
  reflects_failed :
    r_failed r = length (filter (fun d => success d = false) (r_details r));
  reflects_skipped : r_skipped r = 0%nat;
  reflects_outdated :
    r_outdated r
    = sum_list_with outdatedCount (filter (fun d => success d = false) (r_details r));
  reflects_updated :
    r_updatedItemSources r
    = concat (map updatedItemSources
                  (filter (fun d => success d = true) (r_details r)))
}.

(** A computation that leaves [isInitialized] set. *)
Definition KeepsInitialized {A : Type} (m : Async A) : Prop :=
  forall sv r sv', m sv = (r, sv') -> isInitialized sv = true -> isInitialized sv' = true.

(** From [w] to [w'] the driver slept through no more recovery waits
    than the attempts left in [w] allow, and [isInitialized] stayed
    set. *)
Definition WithinWaits (w w' : World) : Prop :=
  (cooldowns w <= cooldowns w')%nat
  /\ (cooldowns w' <= cooldowns w + (MAX_RECOVERY_ATTEMPTS - recoveryAttempts w))%nat
  /\ (isInitialized (services w) = true -> isInitialized (services w') = true).

(** What a call of [recoverFromDisconnection] guarantees about waits. *)
Definition RecoverWaits (recover : nat -> World -> option (RecoveryResult * World))
    : Prop :=
  forall j w rr w',
    recover j w = Some (rr, w') ->
    WithinWaits w w'
    /\ ((recoveryAttempts w < MAX_RECOVERY_ATTEMPTS)%nat ->
        (S (cooldowns w) <= cooldowns w')%nat).

(** The session manager cannot be initialised: its directory is not
    writable. *)
Definition noSessionsEnv : Env :=
  mkEnv (fun _ => None) (fun _ => Some "EACCES: permission denied, mkdir")
        (fun _ => false) (fun u => Some u)
        (fun _ => Ok [bolt]) (fun _ _ => Ok [boltSource])
        (fun _ _ => None) (fun _ _ => Ok None) (fun _ _ => Ok tt)
        (fun _ row => Ok row) (fun _ => Ok tt) (fun _ => Ok tt) (fun _ => Ok [])
        (fun _ => Ok tt) 30.

(** The counters of a domain's results and its two batches are those
    of the source records collected so far. *)
Record DomainCounted (acc : DomainAcc) : Prop := mkDomainCounted {
  dc_success :
    d_success (acc_results acc)
    = length (filter (fun x => sr_success x = true) (d_items (acc_results acc)));
  dc_failed :
    d_failed (acc_results acc)
    = length (filter (fun x => sr_success x = false) (d_items (acc_results acc)));
  dc_outdated : d_outdated (acc_results acc) = length (d_outdatedUrls (acc_results acc));
  dc_outdated_failed : (d_outdated (acc_results acc) <= d_failed (acc_results acc))%nat;
  dc_changes : (length (d_priceChanges (acc_results acc))
                <= d_success (acc_results acc))%nat;
  dc_updateBatch : length (updateBatch acc) = d_success (acc_results acc);
  dc_outdatedBatch : length (outdatedBatch acc) = d_outdated (acc_results acc)
}.

(** ** The aggregation of updateMaterialItems *)

(** The comparator [(a, b) => a.priceWithTax - b.priceWithTax] is not
    positive: [a] need not move behind [b].  A missing price makes the
    difference NaN, which [sort] treats as 0. *)
Definition notAbove (a b : SourceUpdate) : bool :=
  match su_priceWithTax a, su_priceWithTax b with
  | Some p, Some q => Qle_bool p q
  | _, _ => true
  end.

(** [data.sources.sort(...)]: a stable sort, lower price first. *)
Fixpoint insertByPrice (u : SourceUpdate) (l : list SourceUpdate) : list SourceUpdate :=
  match l with
  | [] => [u]
  | x :: l' => if notAbove u x then u :: x :: l' else x :: insertByPrice u l'
  end.

Fixpoint sortByPrice (l : list SourceUpdate) : list SourceUpdate :=
  match l with
  | [] => []
  | x :: l' => insertByPrice x (sortByPrice l')
  end.

(** The price fields of an entry of [materialUpdates]; the vendor names
    and the notes text are left out. *)
Record MaterialUpdate : Type := mkMaterialUpdate {
  mu_id : nat;
  mu_cost : option Q;
  mu_cheapestVendorId : nat;
  mu_salePrice : option Q
}.

(** The entry [updateMaterialItems] computes for the material item
    [item]: its updated sources, in the order given, are sorted by price
    with tax; the first gives [cost] and [cheapestVendorId], the last
    [salePrice].  There is no entry for an item without updated source. *)
Definition materialUpdateOf (item : nat) (updates : list SourceUpdate)
    : option MaterialUpdate :=
  let sources := sortByPrice (filter (fun u => su_item_id u = item) updates) in
  match sources, last sources with
  | lowest :: _, Some highest =>
      Some (mkMaterialUpdate item (su_priceWithTax lowest) (su_id lowest)
                             (su_priceWithTax highest))
  | _, _ => None
  end.

(** Lower price first, among priced entries. *)
Definition PriceOrdered (a b : SourceUpdate) : Prop :=
  forall p q, su_priceWithTax a = Some p -> su_priceWithTax b = Some q -> (p <= q)%Q.

Definition Priced (u : SourceUpdate) : Prop := is_Some (su_priceWithTax u).

(** Two updated sources of item 1 and one of item 2. *)
Definition threeUpdates : list SourceUpdate :=
  [mkSourceUpdate 7 (Some 3%Q) (Some (345 # 100)) (Some 1%nat) 1;
   mkSourceUpdate 9 (Some 5%Q) (Some (575 # 100)) (Some 2%nat) 2;
   mkSourceUpdate 8 (Some 2%Q) (Some (230 # 100)) (Some 2%nat) 1].

(** As [pricedEnv], but the batch update of item sources is rejected
    with an ordinary error. *)
Definition noBatchEnv : Env :=
  mkEnv (fun _ => None) (fun _ => None) (fun _ => false) (fun u => Some u)
        (fun _ => Ok [bolt]) (fun _ _ => Ok [boltSource])
        (fun _ _ => Some "shot.png") (fun _ _ => Ok (Some 3%Q)) (fun _ _ => Ok tt)
        (fun _ row => Ok row) (fun _ => Ok tt)
        (fun _ => Throw "databaseService.batchUpdateItemSources is not a function")
        (fun _ => Ok [1%nat]) (fun _ => Ok tt) 30.

(** Groups of one item's sources: every group has its own key, is not
    empty and holds pairs of the item with sources grouped under that
    key. *)
Definition Grouped (E : Env) (item : MaterialItem)
    (groups : list (string * list (MaterialItem * ItemSource))) : Prop :=
  NoDup (map fst groups)
  /\ Forall (fun grp =>
               snd grp <> []
               /\ Forall (fun pr => fst pr = item
                                    /\ groupKey E (snd pr) = Some (fst grp))
                         (snd grp))
            groups.

(** The page of every source is captured and priced at 3.00. *)
Definition pricedEnv : Env :=
  mkEnv (fun _ => None) (fun _ => None) (fun _ => false) (fun u => Some u)
        (fun _ => Ok [bolt]) (fun _ _ => Ok [boltSource])
        (fun _ _ => Some "shot.png") (fun _ _ => Ok (Some 3%Q)) (fun _ _ => Ok tt)
        (fun _ row => Ok row) (fun _ => Ok tt) (fun _ => Ok tt) (fun _ => Ok [1%nat])
        (fun _ => Ok tt) 30.

End PriceScraper.

Module SessionManagerProofs.
Import SessionManager.

Lemma isSessionValid_spec now s :
  isSessionValid now s = true <->
  exists t, timestamp s = Some t /\ now - t < sessionValidityWindow.
Proof.
  unfold isSessionValid, sessionValidityWindow, SESSION_VALIDITY_HOURS.
  destruct (timestamp s) as [t|].
  - rewrite negb_true_iff, <- not_true_iff_false, Qle_bool_iff.
    unfold Qle, Qdiv, Qmult, Qinv, inject_Z. simpl.
    split.
    + intros H. exists t. split; [reflexivity | lia].
    + intros [t' [[= <-] H]]. lia.
  - split; [discriminate | intros [t [[=] _]]].
Qed.

Lemma initialize_initialized fails now st st1 :
  initialize fails now st = Ok st1 -> initialized st1 = true.
Proof.
  unfold initialize. destruct (initialized st) eqn:Hi.
  - intros [= <-]. exact Hi.
  - cbn. destruct (fails (io st)); [discriminate |].
    destruct (fails (S (io st))); [discriminate |].
    intros [= <-]. reflexivity.
Qed.

Lemma initialize_idle fails now st :
  initialized st = true -> initialize fails now st = Ok st.
Proof. intros H. unfold initialize. rewrite H. reflexivity. Qed.


Lemma spread_timestamp extra : forall sessionData,
  (forall t, Timestamp t ∉ extra) ->
  timestamp (foldl spreadProperty sessionData extra) = timestamp sessionData.
Proof.
  induction extra as [|p extra IH]; intros sessionData Hno; [reflexivity|].
  cbn [foldl]. rewrite IH.
  - destruct p as [t| |]; [|reflexivity..].
    exfalso. apply (Hno t). apply list_elem_of_here.
  - intros t Hin. apply (Hno t). apply list_elem_of_further, Hin.
Qed.

Lemma spread_cookies extra : forall sessionData,
  (forall c, Cookies c ∉ extra) ->
  cookies (foldl spreadProperty sessionData extra) = cookies sessionData.
Proof.
  induction extra as [|p extra IH]; intros sessionData Hno; [reflexivity|].
  cbn [foldl]. rewrite IH.
  - destruct p as [|c|]; [reflexivity| |reflexivity].
    exfalso. apply (Hno c). apply list_elem_of_here.
  - intros c Hin. apply (Hno c). apply list_elem_of_further, Hin.
Qed.

Lemma getSession_serves fails now domain st session :
  initialized st = true ->
  sessions st !! domain = Some session ->
  getSession fails now domain st
  = if isSessionValid now session then Ok (Some session, st)
    else let st2 := set_sessions (delete domain (sessions st)) st in
         let '(unlinkFails, st3) := fs_call fails st2 in
         if unlinkFails then Ok (None, st3)
         else Ok (None, set_disk (delete domain (disk st3)) st3).
Proof.
  intros Hi Hs. unfold getSession.
  rewrite initialize_idle by exact Hi. rewrite Hs. reflexivity.
Qed.




(** A manager that is not initialised yet, over a directory holding the
    file of the 25 hours old session: [getSession] loads nothing, deletes
    the file and answers none. *)
Example getSession_expired_file_on_disk :
  exists st',
    getSession diskHealthy (25 * hour) "x"
      (mkStore ∅ false {[ "x" := Parsed staleSession ]} 0) = Ok (None, st')
    /\ sessions st' !! "x" = None
    /\ disk st' !! "x" = None
    /\ initialized st' = true.
Proof.
  eexists. split; [vm_compute; reflexivity|].
  repeat split; vm_compute; reflexivity.
Qed.


(** An [extraData] object with a [timestamp] of its own: the write fails,
    the record kept in memory carries that older timestamp, and one hour
    after the save [getSession] finds it expired and serves nothing. *)
Example saveSession_keeps_extraData_timestamp :
  exists st',
    saveSession diskBroken (25 * hour) "x" ["sid=2"] [Timestamp (Some 0)] emptyStore
    = Ok (false, st')
    /\ sessions st' !! "x" = Some (mkSession (Some 0) ["sid=2"] [])
    /\ exists st'', getSession diskBroken (26 * hour) "x" st' = Ok (None, st'').
Proof.
  eexists. split; [reflexivity|]. split; [reflexivity|].
  eexists. vm_compute. reflexivity.
Qed.

(** ** Further properties of the manager *)

(** X1.  A save whose write succeeds answers true: the record
    [{timestamp, cookies, ...extraData}] is in the map and in the file of
    the domain, [getSession] serves it whenever it is valid by its own
    timestamp, and no other entry or file is touched.  Unless [extraData]
    brings a [timestamp] or a [cookies] key of its own, the record is
    stamped [now], carries the cookies passed in and is served throughout
    the validity window that starts at [now].  The domain is any key but
    [__proto__], on which the assignment would replace the prototype of
    the table. *)
Theorem saveSession_getSession_roundtrip fails now domain cks extra st st1 :
  domain <> "__proto__" ->
  initialize fails now st = Ok st1 ->
  fails (io st1) = false ->
  exists st',
    saveSession fails now domain cks extra st = Ok (true, st')
    /\ sessions st' !! domain = Some (spread now cks extra)
    /\ disk st' !! domain = Some (Parsed (spread now cks extra))
    /\ (forall now', isSessionValid now' (spread now cks extra) = true ->
         getSession fails now' domain st' = Ok (Some (spread now cks extra), st'))
    /\ ((forall t, Timestamp t ∉ extra) -> (forall c, Cookies c ∉ extra) ->
        timestamp (spread now cks extra) = Some now
        /\ cookies (spread now cks extra) = cks
        /\ forall now', now' - now < sessionValidityWindow ->
             getSession fails now' domain st'
             = Ok (Some (spread now cks extra), st'))
    /\ (forall other, other <> domain ->
         sessions st' !! other = sessions st1 !! other
         /\ disk st' !! other = disk st1 !! other).
Proof.
  intros _ Hinit Hf.
  pose proof (initialize_initialized _ _ _ _ Hinit) as Hi1.
  unfold saveSession. rewrite Hinit. cbn. rewrite Hf.
  eexists. split; [reflexivity|]. cbn.
  split; [apply lookup_insert_eq|].
  split; [apply lookup_insert_eq|].
  match goal with
  | |- (forall now', _ -> getSession _ _ _ ?st' = _) /\ _ =>
      assert (Hserve : forall now',
                isSessionValid now' (spread now cks extra) = true ->
                getSession fails now' domain st'
                = Ok (Some (spread now cks extra), st'))
  end.
  { intros now' Hv.
    rewrite (getSession_serves fails now' domain _ (spread now cks extra));
      [rewrite Hv; reflexivity | exact Hi1 | apply lookup_insert_eq]. }
  split; [exact Hserve|]. split.
  - intros Hnot Hnoc.
    assert (Ht : timestamp (spread now cks extra) = Some now).
    { unfold spread. rewrite spread_timestamp by exact Hnot. reflexivity. }
    split; [exact Ht|].
    split; [unfold spread; rewrite spread_cookies by exact Hnoc; reflexivity|].
    intros now' Hfresh. apply Hserve.
    apply isSessionValid_spec. exists now. split; [exact Ht | exact Hfresh].
  - intros other Hne. split; apply lookup_insert_ne; congruence.
Qed.

Lemma saveSession_getSession_roundtrip_witness :
  exists st',
    saveSession diskHealthy (25 * hour) "x" ["sid=2"] [Other "user" "ann"] emptyStore
    = Ok (true, st')
    /\ sessions st' !! "x" = Some (spread (25 * hour) ["sid=2"] [Other "user" "ann"])
    /\ disk st' !! "x"
       = Some (Parsed (spread (25 * hour) ["sid=2"] [Other "user" "ann"]))
    /\ (forall now',
         isSessionValid now' (spread (25 * hour) ["sid=2"] [Other "user" "ann"]) = true ->
         getSession diskHealthy now' "x" st'
         = Ok (Some (spread (25 * hour) ["sid=2"] [Other "user" "ann"]), st'))
    /\ ((forall t, Timestamp t ∉ [Other "user" "ann"]) ->
        (forall c, Cookies c ∉ [Other "user" "ann"]) ->
        timestamp (spread (25 * hour) ["sid=2"] [Other "user" "ann"]) = Some (25 * hour)
        /\ cookies (spread (25 * hour) ["sid=2"] [Other "user" "ann"]) = ["sid=2"]
        /\ forall now', now' - 25 * hour < sessionValidityWindow ->
             getSession diskHealthy now' "x" st'
             = Ok (Some (spread (25 * hour) ["sid=2"] [Other "user" "ann"]), st'))
    /\ (forall other, other <> "x" ->
         sessions st' !! other = sessions emptyStore !! other
         /\ disk st' !! other = disk emptyStore !! other).
Proof.
  apply (saveSession_getSession_roundtrip diskHealthy (25 * hour) "x" ["sid=2"]
           [Other "user" "ann"] emptyStore emptyStore);
    [discriminate | reflexivity | reflexivity].
Defined.

Lemma foldl_load_file fails now (l : list (string * FileEntry)) :
  (forall k, fails k = false) ->
  NoDup (l.*1) ->
  Forall (fun name => domainOfFile (fileName name) = name) (l.*1) ->
  forall st d,
    (sessions (foldl (load_file fails now) st l) !! d,
     disk (foldl (load_file fails now) st l) !! d)
    = match (list_to_map l : gmap string FileEntry) !! d with
      | Some (Parsed s) =>
          if isSessionValid now s then (Some s, disk st !! d)
          else (sessions st !! d, None)
      | _ => (sessions st !! d, disk st !! d)
      end.
Proof.
  intros Hok. induction l as [|[k e] l IH]; intros Hnd Hkeys st d.
  - cbn. rewrite lookup_empty. reflexivity.
  - cbn [fmap list_fmap fst] in Hnd, Hkeys.
    apply NoDup_cons in Hnd as [Hk Hnd].
    apply Forall_cons in Hkeys as [Hkey Hkeys].
    cbn [foldl]. rewrite (IH Hnd Hkeys). rewrite list_to_map_cons.
    destruct (decide (k = d)) as [<-|Hne].
    + rewrite lookup_insert_eq.
      rewrite (not_elem_of_list_to_map_1 l k Hk).
      unfold load_file, fs_call. rewrite Hok, Hkey.
      destruct e as [s|]; [|reflexivity].
      destruct (isSessionValid now s).
      * cbn. rewrite lookup_insert_eq. reflexivity.
      * cbn. rewrite Hok. cbn. rewrite lookup_delete_eq. reflexivity.
    + rewrite lookup_insert_ne by exact Hne.
      assert (Hsame : sessions (load_file fails now st (k, e)) !! d = sessions st !! d
                      /\ disk (load_file fails now st (k, e)) !! d = disk st !! d).
      { unfold load_file, fs_call. rewrite Hok, Hkey.
        destruct e as [s|]; [|split; reflexivity].
        destruct (isSessionValid now s); cbn.
        - split; [apply lookup_insert_ne; exact Hne | reflexivity].
        - rewrite Hok. cbn. split; [reflexivity | apply lookup_delete_ne; exact Hne]. }
      destruct Hsame as [-> ->]. reflexivity.
Qed.

(** X2.  With a file system that answers every call, [initialize] on a
    manager not yet initialised, over a directory in which every file is
    named [<domain>.json] for a [domain] that [file.replace('.json', '')]
    gives back, loads exactly the files that hold a valid session,
    deletes the files of expired sessions and steps over corrupt files,
    which stay in place and keep nothing else from loading. *)
Theorem initialize_loads_valid_sessions fails now st :
  initialized st = false ->
  (forall k, fails k = false) ->
  (forall name, is_Some (disk st !! name) -> domainOfFile (fileName name) = name) ->
  exists st1,
    initialize fails now st = Ok st1
    /\ initialized st1 = true
    /\ forall d,
         match disk st !! d with
         | Some (Parsed s) =>
             if isSessionValid now s
             then sessions st1 !! d = Some s /\ disk st1 !! d = Some (Parsed s)
             else sessions st1 !! d = sessions st !! d /\ disk st1 !! d = None
         | Some Corrupt =>
             sessions st1 !! d = sessions st !! d /\ disk st1 !! d = Some Corrupt
         | None => sessions st1 !! d = sessions st !! d /\ disk st1 !! d = None
         end.
Proof.
  intros Hi Hok Hnames. unfold initialize. rewrite Hi. cbn. rewrite !Hok.
  eexists. split; [reflexivity|]. split; [reflexivity|].
  intros d. cbn [sessions disk set_initialized].
  assert (Hkeys : Forall (fun name => domainOfFile (fileName name) = name)
                         ((map_to_list (disk st)).*1)).
  { apply Forall_forall. intros name Hin.
    apply list_elem_of_fmap in Hin as ([name' e] & -> & Hin).
    apply elem_of_map_to_list in Hin. apply Hnames. cbn. eauto. }
  match goal with
  | |- context [foldl (load_file fails now) ?st2 ?l] =>
      pose proof (foldl_load_file fails now l Hok (NoDup_fst_map_to_list _)
                    Hkeys st2 d) as H
  end.
  rewrite list_to_map_to_list in H. cbn [disk sessions] in H.
  destruct (disk st !! d) as [[s|]|] eqn:Hd.
  - destruct (isSessionValid now s); injection H as -> ->; auto.
  - injection H as -> ->. auto.
  - injection H as -> ->. auto.
Qed.

Lemma mixedStore_names name :
  is_Some (disk mixedStore !! name) -> domainOfFile (fileName name) = name.
Proof.
  unfold mixedStore. cbn [disk]. intros [e He].
  destruct (decide (name = "a")) as [->|Ha]; [reflexivity|].
  destruct (decide (name = "b")) as [->|Hb]; [reflexivity|].
  destruct (decide (name = "x")) as [->|Hx]; [reflexivity|].
  rewrite !lookup_insert_ne in He by congruence.
  rewrite lookup_singleton_ne in He by congruence. discriminate.
Qed.

Lemma initialize_loads_valid_sessions_witness :
  exists st1,
    initialize diskHealthy (25 * hour) mixedStore = Ok st1
    /\ initialized st1 = true
    /\ forall d,
         match disk mixedStore !! d with
         | Some (Parsed s) =>
             if isSessionValid (25 * hour) s
             then sessions st1 !! d = Some s /\ disk st1 !! d = Some (Parsed s)
             else sessions st1 !! d = sessions mixedStore !! d /\ disk st1 !! d = None
         | Some Corrupt =>
             sessions st1 !! d = sessions mixedStore !! d /\ disk st1 !! d = Some Corrupt
         | None => sessions st1 !! d = sessions mixedStore !! d /\ disk st1 !! d = None
         end.
Proof.
  apply (initialize_loads_valid_sessions diskHealthy (25 * hour) mixedStore);
    [reflexivity | reflexivity | exact mixedStore_names].
Defined.

(** A file whose name holds [.json] before its extension is stored under
    another key than its domain: [api.json.org.json] is loaded as
    [api.org.json], and [getSession] for [api.json.org] serves nothing. *)
Example initialize_rekeys_inner_extension :
  exists st1,
    initialize diskHealthy hour
      (mkStore ∅ false {[ "api.json.org" := Parsed staleSession ]} 0) = Ok st1
    /\ sessions st1 !! "api.org.json" = Some staleSession
    /\ sessions st1 !! "api.json.org" = None
    /\ getSession diskHealthy hour "api.json.org" st1 = Ok (None, st1).
Proof.
  eexists. split; [vm_compute; reflexivity|].
  repeat split; vm_compute; reflexivity.
Qed.

(** X3.  When the sessions directory cannot be created or listed, an
    uninitialised manager does not report failure by a return value:
    [initialize] throws, and so do [saveSession], [getSession],
    [clearSession] and [clearAllSessions], which await it outside their
    [try] blocks. *)
Theorem initialization_failure_propagates fails now domain cks extra st :
  initialized st = false ->
  fails (io st) = true \/ fails (S (io st)) = true ->
  exists m,
    initialize fails now st = Throw m
    /\ saveSession fails now domain cks extra st = Throw m
    /\ getSession fails now domain st = Throw m
    /\ clearSession fails now domain st = Throw m
    /\ clearAllSessions fails now st = Throw m.
Proof.
  intros Hi Hf.
  assert (Hthrow : exists m, initialize fails now st = Throw m).
  { unfold initialize. rewrite Hi. cbn.
    destruct (fails (io st)); [eauto|].
    destruct Hf as [Hf|Hf]; [discriminate | rewrite Hf; eauto]. }
  destruct Hthrow as (m & Hm). exists m.
  unfold saveSession, getSession, clearSession, clearAllSessions.
  rewrite Hm. repeat split; reflexivity.
Qed.

Lemma initialization_failure_propagates_witness :
  exists m,
    initialize diskBroken 0 mixedStore = Throw m
    /\ saveSession diskBroken 0 "a" ["sid=3"] [] mixedStore = Throw m
    /\ getSession diskBroken 0 "a" mixedStore = Throw m
    /\ clearSession diskBroken 0 "a" mixedStore = Throw m
    /\ clearAllSessions diskBroken 0 mixedStore = Throw m.
Proof.
  apply (initialization_failure_propagates diskBroken 0 "a" ["sid=3"] [] mixedStore).
  - reflexivity.
  - left. reflexivity.
Defined.

(** X4.  For a domain that is not a property name of [Object.prototype],
    [clearSession] removes the record from the map, whatever happens to
    the file: [getSession] answers none afterwards and the other domains
    keep their records and files.  It answers false only with the file
    still on disk, and with a file system that answers its calls it
    answers true and the file is gone. *)
Theorem clearSession_forgets fails now domain st st1 :
  domain ∉ objectPrototypeKeys ->
  initialize fails now st = Ok st1 ->
  exists b st',
    clearSession fails now domain st = Ok (b, st')
    /\ sessions st' !! domain = None
    /\ (forall now', getSession fails now' domain st' = Ok (None, st'))
    /\ (forall other, other <> domain ->
         sessions st' !! other = sessions st1 !! other
         /\ disk st' !! other = disk st1 !! other)
    /\ (b = false -> is_Some (disk st' !! domain))
    /\ (fails (io st1) = false -> fails (S (io st1)) = false ->
        b = true /\ disk st' !! domain = None).
Proof.
  intros Hkey Hinit.
  assert (Hdel : forall m : gmap string Session,
            deleteSession domain m = delete domain m).
  { intros m. unfold deleteSession.
    destruct (decide (domain = "__proto__")) as [->|]; [|reflexivity].
    exfalso. apply Hkey. apply list_elem_of_here. }
  pose proof (initialize_initialized _ _ _ _ Hinit) as Hi1.
  unfold clearSession. rewrite Hinit, Hdel. cbn.
  assert (Hget : forall st',
            initialized st' = true -> sessions st' !! domain = None ->
            forall now', getSession fails now' domain st' = Ok (None, st')).
  { intros st' Hi' Hs' now'. unfold getSession.
    rewrite initialize_idle by exact Hi'. rewrite Hs'. reflexivity. }
  destruct (fails (io st1)) eqn:Hacc; cbn.
  - eexists _, _. split; [reflexivity|]. cbn.
    split; [apply lookup_delete_eq|].
    split; [apply Hget; [exact Hi1 | apply lookup_delete_eq]|].
    split; [intros other Hne; split; [apply lookup_delete_ne; congruence | reflexivity]|].
    split; discriminate.
  - destruct (bool_decide (is_Some (disk st1 !! domain))) eqn:Hex; cbn.
    + apply bool_decide_eq_true in Hex.
      destruct (fails (S (io st1))) eqn:Hunl.
      * eexists _, _. split; [reflexivity|]. cbn.
        split; [apply lookup_delete_eq|].
        split; [apply Hget; [exact Hi1 | apply lookup_delete_eq]|].
        split; [intros other Hne; split;
                [apply lookup_delete_ne; congruence | reflexivity]|].
        split; [intros _; exact Hex | discriminate].
      * eexists _, _. split; [reflexivity|]. cbn.
        split; [apply lookup_delete_eq|].
        split; [apply Hget; [exact Hi1 | apply lookup_delete_eq]|].
        split; [intros other Hne; split; apply lookup_delete_ne; congruence|].
        split; [discriminate|].
        intros _ _. split; [reflexivity | apply lookup_delete_eq].
    + apply bool_decide_eq_false in Hex.
      eexists _, _. split; [reflexivity|]. cbn.
      split; [apply lookup_delete_eq|].
      split; [apply Hget; [exact Hi1 | apply lookup_delete_eq]|].
      split; [intros other Hne; split;
              [apply lookup_delete_ne; congruence | reflexivity]|].
      split; [discriminate|].
      intros _ _. split; [reflexivity|].
      destruct (disk st1 !! domain) eqn:Hd; [|reflexivity].
      exfalso. apply Hex. eauto.
Qed.

Lemma clearSession_forgets_witness :
  exists b st',
    clearSession diskHealthy hour "x" staleStore = Ok (b, st')
    /\ sessions st' !! "x" = None
    /\ (forall now', getSession diskHealthy now' "x" st' = Ok (None, st'))
    /\ (forall other, other <> "x" ->
         sessions st' !! other = sessions staleStore !! other
         /\ disk st' !! other = disk staleStore !! other)
    /\ (b = false -> is_Some (disk st' !! "x"))
    /\ (diskHealthy (io staleStore) = false -> diskHealthy (S (io staleStore)) = false ->
        b = true /\ disk st' !! "x" = None).
Proof.
  apply (clearSession_forgets diskHealthy hour "x" staleStore staleStore).
  - apply (bool_decide_unpack _). reflexivity.
  - reflexivity.
Defined.

(** The table key [__proto__] is the exception: [delete] does not reach
    the prototype slot, so the record set through it is still served
    after [clearSession] has answered true. *)
Example clearSession_keeps_proto :
  exists st',
    clearSession diskHealthy hour "__proto__"
      (mkStore {[ "__proto__" := freshSession ]} true ∅ 0) = Ok (true, st')
    /\ getSession diskHealthy (25 * hour) "__proto__" st' = Ok (Some freshSession, st').
Proof.
  eexists. split; [vm_compute; reflexivity|]. vm_compute. reflexivity.
Qed.

Lemma unlinkAll_spec fails (l : list (string * FileEntry)) st b st' :
  unlinkAll fails l st = (b, st') ->
  sessions st' = sessions st
  /\ initialized st' = initialized st
  /\ (b = true ->
      forall d, disk st' !! d = if decide (d ∈ l.*1) then None else disk st !! d).
Proof.
  revert st. induction l as [|[k e] l IH]; intros st; cbn [unlinkAll].
  - intros [= <- <-]. split; [reflexivity|]. split; [reflexivity|]. intros _ d.
    destruct (decide (d ∈ ([] : list (string * FileEntry)).*1)) as [Hin|]; [|reflexivity].
    cbn in Hin. apply elem_of_nil in Hin. contradiction.
  - unfold fs_call. destruct (fails (io st)).
    + intros [= <- <-]. repeat split. discriminate.
    + intros Hrun. apply IH in Hrun as (Hs & Hi & Hd).
      split; [exact Hs|]. split; [exact Hi|].
      intros Hb d. rewrite (Hd Hb d). cbn [disk set_disk fmap list_fmap fst].
      destruct (decide (d ∈ l.*1)) as [Hin|Hnin].
      * rewrite decide_True by (apply elem_of_cons; auto). reflexivity.
      * destruct (decide (d = k)) as [->|Hne].
        -- rewrite decide_True by (apply elem_of_cons; auto). apply lookup_delete_eq.
        -- rewrite decide_False by (rewrite elem_of_cons; tauto).
           apply lookup_delete_ne. congruence.
Qed.



(** X6.  [applySessionToPage] answers true only when the manager serves
    a session for the domain, still within the validity window and with
    at least one cookie, and [page.setCookie] accepted those cookies; an
    expired or missing session leaves the page as it was. *)
Theorem applySessionToPage_true fails now domain setCookieFails page st page' st' :
  applySessionToPage fails now domain setCookieFails page st = Ok (true, page', st') ->
  exists session t,
    getSession fails now domain st = Ok (Some session, st')
    /\ timestamp session = Some t
    /\ now - t < sessionValidityWindow
    /\ cookies session <> []
    /\ page' = page ++ cookies session
    /\ setCookieFails = false.
Proof.
  unfold applySessionToPage.
  destruct (getSession fails now domain st) as [[[session|] st1]|m] eqn:Hget;
    try discriminate.
  destruct (length (cookies session) =? 0)%nat eqn:Hlen; [discriminate|].
  destruct setCookieFails; [discriminate|].
  intros [= <- <-].
  assert (Hvalid : exists t, timestamp session = Some t
                             /\ now - t < sessionValidityWindow).
  { revert Hget. unfold getSession.
    destruct (initialize fails now st) as [st2|]; [|discriminate].
    destruct (sessions st2 !! domain) as [s2|]; [|discriminate].
    destruct (isSessionValid now s2) eqn:Hv.
    - intros [= <- <-]. apply isSessionValid_spec, Hv.
    - cbn. destruct (fails (io st2)); discriminate. }
  destruct Hvalid as (t & Ht & Hlt).
  exists session, t. repeat split; try assumption; try reflexivity.
  intros Hnil. rewrite Hnil in Hlen. discriminate.
Qed.

Lemma applySessionToPage_true_witness :
  exists session t,
    getSession diskHealthy hour "x" staleStore = Ok (Some session, staleStore)
    /\ timestamp session = Some t
    /\ hour - t < sessionValidityWindow
    /\ cookies session <> []
    /\ ["lang=en"] ++ ["sid=1"] = ["lang=en"] ++ cookies session
    /\ false = false.
Proof.
  apply (applySessionToPage_true diskHealthy hour "x" false ["lang=en"] staleStore
           (["lang=en"] ++ ["sid=1"]) staleStore).
  reflexivity.
Defined.

End SessionManagerProofs.

Module TaskQueueProofs.
Import TaskQueue.

(** ** The sort *)

Lemma insertEntry_elem e l x : x ∈ insertEntry e l <-> x = e \/ x ∈ l.
Proof.
  induction l as [|y l IH]; cbn.
  - rewrite elem_of_cons. reflexivity.
  - destruct (priority y <=? priority e).
    + rewrite elem_of_cons. reflexivity.
    + rewrite !elem_of_cons, IH. tauto.
Qed.

Lemma sortQueue_elem l x : x ∈ sortQueue l <-> x ∈ l.
Proof.
  induction l as [|y l IH]; cbn; [reflexivity|].
  rewrite insertEntry_elem, elem_of_cons, IH. reflexivity.
Qed.

Lemma insertEntry_length e l : length (insertEntry e l) = S (length l).
Proof.
  induction l as [|y l IH]; cbn; [reflexivity|].
  destruct (priority y <=? priority e); cbn; [reflexivity | now rewrite IH].
Qed.

Lemma sortQueue_length l : length (sortQueue l) = length l.
Proof.
  induction l as [|y l IH]; cbn; [reflexivity|].
  now rewrite insertEntry_length, IH.
Qed.

Lemma insertEntry_descending e l : Descending l -> Descending (insertEntry e l).
Proof.
  unfold Descending. induction l as [|y l IH]; cbn; intros Hl.
  - constructor; constructor.
  - inversion Hl as [|? ? Hy Hl']; subst.
    destruct (priority y <=? priority e) eqn:Hc.
    + apply Z.leb_le in Hc. constructor; [|exact Hl].
      constructor; [exact Hc|].
      rewrite Forall_forall in Hy |- *. intros x Hx. specialize (Hy x Hx). lia.
    + apply Z.leb_gt in Hc. constructor; [|apply IH; exact Hl'].
      rewrite Forall_forall in Hy |- *. intros x Hx.
      apply insertEntry_elem in Hx as [-> | Hx]; [lia | apply Hy, Hx].
Qed.

Lemma sortQueue_descending l : Descending (sortQueue l).
Proof.
  induction l as [|y l IH]; cbn; [constructor|].
  apply insertEntry_descending, IH.
Qed.

Lemma insertEntry_tieOrdered e l :
  Forall (fun y => priority e = priority y -> (ticket e < ticket y)%nat) l ->
  TieOrdered l -> TieOrdered (insertEntry e l).
Proof.
  unfold TieOrdered. induction l as [|y l IH]; cbn; intros He Hl.
  - constructor; constructor.
  - inversion Hl as [|? ? Hy Hl']; subst.
    inversion He as [|? ? Hey He']; subst.
    destruct (priority y <=? priority e) eqn:Hc.
    + constructor; [exact He | exact Hl].
    + apply Z.leb_gt in Hc. constructor; [|apply IH; assumption].
      rewrite Forall_forall in Hy |- *. intros x Hx.
      apply insertEntry_elem in Hx as [-> | Hx]; [lia | apply Hy, Hx].
Qed.

Lemma sortQueue_tieOrdered l : TieOrdered l -> TieOrdered (sortQueue l).
Proof.
  unfold TieOrdered. induction l as [|y l IH]; cbn; intros Hl; [constructor|].
  inversion Hl as [|? ? Hy Hl']; subst.
  apply insertEntry_tieOrdered; [|apply IH, Hl'].
  rewrite Forall_forall in Hy |- *. intros x Hx. apply Hy, sortQueue_elem, Hx.
Qed.

Lemma tieOrdered_tail e l : TieOrdered (e :: l) -> TieOrdered l.
Proof. unfold TieOrdered. inversion 1; assumption. Qed.

Lemma tieOrdered_snoc l e :
  TieOrdered l -> Forall (fun x => (ticket x < ticket e)%nat) l ->
  TieOrdered (l ++ [e]).
Proof.
  unfold TieOrdered. induction l as [|y l IH]; cbn; intros Hl Hf.
  - constructor; constructor.
  - inversion Hl as [|? ? Hy Hl']; subst.
    inversion Hf as [|? ? Hye Hf']; subst.
    constructor; [|apply IH; assumption].
    apply Forall_app. split; [exact Hy|].
    constructor; [intros _; exact Hye | constructor].
Qed.

(** The first entry of the sorted queue has the best claim. *)
Lemma sortQueue_head_best l e rest :
  TieOrdered l -> sortQueue l = e :: rest -> Best e l.
Proof.
  intros Ht Hs.
  pose proof (sortQueue_descending l) as Hd.
  pose proof (sortQueue_tieOrdered l Ht) as Ho.
  rewrite Hs in Hd, Ho.
  inversion Hd as [|? ? Hd1 _]; subst.
  inversion Ho as [|? ? Ho1 _]; subst.
  rewrite Forall_forall in Hd1, Ho1.
  split.
  - apply sortQueue_elem. rewrite Hs. apply elem_of_cons. now left.
  - intros x Hx. apply sortQueue_elem in Hx. rewrite Hs in Hx.
    apply elem_of_cons in Hx as [-> | Hx].
    + split; [lia | intros _; lia].
    + split; [apply Hd1, Hx|].
      intros Heq. specialize (Ho1 x Hx (eq_sym Heq)). lia.
Qed.

(** ** Invariants of the queue *)

Lemma startFirst_concurrency now q : concurrency (startFirst now q) = concurrency q.
Proof. unfold startFirst. destruct (sortQueue (queue q)); reflexivity. Qed.

Lemma startFirst_results now q : results (startFirst now q) = results q.
Proof. unfold startFirst. destruct (sortQueue (queue q)); reflexivity. Qed.

Lemma startFirst_inv now q :
  Inv q -> running q < concurrency q -> Inv (startFirst now q).
Proof.
  intros [Hc Hb Ht Hf] Hlt. unfold startFirst.
  destruct (sortQueue (queue q)) as [|e rest] eqn:Hs; [now constructor|].
  constructor; cbn.
  - rewrite length_app. cbn. lia.
  - lia.
  - apply (tieOrdered_tail e). rewrite <- Hs. apply sortQueue_tieOrdered, Ht.
  - rewrite Forall_forall in Hf |- *. intros x Hx. apply Hf.
    apply sortQueue_elem. rewrite Hs. apply elem_of_cons. now right.
Qed.

Lemma startFirst_queue_length now q :
  queue q <> [] -> S (length (queue (startFirst now q))) = length (queue q).
Proof.
  intros Hne. unfold startFirst.
  pose proof (sortQueue_length (queue q)) as Hl.
  destruct (sortQueue (queue q)) as [|e rest]; cbn in *.
  - destruct (queue q); [congruence | discriminate].
  - exact Hl.
Qed.

Lemma length_zero_nil {A} (l : list A) : (length l =? 0)%nat = true <-> l = [].
Proof. rewrite Nat.eqb_eq. destruct l; cbn; split; congruence. Qed.

Lemma runNext_fuel_concurrency n now q :
  concurrency (runNext_fuel n now q) = concurrency q.
Proof.
  revert q. induction n as [|n IH]; intros q; cbn; [reflexivity|].
  destruct ((concurrency q <=? running q) || (length (queue q) =? 0)%nat);
    [reflexivity|].
  destruct (running (startFirst now q) <? concurrency (startFirst now q)).
  - rewrite IH. apply startFirst_concurrency.
  - apply startFirst_concurrency.
Qed.

Lemma runNext_fuel_results n now q : results (runNext_fuel n now q) = results q.
Proof.
  revert q. induction n as [|n IH]; intros q; cbn; [reflexivity|].
  destruct ((concurrency q <=? running q) || (length (queue q) =? 0)%nat);
    [reflexivity|].
  destruct (running (startFirst now q) <? concurrency (startFirst now q)).
  - rewrite IH. apply startFirst_results.
  - apply startFirst_results.
Qed.

Lemma runNext_fuel_inv n now q : Inv q -> Inv (runNext_fuel n now q).
Proof.
  revert q. induction n as [|n IH]; intros q Hq; cbn; [exact Hq|].
  destruct ((concurrency q <=? running q) || (length (queue q) =? 0)%nat) eqn:Hg;
    [exact Hq|].
  apply orb_false_iff in Hg as [Hg _]. apply Z.leb_gt in Hg.
  pose proof (startFirst_inv now q Hq Hg) as Hq'.
  destruct (running (startFirst now q) <? concurrency (startFirst now q));
    [apply IH, Hq' | exact Hq'].
Qed.

(** The fuel given by [runNext] is enough: the recursion stops at its own
    guard, with every slot taken or the queue empty. *)
Lemma runNext_fuel_saturated n now q :
  (length (queue q) <= n)%nat -> Saturated (runNext_fuel n now q).
Proof.
  unfold Saturated.
  revert q. induction n as [|n IH]; intros q Hn; cbn.
  - intros _. destruct (queue q); [reflexivity | cbn in Hn; lia].
  - destruct ((concurrency q <=? running q) || (length (queue q) =? 0)%nat) eqn:Hg.
    + apply orb_true_iff in Hg as [Hg | Hg].
      * apply Z.leb_le in Hg. lia.
      * intros _. apply length_zero_nil, Hg.
    + apply orb_false_iff in Hg as [_ Hg].
      assert (Hne : queue q <> []).
      { intros Hnil. apply length_zero_nil in Hnil. congruence. }
      pose proof (startFirst_queue_length now q Hne) as Hl.
      destruct (running (startFirst now q) <? concurrency (startFirst now q)) eqn:Hr.
      * apply IH. lia.
      * apply Z.ltb_ge in Hr. lia.
Qed.

Lemma runNext_fuel_more n m now q :
  (length (queue q) <= n)%nat -> (n <= m)%nat ->
  runNext_fuel m now q = runNext_fuel n now q.
Proof.
  revert m q. induction n as [|n IH]; intros m q Hn Hm.
  - assert (Hnil : queue q = []) by (destruct (queue q); [reflexivity | cbn in Hn; lia]).
    destruct m; cbn; [reflexivity|].
    rewrite Hnil. cbn. rewrite orb_true_r. reflexivity.
  - destruct m as [|m]; [lia|]. cbn.
    destruct ((concurrency q <=? running q) || (length (queue q) =? 0)%nat) eqn:Hg;
      [reflexivity|].
    apply orb_false_iff in Hg as [_ Hg].
    assert (Hne : queue q <> []).
    { intros Hnil. apply length_zero_nil in Hnil. congruence. }
    pose proof (startFirst_queue_length now q Hne) as Hl.
    destruct (running (startFirst now q) <? concurrency (startFirst now q));
      [apply IH; lia | reflexivity].
Qed.

Lemma runNext_inv now q : Inv q -> Inv (runNext now q).
Proof. apply runNext_fuel_inv. Qed.

Lemma runNext_saturated now q : Saturated (runNext now q).
Proof. apply runNext_fuel_saturated. lia. Qed.

Lemma take_length t l s others :
  take t l = Some (s, others) -> length l = S (length others).
Proof.
  revert s others. induction l as [|x l IH]; cbn; intros s others; [discriminate|].
  destruct (ticket (entry x) =? t)%nat.
  - intros [= <- <-]. reflexivity.
  - destruct (take t l) as [[s' l'']|]; [|discriminate].
    intros [= <- <-]. cbn. f_equal. eapply IH. reflexivity.
Qed.

Lemma create_inv c cb : Inv (create c cb).
Proof.
  unfold create. constructor; cbn; [reflexivity | lia | constructor | constructor].
Qed.

Lemma create_saturated c cb : Saturated (create c cb).
Proof. intros _. reflexivity. Qed.

Lemma add_inv name prio now q : Inv q -> Inv (add name prio now q).
Proof.
  intros [Hc Hb Ht Hf]. unfold add. apply runNext_inv. constructor; cbn.
  - exact Hc.
  - exact Hb.
  - apply tieOrdered_snoc; [exact Ht | exact Hf].
  - apply Forall_app. split.
    + eapply Forall_impl; [exact Hf|]. cbn. intros x Hx. lia.
    + constructor; [cbn; lia | constructor].
Qed.

Lemma settle_inv t outcome now q : Inv q -> Inv (settle t outcome now q).
Proof.
  intros Hq. unfold settle.
  destruct (take t (active q)) as [[s others]|] eqn:Htake; [|exact Hq].
  destruct Hq as [Hc Hb Ht Hf].
  pose proof (take_length _ _ _ _ Htake) as Hlen.
  match goal with
  | |- context [runNext now ?q1] =>
      assert (Hq1 : Inv q1) by (constructor; cbn; [lia | lia | exact Ht | exact Hf]);
      pose proof (runNext_inv now q1 Hq1) as [Hc2 Hb2 Ht2 Hf2];
      destruct ((length (queue (runNext now q1)) =? 0)%nat
                && (running (runNext now q1) =? 0)
                && onComplete (runNext now q1))
  end; constructor; cbn; assumption.
Qed.

Lemma settle_saturated t outcome now q :
  Saturated q -> Saturated (settle t outcome now q).
Proof.
  intros Hq. unfold settle.
  destruct (take t (active q)) as [[s others]|]; [|exact Hq].
  match goal with
  | |- context [runNext now ?q1] =>
      pose proof (runNext_saturated now q1) as Hs;
      destruct ((length (queue (runNext now q1)) =? 0)%nat
                && (running (runNext now q1) =? 0)
                && onComplete (runNext now q1))
  end; exact Hs.
Qed.

Lemma step_concurrency q ev : concurrency (step q ev) = concurrency q.
Proof.
  destruct ev as [name prio now | t outcome now]; cbn.
  - unfold add, runNext. now rewrite runNext_fuel_concurrency.
  - unfold settle. destruct (take t (active q)) as [[s others]|]; [|reflexivity].
    match goal with
    | |- context [runNext now ?q1] =>
        destruct ((length (queue (runNext now q1)) =? 0)%nat
                  && (running (runNext now q1) =? 0)
                  && onComplete (runNext now q1))
    end; cbn; unfold runNext; now rewrite runNext_fuel_concurrency.
Qed.

Lemma run_snoc q evs ev : run q (evs ++ [ev]) = step (run q evs) ev.
Proof. unfold run. now rewrite foldl_app. Qed.

Lemma run_concurrency q evs : concurrency (run q evs) = concurrency q.
Proof.
  induction evs as [|ev evs IH] using rev_ind; [reflexivity|].
  now rewrite run_snoc, step_concurrency.
Qed.

Lemma run_inv q evs : Inv q -> Inv (run q evs).
Proof.
  intros Hq. induction evs as [|ev evs IH] using rev_ind; [exact Hq|].
  rewrite run_snoc. destruct ev; cbn; [apply add_inv | apply settle_inv]; exact IH.
Qed.

Lemma run_saturated q evs : Saturated q -> Saturated (run q evs).
Proof.
  intros Hq. induction evs as [|ev evs IH] using rev_ind; [exact Hq|].
  rewrite run_snoc. destruct ev; unfold step.
  - unfold add. apply runNext_saturated.
  - apply settle_saturated, IH.
Qed.

(** ** Concurrency bound *)



(** ** Priority scheduling *)

Lemma sortQueue_nil_inv l : sortQueue l = [] -> l = [].
Proof.
  intros H. pose proof (sortQueue_length l) as Hl. rewrite H in Hl.
  destruct l; [reflexivity | discriminate].
Qed.

Lemma runNext_start now q e rest :
  running q < concurrency q ->
  sortQueue (queue q) = e :: rest ->
  concurrency q <= running q + 1 ->
  runNext now q
  = mkQueue (concurrency q) (running q + 1) rest (results q) (onComplete q)
            (active q ++ [mkStarted e now]) (tickets q) (notified q).
Proof.
  intros Hfree Hs Hfull. unfold runNext.
  destruct (length (queue q)) as [|n] eqn:Hn.
  - destruct (queue q); [discriminate Hs | discriminate Hn].
  - cbn [runNext_fuel]. rewrite Hn.
    replace (concurrency q <=? running q) with false
      by (symmetry; apply Z.leb_gt; lia).
    cbn [orb Nat.eqb]. unfold startFirst. rewrite Hs. cbn [concurrency running].
    replace (running q + 1 <? concurrency q) with false
      by (symmetry; apply Z.ltb_ge; lia).
    reflexivity.
Qed.



(** ** Accounting of tasks *)

Lemma insertEntry_perm e l : insertEntry e l ≡ₚ e :: l.
Proof.
  induction l as [|x l IH]; cbn; [reflexivity|].
  destruct (priority x <=? priority e); [reflexivity|].
  rewrite IH. apply perm_swap.
Qed.

Lemma sortQueue_perm l : sortQueue l ≡ₚ l.
Proof.
  induction l as [|x l IH]; cbn; [reflexivity|].
  rewrite insertEntry_perm, IH. reflexivity.
Qed.

Lemma startFirst_tickets now q : tickets (startFirst now q) = tickets q.
Proof. unfold startFirst. destruct (sortQueue (queue q)); reflexivity. Qed.

Lemma startFirst_notified now q : notified (startFirst now q) = notified q.
Proof. unfold startFirst. destruct (sortQueue (queue q)); reflexivity. Qed.

Lemma startFirst_pending now q :
  pendingTickets (startFirst now q) ≡ₚ pendingTickets q.
Proof.
  unfold startFirst, pendingTickets.
  pose proof (sortQueue_perm (queue q)) as Hp.
  destruct (sortQueue (queue q)) as [|e rest]; [reflexivity|].
  cbn [queue active]. rewrite <- Hp, fmap_app. cbn [fmap list_fmap entry].
  rewrite (Permutation_app_comm _ [ticket e]). cbn.
  rewrite Permutation_middle. reflexivity.
Qed.

Lemma startFirst_tracked now q : Tracked q -> Tracked (startFirst now q).
Proof.
  intros [Hc Hn Hf]. split.
  - unfold startFirst. pose proof (sortQueue_length (queue q)) as Hl.
    destruct (sortQueue (queue q)) as [|e rest]; [exact Hc|].
    cbn [tickets results active queue]. rewrite length_app. cbn in Hl |- *. lia.
  - rewrite startFirst_pending. exact Hn.
  - rewrite startFirst_pending, startFirst_tickets. exact Hf.
Qed.

Lemma runNext_fuel_tracked n now q : Tracked q -> Tracked (runNext_fuel n now q).
Proof.
  revert q. induction n as [|n IH]; intros q Hq; cbn [runNext_fuel]; [exact Hq|].
  destruct ((concurrency q <=? running q) || (length (queue q) =? 0)%nat); [exact Hq|].
  cbv zeta.
  destruct (running (startFirst now q) <? concurrency (startFirst now q)).
  - apply IH, startFirst_tracked, Hq.
  - apply startFirst_tracked, Hq.
Qed.

Lemma runNext_fuel_notified n now q : notified (runNext_fuel n now q) = notified q.
Proof.
  revert q. induction n as [|n IH]; intros q; cbn [runNext_fuel]; [reflexivity|].
  destruct ((concurrency q <=? running q) || (length (queue q) =? 0)%nat); [reflexivity|].
  cbv zeta.
  destruct (running (startFirst now q) <? concurrency (startFirst now q)).
  - rewrite IH. apply startFirst_notified.
  - apply startFirst_notified.
Qed.

Lemma runNext_fuel_onComplete n now q :
  onComplete (runNext_fuel n now q) = onComplete q.
Proof.
  revert q. induction n as [|n IH]; intros q; cbn [runNext_fuel]; [reflexivity|].
  destruct ((concurrency q <=? running q) || (length (queue q) =? 0)%nat); [reflexivity|].
  cbv zeta.
  assert (Hs : onComplete (startFirst now q) = onComplete q).
  { unfold startFirst. destruct (sortQueue (queue q)); reflexivity. }
  destruct (running (startFirst now q) <? concurrency (startFirst now q));
    [rewrite IH|]; exact Hs.
Qed.

Lemma create_tracked c cb : Tracked (create c cb).
Proof.
  split; cbn.
  - reflexivity.
  - apply NoDup_nil_2.
  - apply Forall_nil_2.
Qed.

Lemma add_tracked name prio now q : Tracked q -> Tracked (add name prio now q).
Proof.
  intros [Hc Hn Hf]. unfold add, runNext. apply runNext_fuel_tracked.
  assert (Hp : forall rs oc nt,
             pendingTickets
               (mkQueue (concurrency q) (running q)
                        (queue q ++ [mkEntry name prio (tickets q)]) rs oc (active q)
                        (S (tickets q)) nt)
             ≡ₚ tickets q :: pendingTickets q).
  { intros. unfold pendingTickets. cbn [queue active].
    rewrite fmap_app. cbn [fmap list_fmap ticket].
    rewrite <- (assoc_L (++)). rewrite (Permutation_app_comm [tickets q]).
    rewrite (assoc_L (++)). rewrite Permutation_app_comm. reflexivity. }
  split.
  - cbn [tickets results active queue]. rewrite length_app. cbn. lia.
  - rewrite Hp. apply NoDup_cons. split; [|exact Hn].
    intros Hin. rewrite Forall_forall in Hf. apply Hf in Hin. lia.
  - rewrite Hp. cbn [tickets]. apply Forall_cons. split; [lia|].
    eapply Forall_impl; [exact Hf|]. cbn. intros; lia.
Qed.

Lemma take_perm t l s others : take t l = Some (s, others) -> l ≡ₚ s :: others.
Proof.
  revert s others. induction l as [|x l IH]; intros s others; cbn; [discriminate|].
  destruct (ticket (entry x) =? t)%nat.
  - intros [= <- <-]. reflexivity.
  - destruct (take t l) as [[s' l'']|]; [|discriminate].
    intros [= <- <-]. rewrite (IH s' l'' eq_refl). apply perm_swap.
Qed.

Lemma settle_tracked t outcome now q : Tracked q -> Tracked (settle t outcome now q).
Proof.
  intros [Hc Hn Hf]. unfold settle.
  destruct (take t (active q)) as [[s others]|] eqn:Ht; [|split; assumption].
  pose proof (take_perm _ _ _ _ Ht) as Hp.
  pose proof (take_length _ _ _ _ Ht) as Hl.
  cbv zeta.
  set (q1 := mkQueue (concurrency q) (running q - 1) (queue q)
                     (results q ++ [outcomeOf s outcome now]) (onComplete q)
                     others (tickets q) (notified q)).
  assert (Hsub : pendingTickets q ≡ₚ ticket (entry s) :: pendingTickets q1).
  { unfold pendingTickets. cbn [queue active q1]. rewrite Hp. cbn [fmap list_fmap].
    rewrite <- Permutation_middle. reflexivity. }
  assert (Hq1 : Tracked q1).
  { split.
    - cbn [tickets results active queue q1]. rewrite length_app. cbn. lia.
    - rewrite Hsub in Hn. apply NoDup_cons in Hn. tauto.
    - rewrite Hsub in Hf. apply Forall_cons in Hf. tauto. }
  pose proof (runNext_fuel_tracked (length (queue q1)) now q1 Hq1) as Hq2.
  fold (runNext now q1) in Hq2.
  match goal with |- Tracked (if ?c then _ else _) => destruct c end;
    [|exact Hq2].
  destruct Hq2 as [Hc1 Hn1 Hf1]. split; assumption.
Qed.

Lemma run_tracked q evs : Tracked q -> Tracked (run q evs).
Proof.
  revert q. induction evs as [|ev evs IH]; intros q Hq; [exact Hq|].
  cbn. apply IH. destruct ev; [apply add_tracked | apply settle_tracked]; exact Hq.
Qed.

(** ** Accounting between the handlers *)

Lemma take_ticket t l s others :
  take t l = Some (s, others) -> ticket (entry s) = t.
Proof.
  revert s others. induction l as [|x l IH]; intros s others; cbn; [discriminate|].
  destruct (ticket (entry x) =? t)%nat eqn:Hx.
  - intros [= <- <-]. apply Nat.eqb_eq, Hx.
  - destruct (take t l) as [[s' l'']|]; [|discriminate].
    intros [= <- <-]. apply (IH s' l'' eq_refl).
Qed.

(** The jobs run back to back are [settle]. *)
Lemma settle_fulfil_release t outcome now q :
  state (release t now (fulfil t outcome now (mkHandlers q []))) = settle t outcome now q
  /\ releasing (release t now (fulfil t outcome now (mkHandlers q []))) = [].
Proof.
  unfold fulfil, settle. cbn [state releasing].
  destruct (take t (active q)) as [[s others]|] eqn:Ht.
  - unfold release. cbn [state releasing app take].
    rewrite (take_ticket _ _ _ _ Ht), Nat.eqb_refl.
    cbn [state releasing running queue results onComplete active tickets notified
         concurrency]. split; reflexivity.
  - unfold release. cbn [state releasing take]. split; reflexivity.
Qed.

Lemma startFirst_surplus now q : surplus (startFirst now q) = surplus q.
Proof.
  unfold startFirst, surplus. destruct (sortQueue (queue q)); [reflexivity|].
  cbn [running active]. rewrite length_app. cbn. lia.
Qed.

Lemma runNext_fuel_surplus n now q : surplus (runNext_fuel n now q) = surplus q.
Proof.
  revert q. induction n as [|n IH]; intros q; cbn [runNext_fuel]; [reflexivity|].
  destruct ((concurrency q <=? running q) || (length (queue q) =? 0)%nat); [reflexivity|].
  cbv zeta.
  destruct (running (startFirst now q) <? concurrency (startFirst now q));
    [rewrite IH|]; apply startFirst_surplus.
Qed.

Lemma runNext_fuel_pending n now q :
  pendingTickets (runNext_fuel n now q) ≡ₚ pendingTickets q.
Proof.
  revert q. induction n as [|n IH]; intros q; cbn [runNext_fuel]; [reflexivity|].
  destruct ((concurrency q <=? running q) || (length (queue q) =? 0)%nat); [reflexivity|].
  cbv zeta.
  destruct (running (startFirst now q) <? concurrency (startFirst now q));
    [rewrite IH|]; apply startFirst_pending.
Qed.

Lemma runNext_fuel_tickets n now q : tickets (runNext_fuel n now q) = tickets q.
Proof.
  revert q. induction n as [|n IH]; intros q; cbn [runNext_fuel]; [reflexivity|].
  destruct ((concurrency q <=? running q) || (length (queue q) =? 0)%nat); [reflexivity|].
  cbv zeta.
  destruct (running (startFirst now q) <? concurrency (startFirst now q));
    [rewrite IH|]; apply startFirst_tickets.
Qed.

Lemma create_accounted c cb : Accounted (mkHandlers (create c cb) []).
Proof.
  split; cbn.
  - apply create_tracked.
  - reflexivity.
  - apply NoDup_nil_2.
  - apply Forall_nil_2.
Qed.

Lemma add_accounted name prio now h :
  Accounted h -> Accounted (job h (Adds name prio now)).
Proof.
  intros [Htr Hrun Hnd Hfr]. cbn [job].
  set (q0 := mkQueue (concurrency (state h)) (running (state h))
               (queue (state h) ++ [mkEntry name prio (tickets (state h))])
               (results (state h)) (onComplete (state h)) (active (state h))
               (S (tickets (state h))) (notified (state h))).
  assert (Hadd : add name prio now (state h) = runNext_fuel (length (queue q0)) now q0)
    by reflexivity.
  assert (Hp : pendingTickets q0 ≡ₚ tickets (state h) :: pendingTickets (state h)).
  { unfold pendingTickets. cbn [queue active q0].
    rewrite fmap_app. cbn [fmap list_fmap ticket].
    rewrite <- (assoc_L (++)). rewrite (Permutation_app_comm [tickets (state h)]).
    rewrite (assoc_L (++)). rewrite Permutation_app_comm. reflexivity. }
  split; cbn [state releasing].
  - apply add_tracked, Htr.
  - pose proof (runNext_fuel_surplus (length (queue q0)) now q0) as Hs.
    rewrite <- Hadd in Hs. unfold surplus in Hs. cbn [running active q0] in Hs.
    rewrite Nat2Z.inj_add in Hrun |- *. lia.
  - unfold inFlight. cbn [state releasing].
    rewrite Hadd, runNext_fuel_pending, Hp. cbn [app].
    apply NoDup_cons. split; [|exact Hnd].
    intros Hin. rewrite Forall_forall in Hfr. apply Hfr in Hin. lia.
  - unfold inFlight. cbn [state releasing].
    rewrite Hadd, runNext_fuel_pending, runNext_fuel_tickets, Hp. cbn [app tickets q0].
    apply Forall_cons. split; [lia|].
    eapply Forall_impl; [exact Hfr|]. cbn. intros; lia.
Qed.

Lemma fulfil_accounted t outcome now h :
  Accounted h -> Accounted (fulfil t outcome now h).
Proof.
  intros [[Hc Hn Hf] Hrun Hnd Hfr]. unfold fulfil.
  destruct (take t (active (state h))) as [[s others]|] eqn:Ht;
    [|split; [split|..]; assumption].
  pose proof (take_perm _ _ _ _ Ht) as Hp.
  pose proof (take_length _ _ _ _ Ht) as Hl.
  assert (Hfl : inFlight
                  (mkHandlers
                     (mkQueue (concurrency (state h)) (running (state h))
                        (queue (state h))
                        (results (state h) ++ [outcomeOf s outcome now])
                        (onComplete (state h)) others (tickets (state h))
                        (notified (state h)))
                     (releasing h ++ [s]))
                ≡ₚ inFlight h).
  { unfold inFlight, pendingTickets. cbn [state releasing queue active].
    rewrite Hp, fmap_app. cbn [fmap list_fmap].
    rewrite <- !(assoc_L (++)).
    apply Permutation_app_head.
    rewrite (Permutation_app_comm _ [ticket (entry s)]). cbn [app].
    rewrite Permutation_middle. reflexivity. }
  assert (Hsub : pendingTickets (state h)
                 ≡ₚ ticket (entry s)
                    :: pendingTickets
                         (mkQueue (concurrency (state h)) (running (state h))
                            (queue (state h))
                            (results (state h) ++ [outcomeOf s outcome now])
                            (onComplete (state h)) others (tickets (state h))
                            (notified (state h)))).
  { unfold pendingTickets. cbn [queue active]. rewrite Hp. cbn [fmap list_fmap].
    rewrite <- Permutation_middle. reflexivity. }
  split; cbn [state releasing].
  - split.
    + cbn [tickets results active queue]. rewrite length_app. cbn. lia.
    + rewrite Hsub in Hn. apply NoDup_cons in Hn. tauto.
    + rewrite Hsub in Hf. apply Forall_cons in Hf. tauto.
  - cbn [running active]. rewrite length_app. cbn [length]. lia.
  - rewrite Hfl. exact Hnd.
  - rewrite Hfl. cbn [tickets]. exact Hfr.
Qed.

Lemma release_accounted t now h : Accounted h -> Accounted (release t now h).
Proof.
  intros [Htr Hrun Hnd Hfr]. unfold release.
  destruct (take t (releasing h)) as [[s others]|] eqn:Ht;
    [|split; assumption].
  pose proof (take_perm _ _ _ _ Ht) as Hp.
  pose proof (take_length _ _ _ _ Ht) as Hl.
  cbv zeta.
  set (q1 := mkQueue (concurrency (state h)) (running (state h) - 1) (queue (state h))
                     (results (state h)) (onComplete (state h)) (active (state h))
                     (tickets (state h)) (notified (state h))).
  assert (Hq1 : Tracked q1).
  { destruct Htr as [Hc Hn Hf]. split; assumption. }
  pose proof (runNext_fuel_tracked (length (queue q1)) now q1 Hq1) as Hq2.
  pose proof (runNext_fuel_surplus (length (queue q1)) now q1) as Hs.
  pose proof (runNext_fuel_pending (length (queue q1)) now q1) as Hpe.
  pose proof (runNext_fuel_tickets (length (queue q1)) now q1) as Hti.
  fold (runNext now q1) in Hq2, Hs, Hpe, Hti.
  set (q2 := runNext now q1) in *.
  assert (Hfl : inFlight h ≡ₚ ticket (entry s) :: pendingTickets q2
                              ++ ((fun s => ticket (entry s)) <$> others)).
  { unfold inFlight. rewrite Hp, Hpe. cbn [fmap list_fmap].
    rewrite <- Permutation_middle. reflexivity. }
  rewrite Hfl in Hnd, Hfr.
  apply NoDup_cons in Hnd as [_ Hnd]. apply Forall_cons in Hfr as [_ Hfr].
  assert (Hrun2 : running q2 = Z.of_nat (length (active q2) + length others)).
  { unfold surplus in Hs. cbn [running active q1] in Hs.
    rewrite Nat2Z.inj_add in Hrun |- *. lia. }
  destruct ((length (queue q2) =? 0)%nat && (running q2 =? 0) && onComplete q2).
  - split; cbn [state releasing].
    + destruct Hq2 as [Hc Hn Hf]. split; assumption.
    + exact Hrun2.
    + exact Hnd.
    + cbn [tickets]. rewrite Hti. exact Hfr.
  - split; cbn [state releasing].
    + exact Hq2.
    + exact Hrun2.
    + exact Hnd.
    + rewrite Hti. exact Hfr.
Qed.

Lemma jobs_accounted h js : Accounted h -> Accounted (jobs h js).
Proof.
  revert h. induction js as [|j js IH]; intros h Hh; [exact Hh|].
  cbn [jobs foldl]. apply IH.
  destruct j; [apply add_accounted | apply fulfil_accounted | apply release_accounted];
    exact Hh.
Qed.


(** A caller resumed by the promise of [add] before the [finally]
    handler has run reads [completed = 1] with [running = 1] after a
    single [add]. *)
Example status_between_handlers :
  getStatus (state (jobs (mkHandlers (create (Some 1) false) [])
                         [Adds "a" 0 100; Fulfils 0 (Ok "r") 150]))
  = (0%nat, 1, 1%nat, 1).
Proof. reflexivity. Qed.

Lemma add_notified name prio now q : notified (add name prio now q) = notified q.
Proof. unfold add, runNext. rewrite runNext_fuel_notified. reflexivity. Qed.



(** X9.  The queue never leaves a slot free while a task waits: in every
    state reached from a new queue, entries are queued only when the
    running count has reached the concurrency. *)
Theorem no_idle_slot_while_queued (optc : option Z) (cb : bool) (evs : list Event) :
  let q := run (create optc cb) evs in
  queue q <> [] -> concurrency q <= running q.
Proof.
  cbv zeta. intros Hne.
  pose proof (run_saturated (create optc cb) evs (create_saturated optc cb)) as Hsat.
  unfold Saturated in Hsat.
  destruct (Z_lt_le_dec (running (run (create optc cb) evs))
                        (concurrency (run (create optc cb) evs))) as [Hlt|Hle];
    [|exact Hle].
  exfalso. apply Hne, Hsat, Hlt.
Qed.

Lemma no_idle_slot_while_queued_witness :
  let q := run (create (Some 1) false) busyQueue in
  concurrency q <= running q.
Proof.
  apply (no_idle_slot_while_queued (Some 1) false busyQueue).
  vm_compute. discriminate.
Defined.

(** X10.  A negative [concurrency] option is kept as it is ([||] replaces
    only a missing or zero value), and a queue built with it never starts
    a task: every added task stays queued, nothing is recorded and the
    completion callback is never called. *)
Theorem negative_concurrency_starves (c : Z) (cb : bool) (evs : list Event) :
  c < 0 ->
  let q := run (create (Some c) cb) evs in
  concurrency q = c
  /\ running q = 0
  /\ active q = []
  /\ results q = []
  /\ notified q = 0%nat
  /\ length (queue q) = tickets q.
Proof.
  intros Hc. cbv zeta.
  assert (Hgen : forall q,
            concurrency q = c /\ running q = 0 /\ active q = [] /\ results q = []
            /\ notified q = 0%nat /\ length (queue q) = tickets q ->
            concurrency (run q evs) = c /\ running (run q evs) = 0
            /\ active (run q evs) = [] /\ results (run q evs) = []
            /\ notified (run q evs) = 0%nat
            /\ length (queue (run q evs)) = tickets (run q evs)).
  { induction evs as [|ev evs IH]; intros q Hq; [exact Hq|].
    cbn. apply IH. destruct Hq as (Hcc & Hr & Ha & Hres & Hn & Hl).
    destruct ev as [name prio now | t outcome now]; unfold step.
    - unfold add, runNext.
      match goal with |- context [runNext_fuel ?n now ?q0] =>
        assert (Hstay : runNext_fuel n now q0 = q0) end.
      { match goal with |- runNext_fuel ?n _ _ = _ => destruct n end;
          cbn [runNext_fuel]; [reflexivity|].
        cbn [concurrency running]. rewrite Hcc, Hr.
        replace (c <=? 0) with true by (symmetry; apply Z.leb_le; lia).
        reflexivity. }
      rewrite Hstay. cbn. rewrite length_app. cbn.
      repeat split; try assumption. lia.
    - unfold settle. rewrite Ha. cbn. repeat split; assumption. }
  apply Hgen. unfold create, orDefault.
  replace (c =? 0) with false by (symmetry; apply Z.eqb_neq; lia).
  cbn. repeat split; reflexivity.
Qed.

Lemma negative_concurrency_starves_witness :
  let q := run (create (Some (-1)) true) busyQueue in
  concurrency q = -1
  /\ running q = 0
  /\ active q = []
  /\ results q = []
  /\ notified q = 0%nat
  /\ length (queue q) = tickets q.
Proof.
  apply (negative_concurrency_starves (-1) true busyQueue). lia.
Defined.

(** ** Waiting for the queue *)

Lemma watchedRun_keeps_dropped (cs : list Call) :
  forall w,
    (forall k, callback w = Some (Waiter k) -> (k < waiters w)%nat) ->
    (forall cbk, callback w = Some cbk -> cbk <> FromOptions) ->
    optionCalls (watchedRun w cs) = optionCalls w
    /\ forall k, (k < waiters w)%nat -> callback w <> Some (Waiter k) ->
         k ∉ resolved w -> k ∉ resolved (watchedRun w cs).
Proof.
  induction cs as [|c cs IH]; intros w Hfresh Hopt; [cbn; auto|].
  cbn [watchedRun foldl]. fold (watchedRun (watchedStep w c) cs).
  assert (Hstep :
    (forall k, callback (watchedStep w c) = Some (Waiter k) ->
               (k < waiters (watchedStep w c))%nat)
    /\ (forall cbk, callback (watchedStep w c) = Some cbk -> cbk <> FromOptions)
    /\ optionCalls (watchedStep w c) = optionCalls w
    /\ (waiters w <= waiters (watchedStep w c))%nat
    /\ forall k, (k < waiters w)%nat -> callback w <> Some (Waiter k) ->
         k ∉ resolved w ->
         callback (watchedStep w c) <> Some (Waiter k)
         /\ k ∉ resolved (watchedStep w c)).
  { destruct c as [ev|]; unfold watchedStep.
    - destruct (notified (step (inner w) ev) =? notified (inner w))%nat.
      + cbn. repeat split; auto.
      + unfold invoke. cbn [callback].
        destruct (callback w) as [[|j]|] eqn:Hcb; cbn.
        * exfalso. eapply Hopt; reflexivity.
        * repeat split; auto.
          rewrite elem_of_app, list_elem_of_singleton. intros [Hin | ->]; [auto|].
          congruence.
        * repeat split; auto.
    - unfold waitForAll. cbv zeta. destruct (idle (inner w)); cbn.
      + split; [intros k Hk; specialize (Hfresh k Hk); lia|].
        split; [exact Hopt|]. split; [reflexivity|]. split; [lia|].
        intros k Hlt Hne Hnin. split; [exact Hne|].
        rewrite elem_of_app, list_elem_of_singleton. intros [Hin| ->]; [auto | lia].
      + split; [intros k [= <-]; lia|].
        split; [intros cbk [= <-]; discriminate|].
        split; [reflexivity|]. split; [lia|].
        intros k Hlt Hne Hnin. split; [intros [= Heq]; lia | exact Hnin]. }
  destruct Hstep as (Hfresh' & Hopt' & Hcalls & Hmono & Hkeep).
  destruct (IH _ Hfresh' Hopt') as [IHcalls IHres].
  split; [congruence|].
  intros k Hlt Hne Hnin. destruct (Hkeep k Hlt Hne Hnin) as [Hne' Hnin'].
  apply IHres; [lia | exact Hne' | exact Hnin'].
Qed.

Lemma watchedRun_fresh (cs : list Call) :
  forall w,
    (forall k, callback w = Some (Waiter k) -> (k < waiters w)%nat) ->
    Forall (fun k => (k < waiters w)%nat) (resolved w) ->
    (forall k, callback (watchedRun w cs) = Some (Waiter k) ->
               (k < waiters (watchedRun w cs))%nat)
    /\ Forall (fun k => (k < waiters (watchedRun w cs))%nat) (resolved (watchedRun w cs)).
Proof.
  induction cs as [|c cs IH]; intros w Hcb Hres; [split; assumption|].
  cbn [watchedRun foldl]. fold (watchedRun (watchedStep w c) cs).
  apply IH.
  - destruct c as [ev|]; unfold watchedStep.
    + destruct (notified (step (inner w) ev) =? notified (inner w))%nat; [exact Hcb|].
      unfold invoke. cbn [callback]. destruct (callback w) as [[|j]|]; exact Hcb.
    + unfold waitForAll. cbv zeta. destruct (idle (inner w)); cbn.
      * intros k Hk. specialize (Hcb k Hk). lia.
      * intros k [= <-]. lia.
  - destruct c as [ev|]; unfold watchedStep.
    + destruct (notified (step (inner w) ev) =? notified (inner w))%nat; [exact Hres|].
      unfold invoke. cbn [callback].
      destruct (callback w) as [[|j]|] eqn:Hj; cbn; try exact Hres.
      apply Forall_app. split; [exact Hres|].
      apply Forall_cons. split; [apply Hcb; reflexivity | apply Forall_nil_2].
    + unfold waitForAll. cbv zeta. destruct (idle (inner w)); cbn.
      * apply Forall_app. split.
        -- eapply Forall_impl; [exact Hres|]. cbn. intros; lia.
        -- apply Forall_cons. split; [lia | apply Forall_nil_2].
      * eapply Forall_impl; [exact Hres|]. cbn. intros; lia.
Qed.

Lemma watch_fresh optc cb (cs : list Call) :
  (forall k, callback (watchedRun (watch optc cb) cs) = Some (Waiter k) ->
             (k < waiters (watchedRun (watch optc cb) cs))%nat)
  /\ Forall (fun k => (k < waiters (watchedRun (watch optc cb) cs))%nat)
            (resolved (watchedRun (watch optc cb) cs)).
Proof.
  apply watchedRun_fresh.
  - unfold watch. cbn. destruct cb; discriminate.
  - apply Forall_nil_2.
Qed.

(** X11.  [waitForAll] stores its resolver in the one [onComplete] slot.
    Called twice while tasks are pending, the second call replaces the
    resolver of the first: whatever happens to the queue afterwards, the
    promise of the first call is never resolved. *)
Theorem second_waitForAll_drops_first (optc : option Z) (cb : bool)
    (before after : list Call) :
  let w := watchedRun (watch optc cb) before in
  idle (inner w) = false ->
  waiters w ∉ resolved (watchedRun (waitForAll (waitForAll w)) after).
Proof.
  cbv zeta. set (w := watchedRun (watch optc cb) before).
  intros Hbusy. destruct (watch_fresh optc cb before) as [_ Hres]. fold w in Hres.
  assert (Hw2 : waitForAll (waitForAll w)
                = mkWatched (mkQueue (concurrency (inner w)) (running (inner w))
                                     (queue (inner w)) (results (inner w)) true
                                     (active (inner w)) (tickets (inner w))
                                     (notified (inner w)))
                            (Some (Waiter (S (waiters w)))) (optionCalls w)
                            (resolved w) (S (S (waiters w)))).
  { unfold waitForAll at 2. cbv zeta. rewrite Hbusy.
    unfold waitForAll. cbv zeta. cbn [inner].
    unfold idle in Hbusy |- *. cbn [queue running]. rewrite Hbusy. reflexivity. }
  rewrite Hw2.
  apply watchedRun_keeps_dropped; cbn.
  - intros k [= <-]. lia.
  - intros cbk [= <-]. discriminate.
  - lia.
  - intros [= Heq]. lia.
  - intros Hin. rewrite Forall_forall in Hres. apply Hres in Hin. lia.
Qed.

Lemma second_waitForAll_drops_first_witness :
  let w := watchedRun (watch (Some 1) false) [OnQueue (Add "a" 0 100)] in
  waiters w ∉ resolved
    (watchedRun (waitForAll (waitForAll w))
                [OnQueue (Settle 0 (Ok "r") 150); OnQueue (Add "b" 0 160);
                 OnQueue (Settle 1 (Ok "r") 170)]).
Proof.
  apply (second_waitForAll_drops_first (Some 1) false [OnQueue (Add "a" 0 100)]
           [OnQueue (Settle 0 (Ok "r") 150); OnQueue (Add "b" 0 160);
            OnQueue (Settle 1 (Ok "r") 170)]).
  reflexivity.
Defined.

(** X12.  A [waitForAll] call made while tasks are pending replaces the
    callback given to the constructor, which is never called again, not
    even when the queue drains. *)
Theorem waitForAll_replaces_onComplete (optc : option Z) (cb : bool)
    (before after : list Call) :
  let w := watchedRun (watch optc cb) before in
  idle (inner w) = false ->
  optionCalls (watchedRun (waitForAll w) after) = optionCalls w.
Proof.
  cbv zeta. set (w := watchedRun (watch optc cb) before).
  intros Hbusy. destruct (watch_fresh optc cb before) as [Hfresh _]. fold w in Hfresh.
  assert (Hw1 : callback (waitForAll w) = Some (Waiter (waiters w))
                /\ waiters (waitForAll w) = S (waiters w)
                /\ optionCalls (waitForAll w) = optionCalls w).
  { unfold waitForAll. cbv zeta. rewrite Hbusy. cbn. auto. }
  destruct Hw1 as (Hcb & Hwt & Hoc).
  rewrite <- Hoc. apply watchedRun_keeps_dropped.
  - rewrite Hcb, Hwt. intros k [= <-]. lia.
  - rewrite Hcb. intros cbk [= <-]. discriminate.
Qed.

Lemma waitForAll_replaces_onComplete_witness :
  let w := watchedRun (watch (Some 1) true) [OnQueue (Add "a" 0 100)] in
  optionCalls (watchedRun (waitForAll w) [OnQueue (Settle 0 (Ok "r") 150)])
  = optionCalls w.
Proof.
  apply (waitForAll_replaces_onComplete (Some 1) true [OnQueue (Add "a" 0 100)]
           [OnQueue (Settle 0 (Ok "r") 150)]).
  reflexivity.
Defined.

End TaskQueueProofs.

Module BrowserPoolProofs.
Import BrowserPool.

(** ** Disconnect handling *)

(** C9 (as amended).  On a disconnect event of a pool that holds a
    browser reference and has a handler registered, the handler is
    invoked exactly once, after the page map and the idle timers have
    been cleared: what it observes is an empty page table, no timers and
    the browser reference still in place (now disconnected). *)
Theorem disconnect_handler_after_cleanup (p : Pool) (connected : bool) :
  browser p = Some connected ->
  onDisconnect p = true ->
  handlerCalls (onDisconnected p) = handlerCalls p ++ [mkView (Some false) ∅ ∅]
  /\ pages (onDisconnected p) = ∅
  /\ pageTimers (onDisconnected p) = ∅
  /\ browser (onDisconnected p) = Some false.
Proof.
  intros Hb Hh. unfold onDisconnected. cbn. rewrite Hb, Hh. cbn.
  repeat split; reflexivity.
Qed.

Lemma disconnect_handler_after_cleanup_witness :
  handlerCalls (onDisconnected poolWithPages)
    = handlerCalls poolWithPages ++ [mkView (Some false) ∅ ∅]
  /\ pages (onDisconnected poolWithPages) = ∅
  /\ pageTimers (onDisconnected poolWithPages) = ∅
  /\ browser (onDisconnected poolWithPages) = Some false.
Proof.
  apply (disconnect_handler_after_cleanup poolWithPages true); reflexivity.
Defined.

(** C9 as stated fails here.  The pool tracks two pages and one idle
    timer when the browser disconnects; the handler, invoked once, finds
    none of them: the tracking state was cleared before the invocation,
    not after it. *)
Lemma disconnect_handler_sees_cleared_state :
  exists v,
    handlerCalls (onDisconnected poolWithPages) = [v]
    /\ seenPages v <> pages poolWithPages
    /\ seenTimers v <> pageTimers poolWithPages
    /\ seenPages v = ∅ /\ seenTimers v = ∅.
Proof.
  exists (mkView (Some false) ∅ ∅).
  split; [reflexivity|]. cbn.
  split.
  - intros H. apply (f_equal (fun m => m !! "shop.example")) in H.
    vm_compute in H. discriminate H.
  - split; [|split; reflexivity].
    intros H. assert (Hin : 2%nat ∈ (∅ : gset nat)).
    { rewrite H. apply elem_of_singleton. reflexivity. }
    apply not_elem_of_empty in Hin. exact Hin.
Qed.

(** ** The per-domain limit *)

(** C4 (the code breaks the limit).  Three [getPage] calls for one domain
    issued before any of them has created its page all pass the test
    [pages.length < maxPagesPerDomain] (the array is still empty), and
    each pushes its page after its awaits: the pool, limited to two pages
    per domain, tracks three, all in use, and no call waited.  The reuse
    path reserves its page ([inUse = true]) before it awaits; the
    creation path counts its page only after. *)
Theorem getPage_overlap_exceeds_cap :
  exists p,
    run readyPool threeOverlappingCalls = Some p
    /\ maxPagesPerDomain p = 2%nat
    /\ pagesOf p "shop.example"
       = [mkPageData 1 true "shop.example"; mkPageData 2 true "shop.example";
          mkPageData 3 true "shop.example"]
    /\ inUseCount p "shop.example" = 3%nat
    /\ delivered p = [Ok 1%nat; Ok 2%nat; Ok 3%nat]
    /\ pending p = [].
Proof.
  eexists. split; [vm_compute; reflexivity|].
  repeat split; vm_compute; reflexivity.
Qed.

(** ** The limit in executions without overlapping creations *)

Lemma shrinks_refl p : Shrinks p p.
Proof. split; [reflexivity | intros d; split; lia]. Qed.

Lemma shrinks_trans p1 p2 p3 : Shrinks p1 p2 -> Shrinks p2 p3 -> Shrinks p1 p3.
Proof.
  intros [Hm1 H1] [Hm2 H2]. split; [congruence|].
  intros d. destruct (H1 d), (H2 d). split; lia.
Qed.

Lemma shrinks_cap p p' : Shrinks p p' -> Cap p -> Cap p'.
Proof.
  intros [Hm H] Hc d. specialize (Hc d). destruct (H d). rewrite Hm. lia.
Qed.

Lemma shrinks_quiet p p' d : Shrinks p p' -> creating p d = 0%nat -> creating p' d = 0%nat.
Proof. intros [_ H] Hq. destruct (H d). lia. Qed.

Lemma pagesOf_set_insert p d l d' :
  pagesOf (set_pages (<[d := l]> (pages p)) p) d'
  = if decide (d = d') then l else pagesOf p d'.
Proof.
  unfold pagesOf. cbn. rewrite lookup_insert.
  destruct (decide (d = d')); reflexivity.
Qed.

(** Replacing the page list of one domain by one that is not longer. *)
Lemma shrinks_set_pages p d l :
  (length l <= length (pagesOf p d))%nat ->
  Shrinks p (set_pages (<[d := l]> (pages p)) p).
Proof.
  intros Hl. split; [reflexivity|]. intros d'. split; [|reflexivity].
  rewrite pagesOf_set_insert. destruct (decide (d = d')) as [<-|]; [exact Hl | lia].
Qed.

Lemma pagesOf_lookup p d l : pages p !! d = Some l -> pagesOf p d = l.
Proof. unfold pagesOf. intros ->. reflexivity. Qed.

Lemma creating_suspend_other p k d :
  k <> AwaitingNewPage d -> creating (suspend k p) d = creating p d.
Proof.
  intros Hk. unfold creating, suspend. cbn [pending set_pending].
  rewrite filter_app, length_app, filter_cons, filter_nil.
  destruct (decide (k = AwaitingNewPage d)); [contradiction | cbn; lia].
Qed.

Lemma shrinks_suspend p k :
  (forall d, k <> AwaitingNewPage d) -> Shrinks p (suspend k p).
Proof.
  intros Hk. split; [reflexivity|]. intros d. split; [reflexivity|].
  rewrite creating_suspend_other by apply Hk. lia.
Qed.

Lemma shrinks_deliver p r : Shrinks p (deliver r p).
Proof. split; [reflexivity | intros d; split; reflexivity]. Qed.

Lemma shrinks_set_pageTimers p t : Shrinks p (set_pageTimers t p).
Proof. split; [reflexivity | intros d; split; reflexivity]. Qed.

Lemma shrinks_set_browser p b : Shrinks p (set_browser b p).
Proof. split; [reflexivity | intros d; split; reflexivity]. Qed.

Lemma shrinks_clear p : Shrinks p (set_pages ∅ p).
Proof.
  split; [reflexivity|]. intros d. split; [|reflexivity].
  unfold pagesOf. cbn. rewrite lookup_empty. cbn. lia.
Qed.

Lemma removePending_filter k l l' (P : Pending -> Prop) `{!forall x, Decision (P x)} :
  removePending k l = Some l' ->
  (length (filter P l') <= length (filter P l))%nat
  /\ (P k -> length (filter P l) = S (length (filter P l'))).
Proof.
  revert l'. induction l as [|x l IH]; cbn [removePending]; intros l'; [discriminate|].
  destruct (decide (x = k)) as [->|Hne].
  - intros [= <-]. rewrite filter_cons. destruct (decide (P k)); cbn; split; auto; try lia.
    tauto.
  - destruct (removePending k l) as [l''|]; [|discriminate].
    intros [= <-]. destruct (IH l'' eq_refl) as [Hle Heq].
    rewrite !filter_cons. destruct (decide (P x)); cbn; split; try lia; intros Hk;
      specialize (Heq Hk); lia.
Qed.

Lemma shrinks_resume k p p1 : resume k p = Some p1 -> Shrinks p p1.
Proof.
  unfold resume. destruct (removePending k (pending p)) as [l|] eqn:Hr; [|discriminate].
  intros [= <-]. split; [reflexivity|]. intros d. split; [reflexivity|].
  unfold creating. cbn. eapply removePending_filter, Hr.
Qed.

Lemma resume_creating d p p1 :
  resume (AwaitingNewPage d) p = Some p1 ->
  creating p d = S (creating p1 d)
  /\ pages p1 = pages p /\ maxPagesPerDomain p1 = maxPagesPerDomain p
  /\ forall d', (creating p1 d' <= creating p d')%nat.
Proof.
  unfold resume.
  destruct (removePending (AwaitingNewPage d) (pending p)) as [l|] eqn:Hr; [|discriminate].
  intros [= <-]. unfold creating. cbn. split.
  - eapply removePending_filter; [exact Hr | reflexivity].
  - split; [reflexivity|]. split; [reflexivity|].
    intros d'. eapply removePending_filter, Hr.
Qed.

Lemma afterLoop_cap d p : Cap p -> creating p d = 0%nat -> Cap (afterLoop d p).
Proof.
  intros Hc Hq. unfold afterLoop.
  destruct (length (pagesOf p d) <? maxPagesPerDomain p)%nat eqn:Hlt.
  - apply Nat.ltb_lt in Hlt. intros d'. specialize (Hc d').
    unfold creating, suspend, pagesOf in *. cbn [pending set_pending pages maxPagesPerDomain].
    rewrite filter_app, length_app, filter_cons, filter_nil.
    destruct (decide (AwaitingNewPage d = AwaitingNewPage d')) as [[= <-]|]; cbn; lia.
  - apply (shrinks_cap p); [|exact Hc]. apply shrinks_suspend. discriminate.
Qed.

Lemma scanFrom_cap d i p : Cap p -> creating p d = 0%nat -> Cap (scanFrom d i p).
Proof.
  intros Hc Hq. unfold scanFrom.
  destruct (firstFree (pagesOf p d) i) as [[j pd]|]; [|apply afterLoop_cap; assumption].
  apply (shrinks_cap p); [|exact Hc].
  eapply shrinks_trans; [apply shrinks_set_pageTimers|].
  eapply shrinks_trans; [|apply shrinks_suspend; discriminate].
  apply shrinks_set_pages. rewrite length_insert. reflexivity.
Qed.

Lemma afterInitialize_cap d p : Cap p -> creating p d = 0%nat -> Cap (afterInitialize d p).
Proof.
  intros Hc Hq. unfold afterInitialize.
  assert (Hgo : Cap (scanFrom d 0
                       match pages p !! d with
                       | Some _ => p
                       | None => set_pages (<[d:=[]]> (pages p)) p
                       end)).
  { destruct (pages p !! d) eqn:Hd; [apply scanFrom_cap; assumption|].
    apply scanFrom_cap.
    - apply (shrinks_cap p); [|exact Hc]. apply shrinks_set_pages. cbn. lia.
    - exact Hq. }
  destruct (browser p) as [[|]|]; try exact Hgo.
  apply (shrinks_cap p); [apply shrinks_deliver | exact Hc].
Qed.

Lemma getPage_cap d p : Cap p -> creating p d = 0%nat -> Cap (getPage d p).
Proof.
  intros Hc Hq. unfold getPage. destruct (browser p).
  - apply afterInitialize_cap; assumption.
  - apply (shrinks_cap p); [|exact Hc]. apply shrinks_suspend. discriminate.
Qed.

Lemma removeIdle_length pageId l : (length (removeIdle pageId l) <= length l)%nat.
Proof.
  induction l as [|pd l IH]; cbn; [lia|].
  destruct (id pd =? pageId)%nat; [destruct (inUse pd); cbn; lia | cbn; lia].
Qed.

Lemma removePage_length pageId l : (length (removePage pageId l) <= length l)%nat.
Proof.
  induction l as [|pd l IH]; cbn; [lia|].
  destruct (id pd =? pageId)%nat; cbn; lia.
Qed.

Lemma step_cap p ev p' : Cap p -> Quiet p ev -> step p ev = Some p' -> Cap p'.
Proof.
  intros Hc Hq Hstep. destruct ev; unfold step in Hstep; cbn [Quiet] in Hq.
  - injection Hstep as <-. apply getPage_cap; assumption.
  - destruct (resume (AwaitingInitialize d) p) as [p1|] eqn:Hr; [|discriminate].
    cbn [mbind option_bind] in Hstep. pose proof (shrinks_resume _ _ _ Hr) as Hs.
    destruct launch as [message|]; injection Hstep as <-.
    + apply (shrinks_cap p1); [apply shrinks_deliver | eapply shrinks_cap; eassumption].
    + apply afterInitialize_cap.
      * eapply shrinks_cap; [|exact Hc].
        eapply shrinks_trans; [exact Hs | apply shrinks_set_browser].
      * eapply shrinks_quiet; [|exact Hq].
        eapply shrinks_trans; [exact Hs | apply shrinks_set_browser].
  - destruct (resume (AwaitingEvaluate d i pageId) p) as [p1|] eqn:Hr; [|discriminate].
    cbn [mbind option_bind] in Hstep. pose proof (shrinks_resume _ _ _ Hr) as Hs.
    destruct responsive.
    + injection Hstep as <-.
      apply (shrinks_cap p1); [apply shrinks_deliver | eapply shrinks_cap; eassumption].
    + destruct (pages p1 !! d) as [l|] eqn:Hl; injection Hstep as <-.
      * assert (Hs2 : Shrinks p (set_pages (<[d:=delete i l]> (pages p1)) p1)).
        { eapply shrinks_trans; [exact Hs|]. apply shrinks_set_pages.
          rewrite (pagesOf_lookup _ _ _ Hl), delete_take_drop, length_app,
            length_take, length_drop. lia. }
        apply scanFrom_cap; [eapply shrinks_cap; eassumption|].
        eapply shrinks_quiet; eassumption.
      * apply (shrinks_cap p1); [apply shrinks_deliver | eapply shrinks_cap; eassumption].
  - destruct (resume (AwaitingNewPage d) p) as [p1|] eqn:Hr; [|discriminate].
    cbn [mbind option_bind] in Hstep. pose proof (shrinks_resume _ _ _ Hr) as Hs.
    assert (Hc1 : Cap p1) by (eapply shrinks_cap; eassumption).
    destruct outcome as [pageId|message].
    + destruct (pages p1 !! d) as [l|] eqn:Hl; injection Hstep as <-;
        [|apply (shrinks_cap p1); [apply shrinks_deliver | exact Hc1]].
      destruct (resume_creating _ _ _ Hr) as (Hcr & Hpg & Hmx & Hle).
      intros d'. specialize (Hc d'). specialize (Hle d').
      change (creating (deliver (Ok pageId)
                (set_pages (<[d:=l ++ [mkPageData pageId true d]]> (pages p1)) p1)) d')
        with (creating p1 d').
      change (maxPagesPerDomain (deliver (Ok pageId)
                (set_pages (<[d:=l ++ [mkPageData pageId true d]]> (pages p1)) p1)))
        with (maxPagesPerDomain p1).
      change (pagesOf (deliver (Ok pageId)
                (set_pages (<[d:=l ++ [mkPageData pageId true d]]> (pages p1)) p1)) d')
        with (pagesOf (set_pages (<[d:=l ++ [mkPageData pageId true d]]> (pages p1)) p1) d').
      rewrite pagesOf_set_insert, Hmx.
      destruct (decide (d = d')) as [<-|].
      * rewrite length_app. cbn.
        assert (pagesOf p d = l) by (apply pagesOf_lookup; rewrite <- Hpg; exact Hl).
        subst l. lia.
      * assert (Hsame : pagesOf p1 d' = pagesOf p d')
          by (unfold pagesOf; rewrite Hpg; reflexivity).
        rewrite Hsame. lia.
    + injection Hstep as <-.
      apply (shrinks_cap p1); [apply shrinks_deliver | exact Hc1].
  - destruct (bool_decide (Polling d ∈ pending p)); [|discriminate].
    destruct (browser p) as [[|]|].
    + destruct (pages p !! d) as [l0|]; [|discriminate].
      destruct (firstFree (pagesOf p d) 0) as [[j pd]|]; [|injection Hstep as <-; exact Hc].
      destruct (resume (Polling d) p) as [p1|] eqn:Hr; [|discriminate].
      cbn [mbind option_bind] in Hstep. injection Hstep as <-.
      pose proof (shrinks_resume _ _ _ Hr) as Hs.
      apply (shrinks_cap p); [|exact Hc]. cbv zeta.
      apply (shrinks_trans p p1); [exact Hs|].
      apply (shrinks_trans p1 (set_pageTimers (pageTimers p1 ∖ {[id pd]}) p1));
        [apply shrinks_set_pageTimers|].
      eapply shrinks_trans; [|apply shrinks_suspend; discriminate].
      apply (shrinks_set_pages (set_pageTimers (pageTimers p1 ∖ {[id pd]}) p1)).
      rewrite length_insert. reflexivity.
    + destruct (resume (Polling d) p) as [p1|] eqn:Hr; [|discriminate].
      cbn [mbind option_bind] in Hstep. injection Hstep as <-.
      apply (shrinks_cap p); [|exact Hc].
      eapply shrinks_trans; [eapply shrinks_resume, Hr | apply shrinks_deliver].
    + destruct (resume (Polling d) p) as [p1|] eqn:Hr; [|discriminate].
      cbn [mbind option_bind] in Hstep. injection Hstep as <-.
      apply (shrinks_cap p); [|exact Hc].
      eapply shrinks_trans; [eapply shrinks_resume, Hr | apply shrinks_deliver].
  - destruct (resume (Polling d) p) as [p1|] eqn:Hr; [|discriminate].
    cbn [mbind option_bind] in Hstep. injection Hstep as <-.
    apply (shrinks_cap p); [|exact Hc].
    eapply shrinks_trans; [eapply shrinks_resume, Hr | apply shrinks_deliver].
  - destruct (resume (AwaitingPollEvaluate d pageId) p) as [p1|] eqn:Hr; [|discriminate].
    cbn [mbind option_bind] in Hstep. pose proof (shrinks_resume _ _ _ Hr) as Hs.
    destruct responsive.
    + injection Hstep as <-.
      apply (shrinks_cap p1); [apply shrinks_deliver | eapply shrinks_cap; eassumption].
    + destruct (pages p1 !! d) as [l|] eqn:Hl; [|discriminate].
      injection Hstep as <-.
      assert (Hs2 : Shrinks p (set_pages (<[d:=removePage pageId l]> (pages p1)) p1)).
      { eapply shrinks_trans; [exact Hs|]. apply shrinks_set_pages.
        rewrite (pagesOf_lookup _ _ _ Hl). apply removePage_length. }
      apply getPage_cap; [eapply shrinks_cap; eassumption|].
      eapply shrinks_quiet; eassumption.
  - injection Hstep as <-. apply (shrinks_cap p); [|exact Hc]. unfold release.
    eapply shrinks_trans; [|apply shrinks_set_pageTimers].
    destruct (pages p !! d) as [l|] eqn:Hl; [|apply shrinks_refl].
    apply shrinks_set_pages. rewrite (pagesOf_lookup _ _ _ Hl), length_map. lia.
  - destruct (bool_decide (pageId ∈ pageTimers p)); [|discriminate].
    injection Hstep as <-. apply (shrinks_cap p); [|exact Hc]. unfold idleTimeout.
    eapply shrinks_trans; [|apply shrinks_set_pageTimers].
    destruct (pages p !! d) as [l|] eqn:Hl; [|apply shrinks_refl].
    apply shrinks_set_pages. rewrite (pagesOf_lookup _ _ _ Hl). apply removeIdle_length.
  - injection Hstep as <-. apply (shrinks_cap p); [|exact Hc]. unfold onDisconnected.
    match goal with
    | |- Shrinks p (if ?c then _ else _) => destruct c
    end.
    + split; [reflexivity|]. intros d. split; [|reflexivity].
      unfold pagesOf. cbn. rewrite lookup_empty. cbn. lia.
    + unfold cleanupResources.
      eapply shrinks_trans; [apply shrinks_set_browser|].
      eapply shrinks_trans; [apply shrinks_clear | apply shrinks_set_pageTimers].
  - injection Hstep as <-. apply (shrinks_cap p); [|exact Hc]. unfold close.
    destruct (browser p); [|apply shrinks_refl].
    eapply shrinks_trans; [apply shrinks_set_browser|].
    eapply shrinks_trans; [apply shrinks_clear | apply shrinks_set_pageTimers].
  - injection Hstep as <-. apply (shrinks_cap p); [|exact Hc].
    split; [reflexivity | intros d; split; reflexivity].
Qed.

(** As long as no [getPage] call reaches the limit test while another
    call of the same domain is creating its page, no domain ever tracks
    more than [maxPagesPerDomain] handles, in use or not. *)
Lemma serial_cap p evs p' :
  Cap p -> Serial p evs -> run p evs = Some p' ->
  forall d,
    (length (pagesOf p' d) <= maxPagesPerDomain p')%nat
    /\ (inUseCount p' d <= maxPagesPerDomain p')%nat.
Proof.
  revert p. induction evs as [|ev evs IH]; intros p Hc Hs Hrun.
  - injection Hrun as <-. intros d. specialize (Hc d).
    pose proof (length_filter (fun pd => inUse pd = true) (pagesOf p d)).
    unfold inUseCount. split; lia.
  - cbn in Hrun, Hs. destruct Hs as [Hq Hs].
    destruct (step p ev) as [p1|] eqn:Hstep; [|discriminate].
    cbn in Hrun. apply (IH p1); [eapply step_cap; eassumption | exact Hs | exact Hrun].
Qed.

Lemma create_cap opt : Cap (create opt).
Proof.
  intros d. unfold create, pagesOf, creating. cbn. rewrite lookup_empty. cbn.
  destruct opt as [[|n]|]; lia.
Qed.

(** At the limit with every page leased, [getPage] neither reuses nor
    creates a page: the call starts polling for a release. *)
Lemma getPage_waits_at_cap d p l :
  browser p = Some true ->
  pages p !! d = Some l ->
  Forall (fun pd => inUse pd = true) l ->
  (maxPagesPerDomain p <= length l)%nat ->
  getPage d p = suspend (Polling d) p.
Proof.
  intros Hb Hl Hall Hmax. unfold getPage, afterInitialize. rewrite Hb, Hl.
  unfold scanFrom. rewrite (pagesOf_lookup _ _ _ Hl).
  assert (Hnone : forall i, firstFree l i = None).
  { clear Hl Hmax. induction Hall as [|pd l Hpd _ IH]; intros i; [reflexivity|].
    cbn. destruct i; [rewrite Hpd|]; rewrite IH; reflexivity. }
  rewrite Hnone. unfold afterLoop. rewrite (pagesOf_lookup _ _ _ Hl).
  replace (length l <? maxPagesPerDomain p)%nat with false
    by (symmetry; apply Nat.ltb_ge; exact Hmax).
  reflexivity.
Qed.

(** ** Further properties of the pool *)

Lemma run_cap p evs p' : Cap p -> Serial p evs -> run p evs = Some p' -> Cap p'.
Proof.
  revert p. induction evs as [|ev evs IH]; intros p Hc Hs Hrun.
  - injection Hrun as <-. exact Hc.
  - cbn in Hrun, Hs. destruct Hs as [Hq Hs].
    destruct (step p ev) as [p1|] eqn:Hstep; [|discriminate].
    cbn in Hrun. apply (IH p1); [eapply step_cap; eassumption | exact Hs | exact Hrun].
Qed.

Lemma sum_list_with_le {A} (f g : A -> nat) (l : list A) :
  (forall x, x ∈ l -> (f x <= g x)%nat) ->
  (sum_list_with f l <= sum_list_with g l)%nat.
Proof.
  induction l as [|x l IH]; intros H; cbn; [lia|].
  pose proof (H x (list_elem_of_here _ _)).
  assert (sum_list_with f l <= sum_list_with g l)%nat
    by (apply IH; intros y Hy; apply H, list_elem_of_further, Hy).
  lia.
Qed.

Lemma sum_list_with_bound {A} (f : A -> nat) (l : list A) (bound : nat) :
  (forall x, x ∈ l -> (f x <= bound)%nat) ->
  (sum_list_with f l <= bound * length l)%nat.
Proof.
  induction l as [|x l IH]; intros H; cbn; [lia|].
  pose proof (H x (list_elem_of_here _ _)).
  assert (sum_list_with f l <= bound * length l)%nat
    by (apply IH; intros y Hy; apply H, list_elem_of_further, Hy).
  lia.
Qed.

(** X13.  As long as no [getPage] call reaches the limit test while a
    page of its domain is being created, the figures of [getStatus()]
    stay consistent: the pages in use are among the tracked pages, and
    the tracked pages number at most [maxPagesPerDomain] for each domain
    of the table; the pool is never reported connected without being
    reported initialised. *)
Theorem status_within_limits (opt : option nat) (evs : list Event) (p : Pool) :
  Serial (create opt) evs ->
  run (create opt) evs = Some p ->
  (pagesInUse (getStatus p) <= totalPages (getStatus p))%nat
  /\ (totalPages (getStatus p) <= maxPagesPerDomain p * domains (getStatus p))%nat
  /\ (connected (getStatus p) = true -> initialized (getStatus p) = true).
Proof.
  intros Hs Hrun.
  pose proof (run_cap _ _ _ (create_cap opt) Hs Hrun) as Hcap.
  unfold getStatus. cbn [pagesInUse totalPages domains connected initialized].
  split; [|split].
  - apply sum_list_with_le. intros e _. apply length_filter.
  - unfold getTotalPagesCount. rewrite <- length_map_to_list.
    apply sum_list_with_bound. intros [d l] Hin.
    apply elem_of_map_to_list in Hin. specialize (Hcap d).
    rewrite (pagesOf_lookup _ _ _ Hin) in Hcap. cbn. lia.
  - destruct (browser p); [reflexivity | discriminate].
Qed.

Lemma status_within_limits_witness :
  exists p,
    run (create None) firstCall = Some p
    /\ (pagesInUse (getStatus p) <= totalPages (getStatus p))%nat
    /\ (totalPages (getStatus p) <= maxPagesPerDomain p * domains (getStatus p))%nat
    /\ (connected (getStatus p) = true -> initialized (getStatus p) = true).
Proof.
  eexists. split; [vm_compute; reflexivity|].
  apply (status_within_limits None firstCall).
  - vm_compute. tauto.
  - vm_compute. reflexivity.
Defined.

Lemma firstFree_spec l : forall i j pd,
  firstFree l i = Some (j, pd) ->
  (i <= j)%nat /\ l !! j = Some pd /\ inUse pd = false
  /\ forall k pd', (i <= k < j)%nat -> l !! k = Some pd' -> inUse pd' = true.
Proof.
  induction l as [|x l IH]; intros i j pd; cbn; [discriminate|].
  destruct i as [|i].
  - destruct (inUse x) eqn:Hx.
    + destruct (firstFree l 0) as [[j' y]|] eqn:Hf; [|discriminate].
      intros [= <- <-]. destruct (IH _ _ _ Hf) as (_ & Hl & Hfree & Hbefore).
      split; [lia|]. split; [exact Hl|]. split; [exact Hfree|].
      intros [|k] pd' Hk; cbn.
      * intros [= <-]. exact Hx.
      * apply Hbefore. lia.
    + intros [= <- <-]. split; [lia|]. split; [reflexivity|]. split; [exact Hx|].
      intros k pd' Hk. lia.
  - destruct (firstFree l i) as [[j' y]|] eqn:Hf; [|discriminate].
    intros [= <- <-]. destruct (IH _ _ _ Hf) as (Hle & Hl & Hfree & Hbefore).
    split; [lia|]. split; [exact Hl|]. split; [exact Hfree|].
    intros [|k] pd' Hk; [lia|]. cbn. apply Hbefore. lia.
Qed.

Lemma firstFree_some l pd :
  pd ∈ l -> inUse pd = false -> exists j pd', firstFree l 0 = Some (j, pd').
Proof.
  induction l as [|x l IH]; intros Hin Hfree; [inversion Hin|].
  cbn. destruct (inUse x) eqn:Hx; [|eauto].
  apply elem_of_cons in Hin as [->|Hin]; [congruence|].
  destruct (IH Hin Hfree) as (j & pd' & ->). eauto.
Qed.

Lemma removePending_snoc k l : exists l', removePending k (l ++ [k]) = Some l'.
Proof.
  induction l as [|x l [l' IH]]; cbn.
  - rewrite decide_True by reflexivity. eauto.
  - destruct (decide (x = k)); [eauto|]. rewrite IH. eauto.
Qed.

Lemma resume_suspended k p :
  exists l', resume k (suspend k p) = Some (set_pending l' p).
Proof.
  unfold resume, suspend. cbn [pending set_pending].
  destruct (removePending_snoc k (pending p)) as [l' ->]. exists l'. reflexivity.
Qed.

(** X14.  On a connected pool, [getPage] for a domain with a free page
    creates nothing: it claims the first free page of the domain in list
    order, marks it in use and disarms its idle timer; when the page
    answers, the caller receives that page. *)
Theorem getPage_reuses_free_page (d : string) (p : Pool) (l : list PageData)
    (free : PageData) :
  browser p = Some true ->
  pages p !! d = Some l ->
  free ∈ l ->
  inUse free = false ->
  exists j pd p',
    l !! j = Some pd
    /\ inUse pd = false
    /\ (forall k pd', (k < j)%nat -> l !! k = Some pd' -> inUse pd' = true)
    /\ pagesOf (getPage d p) d = <[j := markInUse pd]> l
    /\ pending (getPage d p) = pending p ++ [AwaitingEvaluate d j (id pd)]
    /\ (id pd ∉ pageTimers (getPage d p))
    /\ creating (getPage d p) d = creating p d
    /\ step (getPage d p) (Evaluated d j (id pd) true) = Some p'
    /\ delivered p' = delivered p ++ [Ok (id pd)]
    /\ pagesOf p' d = <[j := markInUse pd]> l.
Proof.
  intros Hb Hl Hin Hfree.
  destruct (firstFree_some l free Hin Hfree) as (j & pd & Hf).
  destruct (firstFree_spec _ _ _ _ Hf) as (_ & Hj & Hpd & Hbefore).
  assert (Hget : getPage d p
                 = suspend (AwaitingEvaluate d j (id pd))
                     (set_pages (<[d := <[j := markInUse pd]> l]> (pages p))
                        (set_pageTimers (pageTimers p ∖ {[ id pd ]}) p))).
  { unfold getPage, afterInitialize. rewrite Hb, Hl. unfold scanFrom.
    rewrite (pagesOf_lookup _ _ _ Hl), Hf. cbv zeta.
    unfold pagesOf. cbn [pages set_pageTimers]. rewrite Hl. reflexivity. }
  destruct (resume_suspended (AwaitingEvaluate d j (id pd))
              (set_pages (<[d := <[j := markInUse pd]> l]> (pages p))
                 (set_pageTimers (pageTimers p ∖ {[ id pd ]}) p))) as [l' Hres].
  exists j, pd. eexists.
  split; [exact Hj|]. split; [exact Hpd|].
  split; [intros k pd' Hk; apply Hbefore; lia|].
  rewrite Hget.
  split; [unfold pagesOf; cbn; rewrite lookup_insert_eq; reflexivity|].
  split; [reflexivity|].
  split; [cbn; intros [_ Hn]%elem_of_difference; apply Hn, elem_of_singleton;
          reflexivity|].
  split; [rewrite creating_suspend_other by discriminate; reflexivity|].
  split; [unfold step; rewrite Hres; cbn [mbind option_bind]; reflexivity|].
  split; [reflexivity|].
  unfold pagesOf. cbn. rewrite lookup_insert_eq. reflexivity.
Qed.

Lemma getPage_reuses_free_page_witness :
  exists j pd p',
    [mkPageData 1 true "shop.example"; mkPageData 2 false "shop.example"] !! j = Some pd
    /\ inUse pd = false
    /\ (forall k pd', (k < j)%nat ->
          [mkPageData 1 true "shop.example"; mkPageData 2 false "shop.example"] !! k
          = Some pd' -> inUse pd' = true)
    /\ pagesOf (getPage "shop.example" poolWithPages) "shop.example"
       = <[j := markInUse pd]>
           [mkPageData 1 true "shop.example"; mkPageData 2 false "shop.example"]
    /\ pending (getPage "shop.example" poolWithPages)
       = pending poolWithPages ++ [AwaitingEvaluate "shop.example" j (id pd)]
    /\ (id pd ∉ pageTimers (getPage "shop.example" poolWithPages))
    /\ creating (getPage "shop.example" poolWithPages) "shop.example"
       = creating poolWithPages "shop.example"
    /\ step (getPage "shop.example" poolWithPages)
            (Evaluated "shop.example" j (id pd) true) = Some p'
    /\ delivered p' = delivered poolWithPages ++ [Ok (id pd)]
    /\ pagesOf p' "shop.example"
       = <[j := markInUse pd]>
           [mkPageData 1 true "shop.example"; mkPageData 2 false "shop.example"].
Proof.
  apply (getPage_reuses_free_page "shop.example" poolWithPages
           [mkPageData 1 true "shop.example"; mkPageData 2 false "shop.example"]
           (mkPageData 2 false "shop.example")).
  - reflexivity.
  - reflexivity.
  - apply list_elem_of_further, list_elem_of_here.
  - reflexivity.
Defined.

Lemma run_cons p ev evs p1 : step p ev = Some p1 -> run p (ev :: evs) = run p1 evs.
Proof. intros H. cbn [run]. rewrite H. reflexivity. Qed.

Lemma removePending_filter_other k l l' (P : Pending -> Prop)
    `{!forall x, Decision (P x)} :
  removePending k l = Some l' -> ~ P k ->
  length (filter P l') = length (filter P l).
Proof.
  revert l'. induction l as [|x l IH]; cbn [removePending]; intros l'; [discriminate|].
  destruct (decide (x = k)) as [->|Hne].
  - intros [= <-] Hk. rewrite filter_cons, decide_False by exact Hk. reflexivity.
  - destruct (removePending k l) as [l''|]; [|discriminate].
    intros [= <-] Hk. rewrite !filter_cons.
    destruct (decide (P x)); cbn; rewrite (IH l'' eq_refl Hk); reflexivity.
Qed.

Lemma firstFree_released pageId (l : list PageData) (pd : PageData) :
  Forall (fun x => inUse x = true) l ->
  pd ∈ l -> id pd = pageId ->
  exists j x,
    firstFree (map (fun x => if (id x =? pageId)%nat then markFree x else x) l) 0
    = Some (j, x)
    /\ id x = pageId /\ (j < length l)%nat.
Proof.
  intros Hall. induction Hall as [|y l Hy _ IH]; intros Hin Hid; [inversion Hin|].
  cbn [map firstFree]. destruct (id y =? pageId)%nat eqn:Heq.
  - cbn. apply Nat.eqb_eq in Heq. exists 0%nat, (markFree y). repeat split; [exact Heq | lia].
  - rewrite Hy. apply elem_of_cons in Hin as [->|Hin].
    + apply Nat.eqb_neq in Heq. contradiction.
    + destruct (IH Hin Hid) as (j & x & -> & Hx & Hj). exists (S j), x.
      repeat split; [exact Hx | cbn; lia].
Qed.

(** X15.  At the limit with every page leased, a [getPage] call waits;
    once a holder releases its page, the next interval check of the
    waiting call claims that page, disarms the idle timer the release
    had armed, and hands the page to the waiting caller.  No page is
    created. *)
Theorem released_page_goes_to_waiter (d : string) (pageId : nat) (p : Pool)
    (l : list PageData) (held : PageData) :
  browser p = Some true ->
  pages p !! d = Some l ->
  Forall (fun pd => inUse pd = true) l ->
  (maxPagesPerDomain p <= length l)%nat ->
  held ∈ l ->
  id held = pageId ->
  step p (Call d) = Some (suspend (Polling d) p)
  /\ exists p',
       run p [Call d; Release d pageId; PollTick d; PollEvaluated d pageId true] = Some p'
       /\ delivered p' = delivered p ++ [Ok pageId]
       /\ length (pagesOf p' d) = length l
       /\ (pageId ∉ pageTimers p')
       /\ creating p' d = creating p d.
Proof.
  intros Hb Hl Hall Hmax Hin Hid.
  pose proof (getPage_waits_at_cap d p l Hb Hl Hall Hmax) as Hwait.
  assert (Hcall : step p (Call d) = Some (suspend (Polling d) p))
    by (cbn [step]; rewrite Hwait; reflexivity).
  split; [exact Hcall|].
  rewrite (run_cons _ _ _ _ Hcall).
  set (freed := map (fun x => if (id x =? pageId)%nat then markFree x else x) l).
  set (p2 := set_pageTimers (pageTimers p ∪ {[ pageId ]})
               (set_pages (<[d := freed]> (pages p)) (suspend (Polling d) p))).
  assert (Hrel : step (suspend (Polling d) p) (Release d pageId) = Some p2).
  { cbn [step]. unfold release. cbn [pages suspend set_pending]. rewrite Hl.
    reflexivity. }
  rewrite (run_cons _ _ _ _ Hrel).
  destruct (firstFree_released pageId l held Hall Hin Hid) as (j & x & Hf & Hx & Hj).
  fold freed in Hf.
  destruct (removePending_snoc (Polling d) (pending p)) as [l1 Hl1].
  set (p3 := suspend (AwaitingPollEvaluate d (id x))
               (set_pages (<[d := <[j := markInUse x]> freed]> (<[d := freed]> (pages p)))
                  (set_pageTimers ((pageTimers p ∪ {[ pageId ]}) ∖ {[ id x ]})
                     (set_pending l1 p2)))).
  assert (Htick : step p2 (PollTick d) = Some p3).
  { cbn [step]. subst p2. cbn [pending set_pageTimers set_pages suspend set_pending browser].
    rewrite bool_decide_eq_true_2
      by (apply elem_of_app; right; apply list_elem_of_here).
    rewrite Hb.
    change (pages (set_pageTimers (pageTimers p ∪ {[pageId]})
                     (set_pages (<[d:=freed]> (pages p)) (suspend (Polling d) p))))
      with (<[d:=freed]> (pages p)).
    rewrite lookup_insert_eq.
    rewrite (pagesOf_lookup _ d freed) by apply lookup_insert_eq.
    rewrite Hf. unfold resume. cbn [pending set_pageTimers set_pages suspend set_pending].
    rewrite Hl1. cbn [mbind option_bind].
    rewrite (pagesOf_lookup _ d freed) by apply lookup_insert_eq.
    reflexivity. }
  rewrite (run_cons _ _ _ _ Htick).
  destruct (removePending_snoc (AwaitingPollEvaluate d pageId) l1) as [l2 Hl2].
  eexists. split.
  { cbn [run step]. subst p3. rewrite Hx. unfold resume.
    cbn [pending suspend set_pending set_pages set_pageTimers].
    rewrite Hl2. cbn [mbind option_bind]. reflexivity. }
  cbn [delivered deliver set_pending set_pages set_pageTimers suspend].
  split; [reflexivity|].
  split.
  { rewrite (pagesOf_lookup _ d (<[j := markInUse x]> freed)) by apply lookup_insert_eq.
    rewrite length_insert. subst freed. apply length_map. }
  split.
  { cbn [pageTimers deliver set_pending suspend set_pages set_pageTimers].
    intros [_ Hn]%elem_of_difference. apply Hn, elem_of_singleton. reflexivity. }
  unfold creating. cbn [pending deliver set_pending].
  rewrite (removePending_filter_other _ _ _ (fun k => k = AwaitingNewPage d) Hl2)
    by discriminate.
  rewrite filter_app, length_app.
  rewrite (removePending_filter_other _ _ _ (fun k => k = AwaitingNewPage d) Hl1)
    by discriminate.
  rewrite filter_app, length_app.
  rewrite !filter_cons, !decide_False by discriminate. cbn. lia.
Qed.

Lemma released_page_goes_to_waiter_witness :
  step fullPool (Call "shop.example") = Some (suspend (Polling "shop.example") fullPool)
  /\ exists p',
       run fullPool [Call "shop.example"; Release "shop.example" 1;
                     PollTick "shop.example"; PollEvaluated "shop.example" 1 true]
       = Some p'
       /\ delivered p' = delivered fullPool ++ [Ok 1%nat]
       /\ length (pagesOf p' "shop.example")
          = length [mkPageData 1 true "shop.example"; mkPageData 2 true "shop.example"]
       /\ (1%nat ∉ pageTimers p')
       /\ creating p' "shop.example" = creating fullPool "shop.example".
Proof.
  apply (released_page_goes_to_waiter "shop.example" 1 fullPool
           [mkPageData 1 true "shop.example"; mkPageData 2 true "shop.example"]
           (mkPageData 1 true "shop.example")).
  - reflexivity.
  - reflexivity.
  - repeat constructor.
  - cbn. lia.
  - apply list_elem_of_here.
  - reflexivity.
Defined.

(** X16.  A pool whose browser has disconnected serves no page until it
    is closed: with no call suspended, every later [getPage] is rejected
    at once with "Browser is disconnected", whatever else happens to the
    pool; the browser reference stays in place and disconnected, and no
    page is tracked again. *)
Theorem disconnected_pool_serves_nothing (p : Pool) (evs : list Event) (p' : Pool) :
  browser p = Some false ->
  pending p = [] ->
  existsb isClose evs = false ->
  run p evs = Some p' ->
  browser p' = Some false
  /\ pending p' = []
  /\ delivered p'
     = delivered p ++ replicate (calls evs) (Throw "Browser is disconnected")
  /\ (pages p = ∅ -> pages p' = ∅).
Proof.
  revert p. induction evs as [|ev evs IH]; intros p Hb Hp Hnc Hrun.
  - injection Hrun as <-. cbn. rewrite app_nil_r. auto.
  - cbn [existsb] in Hnc. apply orb_false_elim in Hnc as [Hev Hnc].
    cbn [run] in Hrun.
    destruct (step p ev) as [p1|] eqn:Hstep; [|discriminate].
    cbn [mbind option_bind] in Hrun.
    assert (Hone : browser p1 = Some false /\ pending p1 = []
                   /\ delivered p1
                      = delivered p ++ (if isCall ev
                                        then [Throw "Browser is disconnected"] else [])
                   /\ (pages p = ∅ -> pages p1 = ∅)).
    { destruct ev as [d|d launch|d i pageId r|d outcome|d|d|d pageId r|d pageId|d pageId| | |];
        unfold step in Hstep; unfold resume in Hstep; try rewrite Hp in Hstep;
        cbn [removePending mbind option_bind isCall] in Hstep |- *;
        try discriminate; rewrite ?app_nil_r.
      - injection Hstep as <-. unfold getPage, afterInitialize. rewrite Hb.
        cbn. auto.
      - injection Hstep as <-. unfold release.
        destruct (pages p !! d) eqn:Hd; cbn; repeat split; auto.
        intros Hempty. rewrite Hempty, lookup_empty in Hd. discriminate.
      - destruct (bool_decide (pageId ∈ pageTimers p)); [|discriminate].
        injection Hstep as <-. unfold idleTimeout.
        destruct (pages p !! d) eqn:Hd; cbn; repeat split; auto.
        intros Hempty. rewrite Hempty, lookup_empty in Hd. discriminate.
      - injection Hstep as <-. unfold onDisconnected. rewrite Hb. cbn.
        destruct (onDisconnect p); cbn; auto.
      - injection Hstep as <-. cbn. auto. }
    destruct Hone as (Hb1 & Hp1 & Hd1 & Hpg1).
    destruct (IH p1 Hb1 Hp1 Hnc Hrun) as (Hb' & Hp' & Hd' & Hpg').
    split; [exact Hb'|]. split; [exact Hp'|]. split; [|auto].
    rewrite Hd', Hd1. unfold calls. rewrite filter_cons.
    destruct (isCall ev) eqn:Hcall.
    + rewrite decide_True by reflexivity. cbn. rewrite <- (assoc_L (++)). reflexivity.
    + rewrite decide_False by discriminate. rewrite app_nil_r. reflexivity.
Qed.

Lemma disconnected_pool_serves_nothing_witness :
  exists p',
    run disconnectedPool [Call "shop.example"; Release "shop.example" 1;
                          SetHandler; Call "other.example"] = Some p'
    /\ browser p' = Some false
    /\ pending p' = []
    /\ delivered p'
       = delivered disconnectedPool
         ++ replicate 2 (Throw "Browser is disconnected")
    /\ (pages disconnectedPool = ∅ -> pages p' = ∅).
Proof.
  eexists. split; [vm_compute; reflexivity|].
  apply (disconnected_pool_serves_nothing disconnectedPool
           [Call "shop.example"; Release "shop.example" 1; SetHandler;
            Call "other.example"]).
  - reflexivity.
  - reflexivity.
  - reflexivity.
  - vm_compute. reflexivity.
Defined.

Lemma removeIdle_keeps pageId l pd :
  pd ∈ l -> inUse pd = true -> pd ∈ removeIdle pageId l.
Proof.
  induction l as [|x l IH]; intros Hin Hpd; [inversion Hin|].
  cbn. destruct (id x =? pageId)%nat.
  - destruct (inUse x) eqn:Hx; [exact Hin|].
    apply elem_of_cons in Hin as [->|Hin]; [congruence | exact Hin].
  - apply elem_of_cons in Hin as [->|Hin].
    + apply list_elem_of_here.
    + apply list_elem_of_further, IH; assumption.
Qed.

Lemma removeIdle_one pageId l : (length l <= S (length (removeIdle pageId l)))%nat.
Proof.
  induction l as [|x l IH]; cbn; [lia|].
  destruct (id x =? pageId)%nat; [destruct (inUse x); cbn; lia | cbn; lia].
Qed.

Lemma removeIdle_inUse pageId l :
  filter (fun pd => inUse pd = true) (removeIdle pageId l)
  = filter (fun pd => inUse pd = true) l.
Proof.
  induction l as [|x l IH]; cbn [removeIdle]; [reflexivity|].
  destruct (id x =? pageId)%nat.
  - destruct (inUse x) eqn:Hx; [reflexivity|].
    rewrite (filter_cons _ x), decide_False by congruence. reflexivity.
  - rewrite !filter_cons, IH. reflexivity.
Qed.

(** X17.  The idle timer of a page never closes a page that is in use:
    when it fires, whatever the state of the pool, every leased page stays
    tracked and the number of pages in use does not change; at most one
    page is dropped, and the timer is gone. *)
Theorem idle_timer_spares_leased_pages (d : string) (pageId : nat) (p : Pool) :
  (forall d' pd, pd ∈ pagesOf p d' -> inUse pd = true ->
                 pd ∈ pagesOf (idleTimeout d pageId p) d')
  /\ (forall d', inUseCount (idleTimeout d pageId p) d' = inUseCount p d')
  /\ (forall d', (length (pagesOf p d')
                  <= S (length (pagesOf (idleTimeout d pageId p) d')))%nat)
  /\ (pageId ∉ pageTimers (idleTimeout d pageId p)).
Proof.
  assert (Hpages : forall d',
            pagesOf (idleTimeout d pageId p) d'
            = if decide (d = d') then removeIdle pageId (pagesOf p d') else pagesOf p d').
  { intros d'. unfold idleTimeout.
    destruct (pages p !! d) as [l|] eqn:Hl.
    - change (pagesOf (set_pageTimers ?t ?q) d') with (pagesOf q d').
      rewrite pagesOf_set_insert. destruct (decide (d = d')) as [<-|]; [|reflexivity].
      rewrite (pagesOf_lookup _ _ _ Hl). reflexivity.
    - change (pagesOf (set_pageTimers ?t ?q) d') with (pagesOf q d').
      destruct (decide (d = d')) as [<-|]; [|reflexivity].
      unfold pagesOf. rewrite Hl. reflexivity. }
  split; [|split; [|split]].
  - intros d' pd Hin Hpd. rewrite Hpages. destruct (decide (d = d')); [|exact Hin].
    apply removeIdle_keeps; assumption.
  - intros d'. unfold inUseCount. rewrite Hpages. destruct (decide (d = d')); [|reflexivity].
    rewrite removeIdle_inUse. reflexivity.
  - intros d'. rewrite Hpages. destruct (decide (d = d')); [apply removeIdle_one | lia].
  - unfold idleTimeout.
    destruct (pages p !! d); cbn; intros [_ Hn]%elem_of_difference;
      apply Hn, elem_of_singleton; reflexivity.
Qed.

End BrowserPoolProofs.

Module PriceScraperProofs.
Import PriceScraper.

Section WithEnv.

Variable E : Env.

(** ** The item boundary *)

Lemma processMaterialItem_returns item sv :
  exists r sv', processMaterialItem E item sv = (Ok r, sv').
Proof.
  unfold processMaterialItem, tryCatch.
  destruct (processMaterialItem_try E item sv) as [[r|m] sv']; cbn; eauto.
Qed.

Lemma bind_Ok {A B} (m : Async A) (k : A -> Async B) sv b sv' :
  bind m k sv = (Ok b, sv') ->
  exists a sv1, m sv = (Ok a, sv1) /\ k a sv1 = (Ok b, sv').
Proof.
  unfold bind. destruct (m sv) as [[a|msg] sv1]; [eauto | discriminate].
Qed.

Lemma processMaterialItem_try_item item sv r sv' :
  processMaterialItem_try E item sv = (Ok r, sv') -> materialItem r = item.
Proof.
  unfold processMaterialItem_try. intros H.
  apply bind_Ok in H as (? & sv1 & _ & H).
  apply bind_Ok in H as (itemSources & sv2 & _ & H).
  destruct (length itemSources =? 0)%nat.
  - injection H as <- _. reflexivity.
  - apply bind_Ok in H as (acc & sv3 & _ & H).
    apply bind_Ok in H as (updates & sv4 & _ & H).
    destruct (existsb (Nat.eqb (itemId item)) updates);
      injection H as <- _; reflexivity.
Qed.

Lemma processMaterialItem_item item sv r sv' :
  processMaterialItem E item sv = (Ok r, sv') -> materialItem r = item.
Proof.
  unfold processMaterialItem, tryCatch.
  destruct (processMaterialItem_try E item sv) as [[r0|m] sv0] eqn:Ht.
  - intros [= <- <-]. eapply processMaterialItem_try_item, Ht.
  - cbn. intros [= <- <-]. reflexivity.
Qed.

(** ** Bookkeeping of the loop *)

Lemma drop_cons_inv {A} (l : list A) i x r : drop i l = x :: r -> r = drop (S i) l.
Proof.
  revert i. induction l as [|a l IH]; intros [|i]; cbn; try discriminate.
  - intros [= _ <-]. symmetry. apply drop_0.
  - apply IH.
Qed.

Lemma recordResult_details results r :
  r_details (recordResult results r) = r_details results ++ [r].
Proof. unfold recordResult. destruct (success r); reflexivity. Qed.

Lemma recordResult_counted results r :
  Counted results -> Counted (recordResult results r).
Proof.
  unfold Counted, recordResult.
  destruct (success r); cbn; rewrite length_app; cbn; lia.
Qed.

Lemma recordFailure_counted results item m :
  Counted results -> Counted (recordFailure results item m).
Proof. unfold Counted, recordFailure. cbn. rewrite length_app. cbn. lia. Qed.

Lemma mergeRecovery_counted results r :
  Counted results -> Counted r -> Counted (mergeRecovery results (Resumed r)).
Proof. unfold Counted. cbn. rewrite length_app. lia. Qed.

Lemma processMaterialItem_faithful : Faithful (processMaterialItem E).
Proof. intros item sv r sv'. apply processMaterialItem_item. Qed.

Lemma processLoop_spec process recover items :
  Faithful process ->
  RecoverSpec items recover ->
  forall rest i results w res w',
    rest = drop i items ->
    processLoop process recover rest i results w = Some (res, w') ->
    exists new,
      log w' = log w ++ new
      /\ (Counted results -> Counted res)
      /\ (length (r_details res) <= length (r_details results) + length rest)%nat
      /\ (existsb isGiveUp new = false ->
          detailIds res = detailIds results ++ map itemId rest).
Proof.
  intros Hfaith Hrec rest.
  assert (Hmerge : forall i results w0 (line : LogLine) rr w1 res w' (item : MaterialItem) rest',
            isGiveUp line = false ->
            log w0 ++ [line] = log (logLine line w0) ->
            item :: rest' = drop i items ->
            recover i (logLine line w0) = Some (rr, w1) ->
            Some (mergeRecovery results rr, w1) = Some (res, w') ->
            exists new,
              log w' = log w0 ++ new
              /\ (Counted results -> Counted res)
              /\ (length (r_details res)
                  <= length (r_details results) + length (item :: rest'))%nat
              /\ (existsb isGiveUp new = false ->
                  detailIds res = detailIds results ++ map itemId (item :: rest'))).
  { intros i results w0 line rr w1 res w' item rest' Hline _ Hrest Hr [= <- <-].
    destruct (Hrec _ _ _ _ Hr) as (new0 & Hlog & Hspec).
    exists (line :: new0). split.
    { rewrite Hlog. cbn. rewrite <- app_assoc. reflexivity. }
    cbn [existsb]. rewrite Hline. cbn [orb].
    destruct rr as [r | msg processed total].
    - destruct Hspec as (Hc & Hlen & Hcov). rewrite <- Hrest in Hlen, Hcov.
      split; [intros Hres; apply mergeRecovery_counted; assumption|].
      split.
      + cbn [mergeRecovery r_details]. rewrite length_app. lia.
      + intros Hno. unfold detailIds. cbn [mergeRecovery r_details].
        rewrite map_app. f_equal. apply Hcov, Hno.
    - destruct Hspec as (Hgave & _ & _). cbn [mergeRecovery].
      split; [tauto|]. split; [lia|].
      intros Hno. congruence. }
  induction rest as [|item rest' IH]; intros i results w res w' Hrest Hrun.
  - cbn in Hrun. injection Hrun as <- <-. exists []. rewrite app_nil_r.
    split; [reflexivity|]. split; [tauto|]. split; [cbn; lia|].
    intros _. cbn. rewrite app_nil_r. reflexivity.
  - cbn [processLoop] in Hrun.
    destruct (browserMissing (services (set_currentIndex i w))).
    + destruct (recover i (logLine LogNotConnected (set_currentIndex i w)))
        as [[rr w1]|] eqn:Hr; [|discriminate].
      apply (Hmerge i results (set_currentIndex i w) LogNotConnected rr w1 res w'
               item rest'); auto.
    + destruct (process item (services (set_currentIndex i w))) as [[r|m] sv] eqn:Hp.
      * apply IH in Hrun; [|eapply drop_cons_inv; symmetry; exact Hrest].
        destruct Hrun as (new & Hlog & Hc & Hlen & Hcov).
        exists new. split; [exact Hlog|].
        split; [intros Hres; apply Hc, recordResult_counted, Hres|].
        rewrite recordResult_details, length_app in Hlen. cbn in Hlen.
        split; [cbn; lia|].
        intros Hno. rewrite (Hcov Hno). unfold detailIds.
        rewrite recordResult_details, map_app. cbn.
        rewrite (Hfaith _ _ _ _ Hp), <- app_assoc. reflexivity.
      * destruct (isDisconnectionMessage m || browserMissing sv).
        -- destruct (recover i (logLine (LogDisconnectionDetected m)
                                  (set_services sv (set_currentIndex i w))))
             as [[rr w1]|] eqn:Hr; [|discriminate].
           apply (Hmerge i results (set_services sv (set_currentIndex i w))
                    (LogDisconnectionDetected m) rr w1 res w' item rest'); auto.
        -- apply IH in Hrun; [|eapply drop_cons_inv; symmetry; exact Hrest].
           destruct Hrun as (new & Hlog & Hc & Hlen & Hcov).
           exists (LogItemError (itemId item) m :: new). split.
           { rewrite Hlog. cbn. rewrite <- app_assoc. reflexivity. }
           split; [intros Hres; apply Hc, recordFailure_counted, Hres|].
           cbn [recordFailure r_details] in Hlen. rewrite length_app in Hlen.
           cbn in Hlen. split; [cbn; lia|].
           cbn [existsb isGiveUp orb]. intros Hno. rewrite (Hcov Hno).
           unfold detailIds. cbn [recordFailure r_details]. rewrite map_app. cbn.
           rewrite <- app_assoc. reflexivity.
Qed.

Lemma recoverFromDisconnection_spec fuel items :
  RecoverSpec items (recoverFromDisconnection E fuel items).
Proof.
  induction fuel as [|fuel IH]; intros j w rr w' Hrun; [discriminate|].
  cbn [recoverFromDisconnection] in Hrun.
  destruct (MAX_RECOVERY_ATTEMPTS <=? recoveryAttempts w)%nat.
  - injection Hrun as <- <-. exists [LogExceeded]. split; [reflexivity|].
    cbn. auto.
  - destruct (poolInitialize E _) as [[[]|m] sv] eqn:Hinit.
    + match type of Hrun with
      | match processLoop ?p ?r ?rest ?i ?res0 ?w3 with _ => _ end = _ =>
          destruct (processLoop p r rest i res0 w3) as [[result w4]|] eqn:Hloop;
            [|discriminate];
          apply (processLoop_spec _ _ items processMaterialItem_faithful IH)
            in Hloop; [|reflexivity]
      end.
      destruct Hloop as (new & Hlog & Hc & Hlen & Hcov).
      assert (Hres : exists w5, rr = Resumed result /\ w' = w5 /\ log w5 = log w4).
      { destruct (length items <=? j + r_success result + r_failed result)%nat;
          injection Hrun as <- <-; eexists; repeat split; reflexivity. }
      destruct Hres as (w5 & -> & -> & Hlog5).
      exists (LogRecoveryAttempt (S (recoveryAttempts w))
              :: LogResuming j (length items) :: new).
      split.
      { rewrite Hlog5, Hlog. cbn. rewrite <- !app_assoc. reflexivity. }
      split; [apply Hc; reflexivity|].
      split; [cbn in Hlen; lia|].
      cbn [existsb isGiveUp orb]. intros Hno. apply Hcov in Hno. exact Hno.
    + destruct (isDisconnectionMessage m) eqn:Hm.
      * apply IH in Hrun. destruct Hrun as (new & Hlog & Hspec).
        exists (LogRecoveryAttempt (S (recoveryAttempts w))
                :: LogRecoveryError m :: new).
        split.
        { rewrite Hlog. cbn. rewrite <- !app_assoc. reflexivity. }
        cbn [existsb isGiveUp orb]. rewrite Hm. cbn [negb orb]. exact Hspec.
      * injection Hrun as <- <-.
        exists [LogRecoveryAttempt (S (recoveryAttempts w)); LogRecoveryError m].
        split; [cbn; rewrite <- app_assoc; reflexivity|].
        cbn. rewrite Hm. cbn. auto.
Qed.

Lemma processRemainingItems_spec fuel items startIndex w res w' :
  processRemainingItems E fuel items startIndex w = Some (res, w') ->
  exists new,
    log w' = log w ++ new
    /\ Counted res
    /\ (length (r_details res) <= length (drop startIndex items))%nat
    /\ (existsb isGiveUp new = false ->
        detailIds res = map itemId (drop startIndex items)).
Proof.
  unfold processRemainingItems. intros Hrun.
  apply (processLoop_spec _ _ items processMaterialItem_faithful
           (recoverFromDisconnection_spec fuel items)) in Hrun; [|reflexivity].
  destruct Hrun as (new & Hlog & Hc & Hlen & Hcov).
  exists new. split; [exact Hlog|].
  split; [apply Hc; reflexivity|].
  split; [cbn in Hlen; lia|].
  intros Hno. apply Hcov in Hno. exact Hno.
Qed.

(** ** Termination *)

Lemma processLoop_total process recover rest i results w :
  (forall j w0, recoveryAttempts w0 = recoveryAttempts w -> is_Some (recover j w0)) ->
  is_Some (processLoop process recover rest i results w).
Proof.
  revert i results w. induction rest as [|item rest' IH]; intros i results w Hrec.
  - cbn. eauto.
  - cbn [processLoop].
    destruct (browserMissing (services (set_currentIndex i w))).
    + destruct (Hrec i (logLine LogNotConnected (set_currentIndex i w)) eq_refl)
        as [[rr w1] ->]. eauto.
    + destruct (process item (services (set_currentIndex i w))) as [[r|m] sv].
      * apply IH. intros j w0 Hw0. apply Hrec. exact Hw0.
      * destruct (isDisconnectionMessage m || browserMissing sv).
        -- destruct (Hrec i (logLine (LogDisconnectionDetected m)
                               (set_services sv (set_currentIndex i w))) eq_refl)
             as [[rr w1] ->]. eauto.
        -- apply IH. intros j w0 Hw0. apply Hrec. exact Hw0.
Qed.

(** Every recovery cycle raises [recoveryAttempts] before it recurses,
    so a nesting depth of [MAX_RECOVERY_ATTEMPTS + 1] is never exceeded. *)
Lemma recoverFromDisconnection_total fuel items j w :
  (MAX_RECOVERY_ATTEMPTS - recoveryAttempts w < fuel)%nat ->
  is_Some (recoverFromDisconnection E fuel items j w).
Proof.
  revert j w. induction fuel as [|fuel IH]; intros j w Hfuel; [lia|].
  - cbn [recoverFromDisconnection].
    destruct (MAX_RECOVERY_ATTEMPTS <=? recoveryAttempts w)%nat eqn:Hmax; [eauto|].
    apply Nat.leb_gt in Hmax.
    destruct (poolInitialize E _) as [[[]|m] sv].
    + match goal with
      | |- is_Some (match processLoop ?p ?r ?rest ?i ?res0 ?w3 with _ => _ end) =>
          destruct (processLoop_total p r rest i res0 w3) as [[result w4] ->]
      end.
      * intros j0 w0 Hw0. apply IH. rewrite Hw0.
        cbn [recoveryAttempts logLine set_services beginRecovery].
        unfold MAX_RECOVERY_ATTEMPTS in *. lia.
      * destruct (length items <=? j + r_success result + r_failed result)%nat; eauto.
    + destruct (isDisconnectionMessage m); [|eauto].
      apply IH. cbn [recoveryAttempts logLine set_services beginRecovery].
      unfold MAX_RECOVERY_ATTEMPTS in *. lia.
Qed.

Lemma processRemainingItems_total fuel items startIndex w :
  (MAX_RECOVERY_ATTEMPTS - recoveryAttempts w < fuel)%nat ->
  is_Some (processRemainingItems E fuel items startIndex w).
Proof.
  intros Hfuel. unfold processRemainingItems. apply processLoop_total.
  intros j w0 Hw0. apply recoverFromDisconnection_total. rewrite Hw0. exact Hfuel.
Qed.

Lemma processAllMaterialItems_total fuel w :
  (MAX_RECOVERY_ATTEMPTS < fuel)%nat ->
  is_Some (processAllMaterialItems E fuel w).
Proof.
  intros Hfuel. unfold processAllMaterialItems.
  destruct (initialize E (services w)) as [[[]|m] sv]; [|eauto].
  destruct (await E (fetchMaterialItems E) sv) as [[materialItems|m] sv1]; [|eauto].
  match goal with
  | |- is_Some (match processRemainingItems E fuel ?its 0%nat ?w1 with _ => _ end) =>
      destruct (processRemainingItems_total fuel its 0%nat w1) as [[results w2] ->];
        [cbn [recoveryAttempts]; unfold MAX_RECOVERY_ATTEMPTS in *; lia|]
  end.
  match goal with
  | |- is_Some (match ?c with _ => _ end) => destruct c as [[materialUpdates|m] sv3]
  end; eauto.
Qed.

(** ** Persistent failure *)

Lemma close_browser p : BrowserPool.browser (BrowserPool.close p) = None.
Proof.
  unfold BrowserPool.close.
  destruct (BrowserPool.browser p) eqn:Hb; [reflexivity | exact Hb].
Qed.

Lemma recoverFromDisconnection_exhausts n :
  (forall k, exists m, launch E k = Some m /\ isDisconnectionMessage m = true) ->
  forall fuel items startIndex w,
    (recoveryAttempts w + n = MAX_RECOVERY_ATTEMPTS)%nat ->
    (n < fuel)%nat ->
    exists w',
      recoverFromDisconnection E fuel items startIndex w
      = Some (GaveUp "Exceeded maximum recovery attempts" startIndex (length items), w')
      /\ cooldowns w' = (cooldowns w + n)%nat
      /\ recoveryAttempts w' = MAX_RECOVERY_ATTEMPTS
      /\ clock (services w') = (clock (services w) + n)%nat.
Proof.
  intros Hdead. induction n as [|n IH]; intros fuel items startIndex w Hatt Hfuel.
  - destruct fuel as [|fuel]; [lia|]. cbn [recoverFromDisconnection].
    replace (MAX_RECOVERY_ATTEMPTS <=? recoveryAttempts w)%nat with true
      by (symmetry; apply Nat.leb_le; lia).
    eexists. split; [reflexivity|]. cbn. repeat split; lia.
  - destruct fuel as [|fuel]; [lia|]. cbn [recoverFromDisconnection].
    replace (MAX_RECOVERY_ATTEMPTS <=? recoveryAttempts w)%nat with false
      by (symmetry; apply Nat.leb_gt; lia).
    unfold poolInitialize, BrowserPool.initialize.
    cbn [services set_services beginRecovery poolClose pool clock].
    rewrite close_browser.
    destruct (Hdead (clock (services w))) as (m & Hlaunch & Hm).
    rewrite Hlaunch, Hm.
    match goal with
    | |- exists w', recoverFromDisconnection E fuel items startIndex ?w3 = _ /\ _ =>
        destruct (IH fuel items startIndex w3) as (w' & Hrun & Hcool & Hrec & Hclock);
          [cbn [recoveryAttempts logLine set_services beginRecovery]; lia | lia |]
    end.
    exists w'. split; [exact Hrun|]. cbn in Hcool, Hclock.
    repeat split; lia.
Qed.

(** ** Waits and the [isInitialized] flag *)

Lemma keeps_ret {A} (a : A) : KeepsInitialized (ret a).
Proof. intros sv r sv' [= _ <-] H. exact H. Qed.

Lemma keeps_bind {A B} (m : Async A) (k : A -> Async B) :
  KeepsInitialized m -> (forall a, KeepsInitialized (k a)) -> KeepsInitialized (bind m k).
Proof.
  intros Hm Hk sv r sv'. unfold bind.
  destruct (m sv) as [[a|msg] sv1] eqn:Hrun.
  - intros Hka Hi. eapply Hk; [exact Hka|]. eapply Hm; eassumption.
  - intros [= _ <-] Hi. eapply Hm; eassumption.
Qed.

Lemma keeps_tryCatch {A} (m : Async A) (h : string -> Async A) :
  KeepsInitialized m -> (forall msg, KeepsInitialized (h msg)) ->
  KeepsInitialized (tryCatch m h).
Proof.
  intros Hm Hh sv r sv'. unfold tryCatch.
  destruct (m sv) as [[a|msg] sv1] eqn:Hrun.
  - intros [= _ <-] Hi. eapply Hm; eassumption.
  - intros Hha Hi. eapply Hh; [exact Hha|]. eapply Hm; eassumption.
Qed.

Lemma keeps_await {A} (answer : nat -> Reply A) : KeepsInitialized (await E answer).
Proof. intros sv r sv'. unfold await. intros [= _ <-] H. exact H. Qed.

Lemma keeps_poolInitialize : KeepsInitialized (poolInitialize E).
Proof.
  intros sv r sv'. unfold poolInitialize.
  destruct (BrowserPool.browser (pool sv)); [intros [= _ <-] H; exact H|].
  destruct (BrowserPool.initialize _ _); intros [= _ <-] H; exact H.
Qed.

Lemma keeps_initialize : KeepsInitialized (initialize E).
Proof.
  intros sv r sv'. unfold initialize. intros Hrun Hi. rewrite Hi in Hrun.
  injection Hrun as _ <-. exact Hi.
Qed.

Lemma initialize_sets_flag sv sv' :
  initialize E sv = (Ok tt, sv') -> isInitialized sv' = true.
Proof.
  unfold initialize. destruct (isInitialized sv) eqn:Hi.
  - intros [= <-]. exact Hi.
  - intros H. apply bind_Ok in H as (? & sv1 & _ & H).
    apply bind_Ok in H as (? & sv2 & _ & H). injection H as <-. reflexivity.
Qed.

Lemma processItemSource_try_flag source item sv r o sv' :
  processItemSource_try E source item sv = (r, o, sv') ->
  isInitialized sv' = isInitialized sv.
Proof.
  unfold processItemSource_try, await. intros H.
  repeat case_match; simplify_eq; reflexivity.
Qed.

Lemma keeps_processItemSource source item : KeepsInitialized (processItemSource E source item).
Proof.
  intros sv r sv'. unfold processItemSource.
  destruct (processItemSource_try E source item sv) as [[r0 o] sv0] eqn:Ht.
  apply processItemSource_try_flag in Ht.
  destruct o as [m|].
  - destruct (isDisconnectionMessage m || browserMissing sv0);
      intros [= _ <-] Hi; congruence.
  - intros [= _ <-] Hi. congruence.
Qed.

Lemma keeps_processDomainLoop pairs : forall acc, KeepsInitialized (processDomainLoop E pairs acc).
Proof.
  induction pairs as [|[item source] rest IH]; intros acc; cbn [processDomainLoop].
  - apply keeps_ret.
  - intros sv r sv'. destruct (browserMissing sv).
    + intros [= _ <-] Hi. exact Hi.
    + apply keeps_bind; [apply keeps_processItemSource | intros a; apply IH].
Qed.

Lemma keeps_processDomainItems domain pairs :
  KeepsInitialized (processDomainItems E domain pairs).
Proof.
  unfold processDomainItems.
  apply keeps_bind; [apply keeps_processDomainLoop|]. intros acc.
  apply keeps_bind.
  { destruct (0 <? length (outdatedBatch acc))%nat; [apply keeps_await | apply keeps_ret]. }
  intros _. apply keeps_bind.
  { destruct (0 <? length (updateBatch acc))%nat; [apply keeps_await | apply keeps_ret]. }
  intros _. apply keeps_ret.
Qed.

Lemma keeps_processDomains item groups :
  forall acc, KeepsInitialized (processDomains E item groups acc).
Proof.
  induction groups as [|[domain pairs] rest IH]; intros acc; cbn [processDomains].
  - apply keeps_ret.
  - apply keeps_bind; [|intros a; apply IH].
    apply keeps_tryCatch.
    + apply keeps_bind; [apply keeps_processDomainItems | intros a; apply keeps_ret].
    + intros msg sv r sv'.
      destruct (isDisconnectionMessage msg || browserMissing sv);
        intros [= _ <-] Hi; exact Hi.
Qed.

Lemma keeps_updateMaterialItems updates : KeepsInitialized (updateMaterialItems E updates).
Proof.
  unfold updateMaterialItems.
  destruct (length updates =? 0)%nat; [apply keeps_ret | apply keeps_await].
Qed.

Lemma keeps_processMaterialItem item : KeepsInitialized (processMaterialItem E item).
Proof.
  unfold processMaterialItem. apply keeps_tryCatch; [|intros msg; apply keeps_ret].
  unfold processMaterialItem_try.
  apply keeps_bind; [apply keeps_initialize|]. intros _.
  apply keeps_bind; [apply keeps_await|]. intros itemSources.
  destruct (length itemSources =? 0)%nat; [apply keeps_ret|].
  apply keeps_bind; [apply keeps_processDomains|]. intros acc.
  apply keeps_bind; [apply keeps_updateMaterialItems|]. intros updates.
  destruct (existsb (Nat.eqb (itemId item)) updates); apply keeps_ret.
Qed.

Lemma withinWaits_refl w : WithinWaits w w.
Proof. unfold WithinWaits. repeat split; [lia | lia | auto]. Qed.

Lemma processLoop_waits process recover :
  (forall item, KeepsInitialized (process item)) ->
  RecoverWaits recover ->
  forall rest i results w res w',
    processLoop process recover rest i results w = Some (res, w') ->
    WithinWaits w w'
    /\ (rest <> [] -> browserMissing (services w) = true ->
        (recoveryAttempts w < MAX_RECOVERY_ATTEMPTS)%nat ->
        (S (cooldowns w) <= cooldowns w')%nat).
Proof.
  intros Hkeep Hrec rest.
  induction rest as [|item rest' IH]; intros i results w res w' Hrun.
  - cbn in Hrun. injection Hrun as _ <-. split; [apply withinWaits_refl | congruence].
  - cbn [processLoop] in Hrun.
    change (browserMissing (services (set_currentIndex i w)))
      with (browserMissing (services w)) in Hrun.
    destruct (browserMissing (services w)) eqn:Hmiss.
    + destruct (recover i (logLine LogNotConnected (set_currentIndex i w)))
        as [[rr w1]|] eqn:Hr; [|discriminate].
      injection Hrun as _ <-. apply Hrec in Hr as [Hw Hlow]. split; [exact Hw|].
      intros _ _ Hatt. apply Hlow, Hatt.
    + split; [|discriminate].
      destruct (process item (services (set_currentIndex i w))) as [[r|m] sv] eqn:Hp.
      * apply IH in Hrun as [(Hlo & Hhi & Hinit) _].
        cbn [cooldowns recoveryAttempts services set_services set_currentIndex]
          in Hlo, Hhi, Hinit.
        repeat split; [exact Hlo | exact Hhi |].
        intros Hi. apply Hinit. eapply Hkeep; [exact Hp | exact Hi].
      * destruct (isDisconnectionMessage m || browserMissing sv).
        -- destruct (recover i _) as [[rr w1]|] eqn:Hr; [|discriminate].
           injection Hrun as _ <-. apply Hrec in Hr as [(Hlo & Hhi & Hinit) _].
           cbn [cooldowns recoveryAttempts services set_services set_currentIndex logLine]
             in Hlo, Hhi, Hinit.
           repeat split; [exact Hlo | exact Hhi |].
           intros Hi. apply Hinit. eapply Hkeep; [exact Hp | exact Hi].
        -- apply IH in Hrun as [(Hlo & Hhi & Hinit) _].
           cbn [cooldowns recoveryAttempts services set_services set_currentIndex logLine]
             in Hlo, Hhi, Hinit.
           repeat split; [exact Hlo | exact Hhi |].
           intros Hi. apply Hinit. eapply Hkeep; [exact Hp | exact Hi].
Qed.

Lemma recoverFromDisconnection_waits fuel items :
  RecoverWaits (recoverFromDisconnection E fuel items).
Proof.
  induction fuel as [|fuel IH]; intros j w rr w' Hrun; [discriminate|].
  cbn [recoverFromDisconnection] in Hrun.
  destruct (MAX_RECOVERY_ATTEMPTS <=? recoveryAttempts w)%nat eqn:Hmax.
  - injection Hrun as _ <-. apply Nat.leb_le in Hmax.
    split; [|lia]. unfold WithinWaits. cbn [cooldowns recoveryAttempts services logLine].
    repeat split; [lia | lia | auto].
  - apply Nat.leb_gt in Hmax.
    destruct (poolInitialize E _) as [[[]|m] sv] eqn:Hinit.
    + match type of Hrun with
      | match processLoop ?p ?r ?rest ?i ?res0 ?w3 with _ => _ end = _ =>
          destruct (processLoop p r rest i res0 w3) as [[result w4]|] eqn:Hloop;
            [|discriminate];
          apply (processLoop_waits _ _ keeps_processMaterialItem IH) in Hloop
      end.
      destruct Hloop as [(Hlo & Hhi & Hkeep) _].
      cbn [cooldowns recoveryAttempts services set_services logLine beginRecovery]
        in Hlo, Hhi, Hkeep.
      assert (Hw : cooldowns w' = cooldowns w4 /\ services w' = services w4).
      { destruct (length items <=? j + r_success result + r_failed result)%nat;
          injection Hrun as _ <-; split; reflexivity. }
      destruct Hw as [Hc Hs]. unfold WithinWaits. rewrite Hc, Hs.
      repeat split; try lia.
      intros Hi. apply Hkeep. eapply keeps_poolInitialize; [exact Hinit|]. exact Hi.
    + destruct (isDisconnectionMessage m).
      * apply IH in Hrun as [(Hlo & Hhi & Hkeep) _].
        cbn [cooldowns recoveryAttempts services set_services logLine beginRecovery]
          in Hlo, Hhi, Hkeep.
        unfold WithinWaits. repeat split; try lia.
        intros Hi. apply Hkeep. eapply keeps_poolInitialize; [exact Hinit|]. exact Hi.
      * injection Hrun as _ <-. unfold WithinWaits.
        cbn [cooldowns recoveryAttempts services set_services logLine beginRecovery].
        repeat split; try lia.
        intros Hi. eapply keeps_poolInitialize; [exact Hinit|]. exact Hi.
Qed.

Lemma cooldowns_if (b : bool) sv sv' w :
  cooldowns (if b then set_services sv w else set_services sv' (set_services sv w))
  = cooldowns w.
Proof. destruct b; reflexivity. Qed.

Lemma processAllMaterialItems_waits fuel w res w' :
  processAllMaterialItems E fuel w = Some (res, w') ->
  (cooldowns w <= cooldowns w')%nat
  /\ (cooldowns w' <= cooldowns w + MAX_RECOVERY_ATTEMPTS)%nat
  /\ (forall items results, res = Completed items results ->
        isInitialized (services w') = true
        /\ (isRecovering w' = false -> browserMissing (services w') = true))
  /\ (forall item rest,
        isInitialized (services w) = true ->
        browserMissing (services w) = true ->
        fetchMaterialItems E (clock (services w)) = Ok (item :: rest) ->
        (S (cooldowns w) <= cooldowns w')%nat).
Proof.
  unfold processAllMaterialItems, abortBatch. intros Hrun.
  destruct (initialize E (services w)) as [[[]|m] sv] eqn:Hinit.
  2:{ injection Hrun as <- <-. rewrite !cooldowns_if.
      split; [lia|]. split; [lia|]. split; [discriminate|].
      intros item rest Hi. unfold initialize in Hinit. rewrite Hi in Hinit.
      discriminate. }
  pose proof (initialize_sets_flag _ _ Hinit) as Hflag.
  destruct (await E (fetchMaterialItems E) sv) as [[materialItems|m] sv1] eqn:Hfetch.
  2:{ injection Hrun as <- <-. rewrite !cooldowns_if.
      split; [lia|]. split; [lia|]. split; [discriminate|].
      intros item rest Hi _ Hf. unfold initialize in Hinit. rewrite Hi in Hinit.
      injection Hinit as <-. unfold await in Hfetch. rewrite Hf in Hfetch.
      discriminate. }
  pose proof (keeps_await _ _ _ _ Hfetch Hflag) as Hflag1.
  destruct (processRemainingItems E fuel materialItems 0 _) as [[results w2]|] eqn:Hloop;
    [|discriminate].
  unfold processRemainingItems in Hloop.
  apply (processLoop_waits _ _ keeps_processMaterialItem
           (recoverFromDisconnection_waits fuel materialItems)) in Hloop.
  destruct Hloop as [(Hlo & Hhi & Hkeep) Hfirst].
  cbn [cooldowns recoveryAttempts services] in Hlo, Hhi, Hkeep, Hfirst.
  specialize (Hkeep Hflag1).
  assert (Hend : cooldowns w' = cooldowns w2
                 /\ (forall items rs, res = Completed items rs ->
                       isInitialized (services w') = true
                       /\ (isRecovering w' = false -> browserMissing (services w') = true))).
  { destruct ((if (0 <? length (r_updatedItemSources results))%nat
               then updateMaterialItems E (r_updatedItemSources results)
               else ret []) (services w2)) as [[materialUpdates|m] sv3] eqn:Hupd.
    - injection Hrun as <- <-.
      assert (Hi3 : isInitialized sv3 = true).
      { destruct (0 <? length (r_updatedItemSources results))%nat.
        - eapply keeps_updateMaterialItems; eassumption.
        - injection Hupd as _ <-. exact Hkeep. }
      cbn [snd await set_services services isRecovering cooldowns].
      destruct (isRecovering w2) eqn:Hrec;
        cbn [cooldowns services set_services isRecovering poolClose isInitialized];
        (split; [reflexivity|]); intros items rs _;
        (split; [exact Hi3|]).
      + rewrite Hrec. discriminate.
      + intros _. unfold browserMissing, poolClose. cbn [pool]. rewrite close_browser.
        reflexivity.
    - injection Hrun as <- <-. rewrite cooldowns_if. split; [reflexivity | discriminate]. }
  destruct Hend as [Hc Hdone]. rewrite Hc.
  unfold MAX_RECOVERY_ATTEMPTS in *.
  split; [lia|]. split; [lia|]. split; [exact Hdone|].
  intros item rest Hi Hmiss Hf.
  unfold initialize in Hinit. rewrite Hi in Hinit. injection Hinit as <-.
  unfold await in Hfetch. rewrite Hf in Hfetch. injection Hfetch as <- <-.
  apply Hfirst; [discriminate | | lia].
  unfold browserMissing in Hmiss |- *. cbn [pool services].
  destruct (poolClosedDuring E (clock (services w)));
    [rewrite close_browser; reflexivity | exact Hmiss].
Qed.

End WithEnv.

(** ** Recovery bound *)

Lemma recover_at_limit E fuel items startIndex w :
  (MAX_RECOVERY_ATTEMPTS <= recoveryAttempts w)%nat ->
  recoverFromDisconnection E (S fuel) items startIndex w
  = Some (GaveUp "Exceeded maximum recovery attempts" startIndex (length items),
          logLine LogExceeded w).
Proof.
  intros Hmax. cbn [recoverFromDisconnection].
  replace (MAX_RECOVERY_ATTEMPTS <=? recoveryAttempts w)%nat with true
    by (symmetry; apply Nat.leb_le; exact Hmax).
  reflexivity.
Qed.

Lemma recover_launch_error E n :
  forall fuel items startIndex w m,
    (forall k, (k < n)%nat ->
       exists m', launch E (clock (services w) + k) = Some m'
                  /\ isDisconnectionMessage m' = true) ->
    launch E (clock (services w) + n) = Some m ->
    isDisconnectionMessage m = false ->
    (recoveryAttempts w + n < MAX_RECOVERY_ATTEMPTS)%nat ->
    (n < fuel)%nat ->
    exists w',
      recoverFromDisconnection E fuel items startIndex w
      = Some (GaveUp m startIndex (length items), w')
      /\ cooldowns w' = (cooldowns w + S n)%nat.
Proof.
  induction n as [|n IH]; intros fuel items startIndex w m Hclass Hlaunch Hm Hatt Hfuel.
  - destruct fuel as [|fuel]; [lia|]. cbn [recoverFromDisconnection].
    replace (MAX_RECOVERY_ATTEMPTS <=? recoveryAttempts w)%nat with false
      by (symmetry; apply Nat.leb_gt; lia).
    unfold poolInitialize, BrowserPool.initialize.
    cbn [services set_services beginRecovery poolClose pool clock].
    rewrite close_browser. rewrite Nat.add_0_r in Hlaunch. rewrite Hlaunch, Hm.
    eexists. split; [reflexivity|]. cbn. lia.
  - destruct fuel as [|fuel]; [lia|]. cbn [recoverFromDisconnection].
    replace (MAX_RECOVERY_ATTEMPTS <=? recoveryAttempts w)%nat with false
      by (symmetry; apply Nat.leb_gt; lia).
    unfold poolInitialize, BrowserPool.initialize.
    cbn [services set_services beginRecovery poolClose pool clock].
    rewrite close_browser.
    destruct (Hclass 0%nat) as (m0 & Hl0 & Hm0); [lia|].
    rewrite Nat.add_0_r in Hl0. rewrite Hl0, Hm0.
    match goal with
    | |- exists w', recoverFromDisconnection E fuel items startIndex ?w3 = _ /\ _ =>
        destruct (IH fuel items startIndex w3 m) as (w' & Hrun & Hcool)
    end.
    + intros k Hk. cbn [services set_services logLine beginRecovery clock].
      destruct (Hclass (S k)) as (m' & Hl & Hm'); [lia|].
      exists m'. split; [|exact Hm']. rewrite <- Hl. f_equal. lia.
    + cbn [services set_services logLine beginRecovery clock].
      rewrite <- Hlaunch. f_equal. lia.
    + exact Hm.
    + cbn [recoveryAttempts logLine set_services beginRecovery]. lia.
    + lia.
    + exists w'. split; [exact Hrun|]. cbn in Hcool. lia.
Qed.

(** C1 (as amended).  The recovery routine always returns, after at most
    the cycles left on the attempts counter, five from a fresh counter,
    and a failure result it returns carries [startIndex] as the number
    of items processed and the total item count.  When every relaunch is
    rejected with a disconnection-class error it goes through exactly
    the cycles left, one wait and one launch each, and returns the
    failure result "Exceeded maximum recovery attempts".  A relaunch
    rejected with any other error ends the routine at that cycle with a
    failure result carrying that error. *)
Theorem recovery_bound (E : Env) (fuel : nat) (items : list MaterialItem)
    (startIndex : nat) (w : World) :
  (MAX_RECOVERY_ATTEMPTS < fuel)%nat ->
  (exists rr w',
      recoverFromDisconnection E fuel items startIndex w = Some (rr, w')
      /\ (cooldowns w <= cooldowns w')%nat
      /\ (cooldowns w' <= cooldowns w + (MAX_RECOVERY_ATTEMPTS - recoveryAttempts w))%nat
      /\ (forall error processed total,
            rr = GaveUp error processed total ->
            processed = startIndex /\ total = length items))
  /\ ((forall k, exists m, launch E k = Some m /\ isDisconnectionMessage m = true) ->
      exists w',
        recoverFromDisconnection E fuel items startIndex w
        = Some (GaveUp "Exceeded maximum recovery attempts" startIndex (length items), w')
        /\ cooldowns w'
           = (cooldowns w + (MAX_RECOVERY_ATTEMPTS - recoveryAttempts w))%nat
        /\ clock (services w')
           = (clock (services w) + (MAX_RECOVERY_ATTEMPTS - recoveryAttempts w))%nat)
  /\ (forall n m,
        (forall k, (k < n)%nat ->
           exists m', launch E (clock (services w) + k) = Some m'
                      /\ isDisconnectionMessage m' = true) ->
        launch E (clock (services w) + n) = Some m ->
        isDisconnectionMessage m = false ->
        (recoveryAttempts w + n < MAX_RECOVERY_ATTEMPTS)%nat ->
        exists w',
          recoverFromDisconnection E fuel items startIndex w
          = Some (GaveUp m startIndex (length items), w')
          /\ cooldowns w' = (cooldowns w + S n)%nat).
Proof.
  intros Hfuel. split; [|split].
  - destruct (recoverFromDisconnection_total E fuel items startIndex w)
      as [[rr w'] Hrun]; [lia|].
    exists rr, w'. split; [exact Hrun|].
    destruct (recoverFromDisconnection_waits E fuel items _ _ _ _ Hrun)
      as [(Hlo & Hhi & _) _].
    split; [exact Hlo|]. split; [exact Hhi|].
    intros error processed total ->.
    destruct (recoverFromDisconnection_spec E fuel items _ _ _ _ Hrun)
      as (new & _ & _ & Hp & Ht).
    auto.
  - intros Hdead.
    destruct (le_lt_dec MAX_RECOVERY_ATTEMPTS (recoveryAttempts w)) as [Hle|Hlt].
    + destruct fuel as [|fuel]; [lia|].
      rewrite (recover_at_limit E fuel items startIndex w Hle).
      eexists. split; [reflexivity|].
      replace (MAX_RECOVERY_ATTEMPTS - recoveryAttempts w)%nat with 0%nat by lia.
      cbn. lia.
    + destruct (recoverFromDisconnection_exhausts E
                  (MAX_RECOVERY_ATTEMPTS - recoveryAttempts w) Hdead
                  fuel items startIndex w)
        as (w' & Hrun & Hcool & _ & Hclock); [lia | lia |].
      exists w'. auto.
  - intros n m Hclass Hlaunch Hm Hatt.
    apply (recover_launch_error E n fuel items startIndex w m); try assumption.
    unfold MAX_RECOVERY_ATTEMPTS in *. lia.
Qed.

Lemma recovery_bound_witness :
  (exists rr w',
      recoverFromDisconnection deadEnv 6 [bolt; nut] 0 connectedWorld = Some (rr, w')
      /\ (cooldowns connectedWorld <= cooldowns w')%nat
      /\ (cooldowns w' <= cooldowns connectedWorld
                          + (MAX_RECOVERY_ATTEMPTS - recoveryAttempts connectedWorld))%nat
      /\ (forall error processed total,
            rr = GaveUp error processed total ->
            processed = 0%nat /\ total = length [bolt; nut]))
  /\ ((forall k, exists m, launch deadEnv k = Some m /\ isDisconnectionMessage m = true) ->
      exists w',
        recoverFromDisconnection deadEnv 6 [bolt; nut] 0 connectedWorld
        = Some (GaveUp "Exceeded maximum recovery attempts" 0 (length [bolt; nut]), w')
        /\ cooldowns w'
           = (cooldowns connectedWorld
              + (MAX_RECOVERY_ATTEMPTS - recoveryAttempts connectedWorld))%nat
        /\ clock (services w')
           = (clock (services connectedWorld)
              + (MAX_RECOVERY_ATTEMPTS - recoveryAttempts connectedWorld))%nat)
  /\ (forall n m,
        (forall k, (k < n)%nat ->
           exists m', launch deadEnv (clock (services connectedWorld) + k) = Some m'
                      /\ isDisconnectionMessage m' = true) ->
        launch deadEnv (clock (services connectedWorld) + n) = Some m ->
        isDisconnectionMessage m = false ->
        (recoveryAttempts connectedWorld + n < MAX_RECOVERY_ATTEMPTS)%nat ->
        exists w',
          recoverFromDisconnection deadEnv 6 [bolt; nut] 0 connectedWorld
          = Some (GaveUp m 0 (length [bolt; nut]), w')
          /\ cooldowns w' = (cooldowns connectedWorld + S n)%nat).
Proof.
  apply (recovery_bound deadEnv 6 [bolt; nut] 0 connectedWorld).
  unfold MAX_RECOVERY_ATTEMPTS. lia.
Defined.

(** C1 as stated fails here.  The browser never comes back, every launch
    being rejected with "Failed to launch the browser process!": the
    recovery gives up after one cycle, not five, with a failure result
    that carries the launch error, the start index and the total. *)
Lemma recovery_stops_at_launch_error :
  exists w',
    recoverFromDisconnection brokenLaunchEnv 6 [bolt; nut] 0 connectedWorld
    = Some (GaveUp "Failed to launch the browser process!" 0 2, w')
    /\ cooldowns w' = 1%nat
    /\ cooldowns w' <> MAX_RECOVERY_ATTEMPTS.
Proof.
  eexists. split; [vm_compute; reflexivity|].
  split; [reflexivity | discriminate].
Qed.

(** ** Resuming after a recovery *)

(** C2 (the code does not retry the interrupted item).  Whatever is
    thrown while a material item is processed is caught by
    [processMaterialItem] itself and returned as a failure record, so
    the catch block of [processRemainingItems] that would recover at the
    index of the item in flight is never entered.  With the pool closed
    by another party while the sources of bolt, the item at index 0, are
    fetched, the lost browser is met inside the processing of bolt: bolt
    is recorded as failed once, with the disconnection as its error, the
    missing browser is noticed at index 1, and the recovery that follows
    resumes at index 1; bolt is not processed again.  With the pool left
    alone and a disconnection-class error thrown while the source of bolt
    is processed, bolt is recorded as failed in the same way and no
    recovery takes place at all. *)
Theorem interrupted_item_not_retried :
  (exists res w',
      processRemainingItems interruptedEnv 6 [bolt; nut; washer] 0 connectedWorld
      = Some (res, w')
      /\ r_details res
         = [mkItemResult false bolt [] None
              (Some ("Browser disconnection during domain processing: "
                     +:+ "Browser disconnected during domain processing"));
            mkItemResult false nut [] None None;
            mkItemResult false washer [] None None]
      /\ (r_success res, r_failed res) = (0%nat, 3%nat)
      /\ log w' = [LogNotConnected; LogRecoveryAttempt 1; LogResuming 1 3]
      /\ cooldowns w' = 1%nat)
  /\ (exists res w',
        processRemainingItems droppedConnectionEnv 6 [bolt; nut; washer] 0 connectedWorld
        = Some (res, w')
        /\ r_details res
           = [mkItemResult false bolt [] None
                (Some ("Browser disconnection during domain processing: "
                       +:+ "Browser disconnection during item source processing: "
                       +:+ socketDisconnected));
              mkItemResult false nut [] None None;
              mkItemResult false washer [] None None]
        /\ (r_success res, r_failed res) = (0%nat, 3%nat)
        /\ log w' = []
        /\ cooldowns w' = 0%nat).
Proof.
  split.
  - eexists _, _. split; [vm_compute; reflexivity|].
    repeat split; reflexivity.
  - eexists _, _. split; [vm_compute; reflexivity|].
    repeat split; reflexivity.
Qed.

(** ** Result accounting *)

(** C3 (the code loses the count of the abandoned items).  A second
    batch run in the same process finds the pool closed by the first run
    ([isInitialized] is still true) and the browser refusing to start:
    recovery is exhausted at the first of the two fetched items, its
    give-up object, which carries the number of items processed and the
    total, is merged into the results as zeros, and the run returns,
    as a success, counts that add up to 0, not 2, with no detail. *)
Lemma accounting_misses_abandoned_items :
  exists res w',
    twoRuns secondRunEnv 6 freshWorld = Some (Completed [bolt; nut] res, w')
    /\ (r_success res + r_failed res + r_skipped res = 0)%nat
    /\ r_details res = []
    /\ (r_success res + r_failed res + r_skipped res)%nat <> length [bolt; nut].
Proof.
  eexists _, _. split; [vm_compute; reflexivity|].
  cbn. repeat split; try reflexivity. discriminate.
Qed.

(** ** Error containment *)

Lemma processItemSource_try_failure E source item sv result message sv' :
  processItemSource_try E source item sv = (result, Some message, sv') ->
  sr_success result = false.
Proof.
  unfold processItemSource_try. intros H.
  repeat case_match; simplify_eq; reflexivity.
Qed.

(** Where an error of the [try] block of [processItemSource] comes
    from: the browser check at its head, or a collaborator. *)
Lemma processItemSource_try_origin E source item sv result message sv' :
  processItemSource_try E source item sv = (result, Some message, sv') ->
  browserMissing sv = true
  \/ (exists k s, extractPriceFromImage E k s = Throw message)
  \/ (exists k i, markUrlAsOutdated E k i = Throw message)
  \/ (exists k i, updateItemSource E k i = Throw message).
Proof.
  unfold processItemSource_try, await. intros H.
  repeat case_match; simplify_eq; eauto 10.
Qed.

Lemma processItemSource_ids E source item sv r sv' :
  processItemSource E source item sv = (Ok r, sv') ->
  sr_id r = sourceId source /\ sr_materialItemId r = itemId item.
Proof.
  unfold processItemSource, processItemSource_try, await. intros H.
  repeat case_match; simplify_eq; cbn; split; reflexivity.
Qed.

Section Containment.

Variable E : Env.
Hypothesis Hstay : PoolStays E.

Lemma stays_ret {A} (a : A) : StaysConnected (ret a).
Proof. intros sv r sv' [= _ <-] H. exact H. Qed.

Lemma stays_bind {A B} (m : Async A) (k : A -> Async B) :
  StaysConnected m -> (forall a, StaysConnected (k a)) -> StaysConnected (bind m k).
Proof.
  intros Hm Hk sv r sv'. unfold bind.
  destruct (m sv) as [[a|msg] sv1] eqn:Hrun.
  - intros Hka Hb. eapply Hk; [exact Hka|]. eapply Hm; eassumption.
  - intros [= _ <-] Hb. eapply Hm; eassumption.
Qed.

Lemma stays_tryCatch {A} (m : Async A) (h : string -> Async A) :
  StaysConnected m -> (forall msg, StaysConnected (h msg)) ->
  StaysConnected (tryCatch m h).
Proof.
  intros Hm Hh sv r sv'. unfold tryCatch.
  destruct (m sv) as [[a|msg] sv1] eqn:Hrun.
  - intros [= _ <-] Hb. eapply Hm; eassumption.
  - intros Hha Hb. eapply Hh; [exact Hha|]. eapply Hm; eassumption.
Qed.

Lemma stays_await {A} (answer : nat -> Reply A) : StaysConnected (await E answer).
Proof.
  intros sv r sv'. unfold await. rewrite Hstay. intros [= _ <-] H. exact H.
Qed.

Lemma stays_poolInitialize : StaysConnected (poolInitialize E).
Proof.
  intros sv r sv'. unfold poolInitialize, browserMissing.
  destruct (BrowserPool.browser (pool sv)) eqn:Hb; [|discriminate].
  intros [= _ <-] _. rewrite Hb. reflexivity.
Qed.

Lemma stays_initialize : StaysConnected (initialize E).
Proof.
  intros sv r sv'. unfold initialize.
  destruct (isInitialized sv); [intros [= _ <-] H; exact H|].
  apply stays_bind; [apply stays_poolInitialize|]. intros _.
  apply stays_bind; [apply stays_await|]. intros _.
  intros sv0 r0 sv1 [= _ <-] H. exact H.
Qed.

Lemma await_stays {A} (answer : nat -> Reply A) sv :
  await E answer sv
  = (answer (clock sv), mkServices (pool sv) (isInitialized sv) (S (clock sv))).
Proof. unfold await. rewrite Hstay. reflexivity. Qed.

Lemma processItemSource_try_connected source item sv r o sv' :
  processItemSource_try E source item sv = (r, o, sv') ->
  browserMissing sv' = browserMissing sv.
Proof.
  unfold processItemSource_try. intros H.
  repeat match type of H with
         | context [await E ?a ?s] => rewrite (await_stays a s) in H; cbn [snd] in H
         | context [match ?x with _ => _ end] => destruct x eqn:?
         end;
    simplify_eq; unfold browserMissing in *; cbn [pool] in *; congruence.
Qed.

Lemma stays_processItemSource source item : StaysConnected (processItemSource E source item).
Proof.
  intros sv r sv'. unfold processItemSource.
  destruct (processItemSource_try E source item sv) as [[r0 o] sv0] eqn:Ht.
  apply processItemSource_try_connected in Ht.
  destruct o as [m|].
  - destruct (isDisconnectionMessage m || browserMissing sv0);
      intros [= _ <-] Hb; congruence.
  - intros [= _ <-] Hb. congruence.
Qed.

Lemma stays_processDomainLoop pairs :
  forall acc, StaysConnected (processDomainLoop E pairs acc).
Proof.
  induction pairs as [|[item source] rest IH]; intros acc; cbn [processDomainLoop].
  - apply stays_ret.
  - intros sv r sv'. destruct (browserMissing sv) eqn:Hb.
    + intros _ H. discriminate H.
    + intros Hrun _. revert Hrun Hb.
      apply stays_bind; [apply stays_processItemSource | intros a; apply IH].
Qed.

Lemma stays_processDomainItems domain pairs :
  StaysConnected (processDomainItems E domain pairs).
Proof.
  unfold processDomainItems.
  apply stays_bind; [apply stays_processDomainLoop|]. intros acc.
  apply stays_bind.
  { destruct (0 <? length (outdatedBatch acc))%nat; [apply stays_await | apply stays_ret]. }
  intros _. apply stays_bind.
  { destruct (0 <? length (updateBatch acc))%nat; [apply stays_await | apply stays_ret]. }
  intros _. apply stays_ret.
Qed.

Lemma stays_processDomains item groups :
  forall acc, StaysConnected (processDomains E item groups acc).
Proof.
  induction groups as [|[domain pairs] rest IH]; intros acc; cbn [processDomains].
  - apply stays_ret.
  - apply stays_bind; [|intros a; apply IH].
    apply stays_tryCatch.
    + apply stays_bind; [apply stays_processDomainItems | intros a; apply stays_ret].
    + intros msg sv r sv'.
      destruct (isDisconnectionMessage msg || browserMissing sv);
        intros [= _ <-] Hb; exact Hb.
Qed.

Lemma stays_updateMaterialItems updates : StaysConnected (updateMaterialItems E updates).
Proof.
  unfold updateMaterialItems.
  destruct (length updates =? 0)%nat; [apply stays_ret | apply stays_await].
Qed.

Lemma stays_processMaterialItem item : StaysConnected (processMaterialItem E item).
Proof.
  unfold processMaterialItem. apply stays_tryCatch; [|intros msg; apply stays_ret].
  unfold processMaterialItem_try.
  apply stays_bind; [apply stays_initialize|]. intros _.
  apply stays_bind; [apply stays_await|]. intros itemSources.
  destruct (length itemSources =? 0)%nat; [apply stays_ret|].
  apply stays_bind; [apply stays_processDomains|]. intros acc.
  apply stays_bind; [apply stays_updateMaterialItems|]. intros updates.
  destruct (existsb (Nat.eqb (itemId item)) updates); apply stays_ret.
Qed.

(** With the pool left alone and ordinary errors only, every source gets
    its record. *)
Lemma processItemSource_contained source item sv :
  OrdinaryErrors E ->
  browserMissing sv = false ->
  exists r sv',
    processItemSource E source item sv = (Ok r, sv')
    /\ browserMissing sv' = false
    /\ sr_id r = sourceId source.
Proof.
  intros (Hprice & Hmark & Hupdate) Hb.
  destruct (processItemSource E source item sv) as [[r|thrown] sv'] eqn:Hrun.
  - exists r, sv'. split; [reflexivity|].
    split; [eapply stays_processItemSource; eassumption|].
    eapply processItemSource_ids, Hrun.
  - exfalso. revert Hrun. unfold processItemSource.
    destruct (processItemSource_try E source item sv) as [[r0 [m|]] sv0] eqn:Ht;
      [|discriminate].
    pose proof (processItemSource_try_connected _ _ _ _ _ _ Ht) as Hb0.
    rewrite Hb in Hb0. rewrite Hb0, orb_false_r.
    assert (Hm : isDisconnectionMessage m = false).
    { apply processItemSource_try_origin in Ht
        as [Hmiss | [(k & x & Hx) | [(k & x & Hx) | (k & x & Hx)]]];
        [congruence | eauto..]. }
    rewrite Hm. discriminate.
Qed.

Lemma processDomainLoop_contained pairs :
  OrdinaryErrors E ->
  forall acc sv,
    browserMissing sv = false ->
    exists acc' sv' new,
      processDomainLoop E pairs acc sv = (Ok acc', sv')
      /\ browserMissing sv' = false
      /\ d_items (acc_results acc') = d_items (acc_results acc) ++ new
      /\ map sr_id new = map (fun pr => sourceId (snd pr)) pairs.
Proof.
  intros Hord. induction pairs as [|[item source] rest IH]; intros acc sv Hb;
    cbn [processDomainLoop].
  - exists acc, sv, []. rewrite app_nil_r. auto.
  - rewrite Hb.
    destruct (processItemSource_contained source item sv Hord Hb)
      as (r & sv1 & Hr & Hb1 & Hid).
    unfold bind. rewrite Hr.
    destruct (IH (recordSource acc item source r) sv1 Hb1)
      as (acc' & sv' & new & Hrun & Hb' & Hitems & Hids).
    exists acc', sv', (r :: new). split; [exact Hrun|]. split; [exact Hb'|].
    split.
    + rewrite Hitems. unfold recordSource.
      destruct (sr_success r); [|destruct (sr_outdated r)];
        cbn [acc_results d_items]; rewrite <- app_assoc; reflexivity.
    + cbn [map snd]. rewrite Hid, Hids. reflexivity.
Qed.

(** With the pool left alone, a batch over the real item processing
    records every item and starts no recovery, whatever is thrown inside
    the items. *)
Lemma processLoop_contained recover items :
  forall i results w,
    browserMissing (services w) = false ->
    exists res w',
      processLoop (processMaterialItem E) recover items i results w = Some (res, w')
      /\ detailIds res = detailIds results ++ map itemId items
      /\ log w' = log w
      /\ cooldowns w' = cooldowns w.
Proof.
  induction items as [|item rest IH]; intros i results w Hb; cbn [processLoop].
  - exists results, w. rewrite app_nil_r. auto.
  - change (services (set_currentIndex i w)) with (services w). rewrite Hb.
    destruct (processMaterialItem_returns E item (services w)) as (r & sv1 & Hr).
    rewrite Hr.
    pose proof (stays_processMaterialItem item _ _ _ Hr Hb) as Hb1.
    destruct (IH (S i) (recordResult results r) (set_services sv1 (set_currentIndex i w)) Hb1)
      as (res & w' & Hrun & Hids & Hlog & Hcool).
    exists res, w'. split; [exact Hrun|].
    split; [|split; [exact Hlog | exact Hcool]].
    rewrite Hids. unfold detailIds. rewrite recordResult_details, map_app.
    cbn [map]. rewrite (processMaterialItem_item E _ _ _ _ Hr), <- app_assoc.
    reflexivity.
Qed.

End Containment.

(** The catch block of [processRemainingItems] on an item processing that
    throws an ordinary error for every item: each item is recorded as
    failed with that error and the loop goes on. *)
Lemma processLoop_failures process recover m items :
  isDisconnectionMessage m = false ->
  (forall mi sv0, browserMissing sv0 = false ->
     exists sv1, process mi sv0 = (Throw m, sv1) /\ browserMissing sv1 = false) ->
  forall i results w,
    browserMissing (services w) = false ->
    exists w',
      processLoop process recover items i results w
      = Some (foldl (fun r mi => recordFailure r mi m) results items, w')
      /\ log w' = log w ++ map (fun mi => LogItemError (itemId mi) m) items
      /\ cooldowns w' = cooldowns w.
Proof.
  intros Hm Hthrow. induction items as [|item rest IH]; intros i results w Hb;
    cbn [processLoop foldl map].
  - exists w. rewrite app_nil_r. auto.
  - change (services (set_currentIndex i w)) with (services w). rewrite Hb.
    destruct (Hthrow item (services w) Hb) as (sv1 & Hp & Hb1).
    rewrite Hp, Hm, Hb1. cbn [orb].
    destruct (IH (S i) (recordFailure results item m)
                 (logLine (LogItemError (itemId item) m)
                    (set_services sv1 (set_currentIndex i w))) Hb1)
      as (w' & Hrun & Hlog & Hcool).
    exists w'. split; [exact Hrun|]. split; [|exact Hcool].
    rewrite Hlog. cbn [log logLine set_services set_currentIndex].
    rewrite <- app_assoc. reflexivity.
Qed.



(** ** Waits, the flag and the pool after a batch *)

(** X18.  Whatever the environment does, one batch run sleeps through at
    most [MAX_RECOVERY_ATTEMPTS] recovery waits: the attempts counter is
    reset only on the way out of a recovery, so no run waits more than
    five times [RECOVERY_WAIT_TIME]. *)
Theorem recovery_waits_bounded (E : Env) (fuel : nat) (w : World)
    (res : BatchResult) (w' : World) :
  processAllMaterialItems E fuel w = Some (res, w') ->
  (cooldowns w <= cooldowns w')%nat
  /\ (cooldowns w' <= cooldowns w + MAX_RECOVERY_ATTEMPTS)%nat.
Proof.
  intros Hrun. destruct (processAllMaterialItems_waits E _ _ _ _ Hrun) as (H1 & H2 & _).
  split; assumption.
Qed.

Lemma recovery_waits_bounded_witness :
  (cooldowns connectedWorld <= cooldowns flakyFinalWorld)%nat
  /\ (cooldowns flakyFinalWorld <= cooldowns connectedWorld + MAX_RECOVERY_ATTEMPTS)%nat.
Proof.
  apply (recovery_waits_bounded flakyEnv 6 connectedWorld
           (Completed [bolt; nut; washer] flakyResults) flakyFinalWorld).
  vm_compute. reflexivity.
Defined.

(** X19.  A batch run that completes outside a recovery closes the pool
    but leaves [isInitialized] set: the process is left initialised
    without a browser. *)
Theorem batch_leaves_stale_flag (E : Env) (fuel : nat) (w : World)
    (items : list MaterialItem) (results : Results) (w' : World) :
  processAllMaterialItems E fuel w = Some (Completed items results, w') ->
  isRecovering w' = false ->
  isInitialized (services w') = true
  /\ browserMissing (services w') = true.
Proof.
  intros Hrun Hrec.
  destruct (processAllMaterialItems_waits E _ _ _ _ Hrun) as (_ & _ & Hdone & _).
  destruct (Hdone items results eq_refl) as [Hi Hb]. split; [exact Hi | apply Hb, Hrec].
Qed.

Lemma batch_leaves_stale_flag_witness :
  isInitialized (services flakyFinalWorld) = true
  /\ browserMissing (services flakyFinalWorld) = true.
Proof.
  apply (batch_leaves_stale_flag flakyEnv 6 connectedWorld [bolt; nut; washer]
           flakyResults flakyFinalWorld).
  - vm_compute. reflexivity.
  - reflexivity.
Defined.

(** X20.  A batch started in that state (initialised, no browser) does
    not relaunch the browser in [initialize]: as soon as one item is
    fetched, the run finds the browser missing at the first item and
    goes through a recovery cycle, sleeping [RECOVERY_WAIT_TIME] at
    least once before any item is processed. *)
Theorem next_batch_starts_with_recovery (E : Env) (fuel : nat) (w : World)
    (item : MaterialItem) (rest : list MaterialItem) (res : BatchResult) (w' : World) :
  isInitialized (services w) = true ->
  browserMissing (services w) = true ->
  fetchMaterialItems E (clock (services w)) = Ok (item :: rest) ->
  processAllMaterialItems E fuel w = Some (res, w') ->
  (S (cooldowns w) <= cooldowns w')%nat.
Proof.
  intros Hi Hb Hf Hrun.
  destruct (processAllMaterialItems_waits E _ _ _ _ Hrun) as (_ & _ & _ & Hfirst).
  eapply Hfirst; eassumption.
Qed.

Lemma next_batch_starts_with_recovery_witness :
  exists res w',
    processAllMaterialItems flakyEnv 6 flakyFinalWorld = Some (res, w')
    /\ (S (cooldowns flakyFinalWorld) <= cooldowns w')%nat.
Proof.
  eexists _, _. split; [vm_compute; reflexivity|].
  eapply (next_batch_starts_with_recovery flakyEnv 6 flakyFinalWorld bolt [nut; washer]).
  - reflexivity.
  - reflexivity.
  - reflexivity.
  - vm_compute. reflexivity.
Defined.

(** X21.  [cleanup] of an initialised driver closes the pool and resets
    [isInitialized], also when the screenshot clean-up fails; the next
    [initialize] then launches a browser again and registers the
    disconnect handler. *)
Theorem cleanup_resets (E : Env) (sv : Services) :
  isInitialized sv = true ->
  isInitialized (cleanup E sv) = false
  /\ browserMissing (cleanup E sv) = true
  /\ clock (cleanup E sv) = S (clock sv)
  /\ (launch E (S (clock sv)) = None ->
      sessionManagerInitialize E (S (S (clock sv))) = None ->
      poolClosedDuring E (S (S (clock sv))) = false ->
      exists sv',
        initialize E (cleanup E sv) = (Ok tt, sv')
        /\ isInitialized sv' = true
        /\ BrowserPool.browser (pool sv') = Some true
        /\ BrowserPool.onDisconnect (pool sv') = true).
Proof.
  intros Hi. unfold cleanup. rewrite Hi.
  cbn [snd await isInitialized clock pool].
  split; [reflexivity|]. split.
  { unfold browserMissing. cbn [pool]. rewrite close_browser. reflexivity. }
  split; [reflexivity|].
  intros Hlaunch Hsession Hopen.
  unfold initialize. cbn [isInitialized]. unfold bind, poolInitialize.
  cbn [pool clock isInitialized]. rewrite close_browser.
  unfold BrowserPool.initialize. rewrite close_browser, Hlaunch.
  unfold await. cbn [clock pool isInitialized]. rewrite Hsession, Hopen.
  eexists. split; [reflexivity|]. cbn. auto.
Qed.

Lemma cleanup_resets_witness :
  isInitialized (cleanup flakyEnv connectedServices) = false
  /\ browserMissing (cleanup flakyEnv connectedServices) = true
  /\ clock (cleanup flakyEnv connectedServices) = S (clock connectedServices)
  /\ (launch flakyEnv (S (clock connectedServices)) = None ->
      sessionManagerInitialize flakyEnv (S (S (clock connectedServices))) = None ->
      poolClosedDuring flakyEnv (S (S (clock connectedServices))) = false ->
      exists sv',
        initialize flakyEnv (cleanup flakyEnv connectedServices) = (Ok tt, sv')
        /\ isInitialized sv' = true
        /\ BrowserPool.browser (pool sv') = Some true
        /\ BrowserPool.onDisconnect (pool sv') = true).
Proof.
  apply (cleanup_resets flakyEnv connectedServices). reflexivity.
Defined.

(** X22.  When [initialize] launches the browser and the session manager
    then fails, the error is thrown with the browser left running,
    [isInitialized] unset and no disconnect handler registered; [cleanup]
    called in that state does nothing, so the browser stays open. *)
Theorem failed_initialize_leaves_browser (E : Env) (sv : Services) (message : string) :
  isInitialized sv = false ->
  browserMissing sv = true ->
  launch E (clock sv) = None ->
  sessionManagerInitialize E (S (clock sv)) = Some message ->
  poolClosedDuring E (S (clock sv)) = false ->
  exists sv',
    initialize E sv = (Throw message, sv')
    /\ isInitialized sv' = false
    /\ BrowserPool.browser (pool sv') = Some true
    /\ BrowserPool.onDisconnect (pool sv') = BrowserPool.onDisconnect (pool sv)
    /\ cleanup E sv' = sv'.
Proof.
  intros Hi Hb Hlaunch Hsession Hopen.
  unfold initialize. rewrite Hi. unfold bind, poolInitialize.
  unfold browserMissing in Hb.
  destruct (BrowserPool.browser (pool sv)) eqn:Hbrowser; [discriminate|].
  unfold BrowserPool.initialize. rewrite Hbrowser, Hlaunch.
  unfold await. cbn [clock pool isInitialized]. rewrite Hsession, Hopen.
  eexists. split; [reflexivity|]. cbn [isInitialized pool].
  split; [exact Hi|]. split; [reflexivity|]. split; [reflexivity|].
  unfold cleanup. cbn [isInitialized]. rewrite Hi. reflexivity.
Qed.

Lemma failed_initialize_leaves_browser_witness :
  exists sv',
    initialize noSessionsEnv (services freshWorld)
    = (Throw "EACCES: permission denied, mkdir", sv')
    /\ isInitialized sv' = false
    /\ BrowserPool.browser (pool sv') = Some true
    /\ BrowserPool.onDisconnect (pool sv')
       = BrowserPool.onDisconnect (pool (services freshWorld))
    /\ cleanup noSessionsEnv sv' = sv'.
Proof.
  apply (failed_initialize_leaves_browser noSessionsEnv (services freshWorld)
           "EACCES: permission denied, mkdir"); reflexivity.
Defined.

(** ** Results and their details *)

Lemma reflects_empty : Reflects emptyResults.
Proof. split; reflexivity. Qed.

Lemma filter_snoc_true {A} (P : A -> Prop) `{!forall x, Decision (P x)} (l : list A) x :
  P x -> filter P (l ++ [x]) = filter P l ++ [x].
Proof.
  intros Hx. rewrite filter_app, (filter_cons _ x), decide_True by exact Hx. reflexivity.
Qed.

Lemma filter_snoc_false {A} (P : A -> Prop) `{!forall x, Decision (P x)} (l : list A) x :
  ~ P x -> filter P (l ++ [x]) = filter P l.
Proof.
  intros Hx. rewrite filter_app, (filter_cons _ x), decide_False by exact Hx.
  apply app_nil_r.
Qed.

Lemma reflects_snoc_failure results d :
  Reflects results -> success d = false ->
  Reflects (mkResults (r_success results) (S (r_failed results)) (r_skipped results)
                      (r_outdated results + outdatedCount d) (r_materialUpdates results)
                      (r_details results ++ [d]) (r_updatedItemSources results)).
Proof.
  intros [Hs Hf Hk Ho Hu] Hd. split; cbn [r_success r_failed r_skipped r_outdated
                                           r_details r_updatedItemSources].
  - rewrite filter_snoc_false by congruence. exact Hs.
  - rewrite filter_snoc_true, length_app by exact Hd. cbn. lia.
  - exact Hk.
  - rewrite filter_snoc_true, sum_list_with_app by exact Hd. cbn. lia.
  - rewrite filter_snoc_false by congruence. exact Hu.
Qed.

Lemma recordResult_reflects results r :
  Reflects results -> Reflects (recordResult results r).
Proof.
  intros Hres. unfold recordResult. destruct (success r) eqn:Hr.
  - destruct Hres as [Hs Hf Hk Ho Hu].
    split; cbn [r_success r_failed r_skipped r_outdated r_details r_updatedItemSources].
    + rewrite filter_snoc_true, length_app by exact Hr. cbn. lia.
    + rewrite filter_snoc_false by congruence. exact Hf.
    + exact Hk.
    + rewrite filter_snoc_false by congruence. exact Ho.
    + rewrite filter_snoc_true, map_app, concat_app by exact Hr. cbn.
      rewrite app_nil_r, Hu. reflexivity.
  - apply (reflects_snoc_failure results r Hres Hr).
Qed.

Lemma recordFailure_reflects results item m :
  Reflects results -> Reflects (recordFailure results item m).
Proof.
  intros Hres. unfold recordFailure.
  pose proof (reflects_snoc_failure results
                (mkItemResult false item [] None (Some m)) Hres eq_refl) as H.
  cbn [outdatedCount outdatedUrls] in H. rewrite Nat.add_0_r in H. exact H.
Qed.

Lemma mergeRecovery_reflects results rr :
  Reflects results ->
  (forall r, rr = Resumed r -> Reflects r) ->
  Reflects (mergeRecovery results rr).
Proof.
  intros Hres Hrr. destruct rr as [r|]; [|exact Hres].
  destruct Hres as [Hs Hf Hk Ho Hu]. destruct (Hrr r eq_refl) as [Hs' Hf' Hk' Ho' Hu'].
  split; cbn [mergeRecovery r_success r_failed r_skipped r_outdated r_details
              r_updatedItemSources].
  - rewrite filter_app, length_app. lia.
  - rewrite filter_app, length_app. lia.
  - lia.
  - rewrite filter_app, sum_list_with_app. lia.
  - rewrite filter_app, map_app, concat_app, Hu, Hu'. reflexivity.
Qed.

Lemma processLoop_reflects process recover :
  (forall j w r w', recover j w = Some (Resumed r, w') -> Reflects r) ->
  forall rest i results w res w',
    Reflects results ->
    processLoop process recover rest i results w = Some (res, w') ->
    Reflects res.
Proof.
  intros Hrec rest.
  induction rest as [|item rest' IH]; intros i results w res w' Hres Hrun.
  - cbn in Hrun. injection Hrun as <- _. exact Hres.
  - cbn [processLoop] in Hrun.
    destruct (browserMissing (services (set_currentIndex i w))).
    + destruct (recover i _) as [[rr w1]|] eqn:Hr; [|discriminate].
      injection Hrun as <- _. apply mergeRecovery_reflects; [exact Hres|].
      intros r ->. eapply Hrec, Hr.
    + destruct (process item (services (set_currentIndex i w))) as [[r|m] sv].
      * eapply IH; [|exact Hrun]. apply recordResult_reflects, Hres.
      * destruct (isDisconnectionMessage m || browserMissing sv).
        -- destruct (recover i _) as [[rr w1]|] eqn:Hr; [|discriminate].
           injection Hrun as <- _. apply mergeRecovery_reflects; [exact Hres|].
           intros r ->. eapply Hrec, Hr.
        -- eapply IH; [|exact Hrun]. apply recordFailure_reflects, Hres.
Qed.

Lemma recoverFromDisconnection_reflects E fuel items j w r w' :
  recoverFromDisconnection E fuel items j w = Some (Resumed r, w') -> Reflects r.
Proof.
  revert j w r w'. induction fuel as [|fuel IH]; intros j w r w' Hrun; [discriminate|].
  cbn [recoverFromDisconnection] in Hrun.
  destruct (MAX_RECOVERY_ATTEMPTS <=? recoveryAttempts w)%nat; [discriminate|].
  destruct (poolInitialize E _) as [[[]|m] sv].
  - match type of Hrun with
    | match processLoop ?p ?rc ?rest ?i ?res0 ?w3 with _ => _ end = _ =>
        destruct (processLoop p rc rest i res0 w3) as [[result w4]|] eqn:Hloop;
          [|discriminate];
        apply (processLoop_reflects _ _ IH) in Hloop; [|apply reflects_empty]
    end.
    destruct (length items <=? j + r_success result + r_failed result)%nat;
      injection Hrun as <- _; exact Hloop.
  - destruct (isDisconnectionMessage m); [|discriminate].
    eapply IH, Hrun.
Qed.

(** X23.  In the results of a completed batch the counters are those of
    the details: [success] and [failed] count the successful and the
    failed records, [skipped] is always 0, [outdated] adds up the
    outdated URLs of the failed records only, and [updatedItemSources]
    holds the updates of the successful records, in order, and nothing
    else. *)
Theorem results_reflect_details (E : Env) (fuel : nat) (w : World)
    (items : list MaterialItem) (results : Results) (w' : World) :
  processAllMaterialItems E fuel w = Some (Completed items results, w') ->
  r_success results = length (filter (fun d => success d = true) (r_details results))
  /\ r_failed results = length (filter (fun d => success d = false) (r_details results))
  /\ r_skipped results = 0%nat
  /\ r_outdated results
     = sum_list_with outdatedCount
         (filter (fun d => success d = false) (r_details results))
  /\ r_updatedItemSources results
     = concat (map updatedItemSources
                   (filter (fun d => success d = true) (r_details results))).
Proof.
  unfold processAllMaterialItems, abortBatch. intros Hrun.
  destruct (initialize E (services w)) as [[[]|m] sv]; [|discriminate].
  destruct (await E (fetchMaterialItems E) sv) as [[materialItems|m] sv1]; [|discriminate].
  destruct (processRemainingItems E fuel materialItems 0 _) as [[res0 w2]|] eqn:Hloop;
    [|discriminate].
  unfold processRemainingItems in Hloop.
  apply (processLoop_reflects _ _ (recoverFromDisconnection_reflects E fuel materialItems))
    in Hloop; [|apply reflects_empty].
  destruct ((if (0 <? length (r_updatedItemSources res0))%nat
             then updateMaterialItems E (r_updatedItemSources res0)
             else ret []) (services w2)) as [[materialUpdates|m] sv3]; [|discriminate].
  injection Hrun as _ <- _. destruct Hloop as [Hs Hf Hk Ho Hu].
  destruct (0 <? length (r_updatedItemSources res0))%nat; cbn; auto.
Qed.

Lemma results_reflect_details_witness :
  r_success flakyResults
  = length (filter (fun d => success d = true) (r_details flakyResults))
  /\ r_failed flakyResults
     = length (filter (fun d => success d = false) (r_details flakyResults))
  /\ r_skipped flakyResults = 0%nat
  /\ r_outdated flakyResults
     = sum_list_with outdatedCount
         (filter (fun d => success d = false) (r_details flakyResults))
  /\ r_updatedItemSources flakyResults
     = concat (map updatedItemSources
                   (filter (fun d => success d = true) (r_details flakyResults))).
Proof.
  apply (results_reflect_details flakyEnv 6 connectedWorld [bolt; nut; washer]
           flakyResults flakyFinalWorld).
  vm_compute. reflexivity.
Defined.

(** ** Item sources and domains *)

(** The arithmetic is that of doubles.  A price of 4.10 gives 4.71 with
    tax: 4.1 * 1.15 is the number 4.715 rounded down to the nearest
    double, which times 100 lies below 471.5.  From 1.00 to 1.30 the
    change in percent comes out as 30.000000000000004, above a threshold
    of 30; from 10 to 13 it comes out as 30, which is not above it. *)
Example withTax_rounds_doubles :
  withTax (41 # 10) = Number.toQ (Number.ofQ (471 # 100))
  /\ withTax 3 = Number.toQ (Number.ofQ (345 # 100))
  /\ percentChange (13 # 10) 1 = S754_finite false 8444249301319681 (-48)
  /\ Number.ofZ 30 = S754_finite false 8444249301319680 (-48)
  /\ significantChange pricedEnv (13 # 10) 1 = true
  /\ significantChange pricedEnv 13 10 = false
  /\ significantChange pricedEnv 13 0 = true
  /\ significantChange pricedEnv 0 0 = false.
Proof. vm_compute. repeat split; reflexivity. Qed.

(** X24.  A record returned by [processItemSource] is about the source
    and the item it was called with and is of one of three kinds.  A
    success carries the extracted price, the price with 15 % tax that
    the arithmetic of doubles gives for it ([Math.round((roundedPrice *
    1.15) * 100) / 100] from the price rounded to cents), the updated
    row, and neither an error nor the outdated mark.  A failure carries
    no price and always an error message.  The outdated mark is set only
    on a failure, with no price change recorded; a price change is
    recorded only against a known previous price, for a change in
    percent that exceeds the threshold. *)
Theorem processItemSource_result_shape (E : Env) (source : ItemSource)
    (item : MaterialItem) (sv : Services) (r : SourceResult) (sv' : Services) :
  processItemSource E source item sv = (Ok r, sv') ->
  sr_id r = sourceId source
  /\ sr_materialItemId r = itemId item
  /\ sr_oldPrice r = sale_price source
  /\ (sr_success r = true ->
      exists price row,
        sr_newPrice r = Some price
        /\ sr_priceWithTax r = withTax price
        /\ sr_updatedSource r = Some row
        /\ sr_error r = None
        /\ sr_outdated r = false
        /\ (sr_priceChange r <> None <->
            exists old, sale_price source = Some old
                        /\ significantChange E price old = true))
  /\ (sr_success r = false ->
      sr_newPrice r = None /\ sr_priceWithTax r = None
      /\ exists message, sr_error r = Some message)
  /\ (sr_outdated r = true -> sr_success r = false /\ sr_priceChange r = None)
  /\ (sr_priceChange r <> None -> exists old, sale_price source = Some old).
Proof.
  unfold processItemSource, processItemSource_try, await. intros H.
  repeat case_match; simplify_eq; cbn;
    repeat split; try discriminate; try congruence; eauto 10;
    try (intros _; eexists _, _; repeat split; try reflexivity;
         try (intros [old [[= <-] Hs]]; congruence);
         try (intros [old [[=] _]]);
         try (intros Hc; exfalso; apply Hc; reflexivity);
         try (intros _; eauto)).
Qed.

Lemma processItemSource_result_shape_witness :
  exists r sv',
    processItemSource pricedEnv boltSource bolt connectedServices = (Ok r, sv')
    /\ sr_id r = sourceId boltSource
    /\ sr_materialItemId r = itemId bolt
    /\ sr_oldPrice r = sale_price boltSource
    /\ (sr_success r = true ->
        exists price row,
          sr_newPrice r = Some price
          /\ sr_priceWithTax r = withTax price
          /\ sr_updatedSource r = Some row
          /\ sr_error r = None
          /\ sr_outdated r = false
          /\ (sr_priceChange r <> None <->
              exists old, sale_price boltSource = Some old
                          /\ significantChange pricedEnv price old = true))
    /\ (sr_success r = false ->
        sr_newPrice r = None /\ sr_priceWithTax r = None
        /\ exists message, sr_error r = Some message)
    /\ (sr_outdated r = true -> sr_success r = false /\ sr_priceChange r = None)
    /\ (sr_priceChange r <> None -> exists old, sale_price boltSource = Some old).
Proof.
  eexists _, _. split; [vm_compute; reflexivity|].
  eapply (processItemSource_result_shape pricedEnv boltSource bolt connectedServices).
  vm_compute. reflexivity.
Defined.

Lemma recordSource_counted acc item source r :
  DomainCounted acc -> DomainCounted (recordSource acc item source r).
Proof.
  intros [Hs Hf Ho Hof Hc Hu Hob]. unfold recordSource.
  destruct (sr_success r) eqn:Hr; [|destruct (sr_outdated r)];
    split; cbn [acc_results d_success d_failed d_outdated d_priceChanges d_items
                d_outdatedUrls updateBatch outdatedBatch];
    rewrite ?length_app; cbn [length];
    try (rewrite filter_snoc_true by exact Hr);
    try (rewrite filter_snoc_false by congruence);
    rewrite ?length_app; cbn [length]; try lia.
  destruct (sr_priceChange r); rewrite ?length_app; cbn [length]; lia.
Qed.

Lemma processDomainLoop_spec E pairs :
  forall acc sv acc' sv',
    processDomainLoop E pairs acc sv = (Ok acc', sv') ->
    d_domain (acc_results acc') = d_domain (acc_results acc)
    /\ (DomainCounted acc -> DomainCounted acc')
    /\ exists new,
         d_items (acc_results acc') = d_items (acc_results acc) ++ new
         /\ map sr_id new = map (fun pr => sourceId (snd pr)) pairs
         /\ map sr_materialItemId new = map (fun pr => itemId (fst pr)) pairs.
Proof.
  induction pairs as [|[item source] rest IH]; intros acc sv acc' sv'; cbn [processDomainLoop].
  - intros [= <- _]. split; [reflexivity|]. split; [auto|].
    exists []. rewrite app_nil_r. auto.
  - destruct (browserMissing sv); [discriminate|].
    intros H. apply bind_Ok in H as (r & sv1 & Hsrc & H).
    apply IH in H as (Hd & Hc & new & Hitems & Hids & Hmat).
    pose proof (processItemSource_ids _ _ _ _ _ _ Hsrc) as (Hid & Hmid).
    assert (Hrec : d_domain (acc_results (recordSource acc item source r))
                   = d_domain (acc_results acc)
                   /\ d_items (acc_results (recordSource acc item source r))
                      = d_items (acc_results acc) ++ [r]).
    { unfold recordSource. destruct (sr_success r); [|destruct (sr_outdated r)];
        split; reflexivity. }
    destruct Hrec as [Hd1 Hi1].
    split; [congruence|].
    split; [intros Hacc; apply Hc, recordSource_counted, Hacc|].
    exists (r :: new). rewrite Hitems, Hi1, <- app_assoc. cbn.
    rewrite Hid, Hmid, Hids, Hmat. auto.
Qed.

(** X25.  The results [processDomainItems] returns for a domain account
    for every pair it was given, in order: one source record per pair,
    [success] and [failed] counting the successful and the failed
    records, [outdated] counting the outdated URLs listed, all of them
    among the failures, and no more price changes than successes. *)
Theorem processDomainItems_counts (E : Env) (domain : string)
    (pairs : list (MaterialItem * ItemSource)) (sv : Services)
    (r : DomainResults) (sv' : Services) :
  processDomainItems E domain pairs sv = (Ok r, sv') ->
  d_domain r = domain
  /\ map sr_id (d_items r) = map (fun pr => sourceId (snd pr)) pairs
  /\ map sr_materialItemId (d_items r) = map (fun pr => itemId (fst pr)) pairs
  /\ (d_success r + d_failed r = length pairs)%nat
  /\ d_success r = length (filter (fun x => sr_success x = true) (d_items r))
  /\ d_failed r = length (filter (fun x => sr_success x = false) (d_items r))
  /\ d_outdated r = length (d_outdatedUrls r)
  /\ (d_outdated r <= d_failed r)%nat
  /\ (length (d_priceChanges r) <= d_success r)%nat.
Proof.
  unfold processDomainItems. intros H.
  apply bind_Ok in H as (acc & sv1 & Hloop & H).
  apply bind_Ok in H as (? & sv2 & _ & H).
  apply bind_Ok in H as (? & sv3 & _ & H).
  injection H as <- _.
  apply processDomainLoop_spec in Hloop as (Hd & Hc & new & Hitems & Hids & Hmat).
  cbn [acc_results d_domain d_items] in Hd, Hitems.
  destruct Hc as [Hs Hf Ho Hof Hch _ _].
  { split; cbn; try reflexivity; lia. }
  rewrite Hitems in *. cbn [app] in *.
  split; [exact Hd|]. split; [exact Hids|]. split; [exact Hmat|].
  split.
  { rewrite Hs, Hf. rewrite <- (length_map (fun pr => sourceId (snd pr)) pairs), <- Hids,
      length_map.
    clear. induction new as [|x new IH]; [reflexivity|].
    rewrite !filter_cons. destruct (sr_success x) eqn:Hx.
    - rewrite decide_True, decide_False by congruence. cbn. lia.
    - rewrite decide_False, decide_True by congruence. cbn. lia. }
  auto.
Qed.

Lemma processDomainItems_counts_witness :
  exists r sv',
    processDomainItems pricedEnv "shop.example" [(bolt, boltSource); (nut, boltSource)]
                       connectedServices = (Ok r, sv')
    /\ d_domain r = "shop.example"
    /\ map sr_id (d_items r)
       = map (fun pr => sourceId (snd pr)) [(bolt, boltSource); (nut, boltSource)]
    /\ map sr_materialItemId (d_items r)
       = map (fun pr => itemId (fst pr)) [(bolt, boltSource); (nut, boltSource)]
    /\ (d_success r + d_failed r = length [(bolt, boltSource); (nut, boltSource)])%nat
    /\ d_success r = length (filter (fun x => sr_success x = true) (d_items r))
    /\ d_failed r = length (filter (fun x => sr_success x = false) (d_items r))
    /\ d_outdated r = length (d_outdatedUrls r)
    /\ (d_outdated r <= d_failed r)%nat
    /\ (length (d_priceChanges r) <= d_success r)%nat.
Proof.
  eexists _, _. split; [vm_compute; reflexivity|].
  eapply (processDomainItems_counts pricedEnv "shop.example"
            [(bolt, boltSource); (nut, boltSource)] connectedServices).
  vm_compute. reflexivity.
Defined.

(** ** Grouping by domain *)

Lemma elem_of_concat {A} (x : A) (ls : list (list A)) :
  x ∈ concat ls <-> exists l, l ∈ ls /\ x ∈ l.
Proof.
  induction ls as [|l ls IH]; cbn.
  - split; [intros H; inversion H | intros (l & H & _); inversion H].
  - rewrite elem_of_app, IH. split.
    + intros [H|(l' & H1 & H2)].
      * exists l. split; [apply list_elem_of_here | exact H].
      * exists l'. split; [apply list_elem_of_further, H1 | exact H2].
    + intros (l' & H1 & H2). apply elem_of_cons in H1 as [->|H1]; [left; exact H2|].
      right. eauto.
Qed.

Lemma addToGroup_keys d pr g k :
  k ∈ map fst (addToGroup d pr g) <-> k = d \/ k ∈ map fst g.
Proof.
  induction g as [|[d0 ps] g IH]; cbn.
  - rewrite list_elem_of_singleton. split; [auto|].
    intros [H|H]; [exact H | inversion H].
  - destruct (String.eqb d0 d) eqn:Heq; cbn.
    + apply String.eqb_eq in Heq as ->. rewrite elem_of_cons. tauto.
    + rewrite !elem_of_cons, IH. tauto.
Qed.

Lemma addToGroup_grouped E item d s g :
  groupKey E s = Some d ->
  Grouped E item g -> Grouped E item (addToGroup d (item, s) g).
Proof.
  intros Hd [Hnd Hall]. induction g as [|[d0 ps] g IH]; cbn.
  - split; [repeat constructor; intros H; inversion H|].
    repeat constructor; cbn; [discriminate | exact Hd].
  - cbn in Hnd. apply NoDup_cons in Hnd as [Hd0 Hnd].
    apply Forall_cons in Hall as [[Hne Hps] Hall].
    destruct (String.eqb d0 d) eqn:Heq.
    + apply String.eqb_eq in Heq as ->. split.
      * cbn. apply NoDup_cons. split; assumption.
      * apply Forall_cons. split; [|exact Hall]. cbn. split.
        -- destruct ps; discriminate.
        -- apply Forall_app. split; [exact Hps|]. repeat constructor. exact Hd.
    + apply String.eqb_neq in Heq. destruct (IH Hnd Hall) as [Hnd' Hall'].
      split.
      * cbn. apply NoDup_cons. split; [|exact Hnd'].
        rewrite addToGroup_keys. intros [->|Hin]; [congruence | contradiction].
      * apply Forall_cons. split; [split; assumption | exact Hall'].
Qed.

Lemma addToGroup_members d pr g x :
  x ∈ concat (map snd (addToGroup d pr g)) <-> x = pr \/ x ∈ concat (map snd g).
Proof.
  induction g as [|[d0 ps] g IH]; cbn.
  - rewrite ?app_nil_r, list_elem_of_singleton. split; [auto|].
    intros [H|H]; [exact H | inversion H].
  - destruct (String.eqb d0 d); cbn.
    + rewrite !elem_of_app, list_elem_of_singleton. tauto.
    + rewrite !elem_of_app, IH. tauto.
Qed.

Lemma addToGroup_length d pr g :
  length (concat (map snd (addToGroup d pr g))) = S (length (concat (map snd g))).
Proof.
  induction g as [|[d0 ps] g IH]; cbn; [reflexivity|].
  destruct (String.eqb d0 d); cbn.
  - rewrite !length_app. cbn. lia.
  - rewrite !length_app, IH. lia.
Qed.

Lemma groupByDomain_fold E item sources :
  forall g,
    Grouped E item g ->
    let g' := foldl (fun groups source =>
                       match groupKey E source with
                       | Some domain => addToGroup domain (item, source) groups
                       | None => groups
                       end) g sources in
    Grouped E item g'
    /\ (forall x, x ∈ concat (map snd g')
                  <-> x ∈ concat (map snd g)
                      \/ exists s, x = (item, s) /\ s ∈ sources
                                   /\ is_Some (groupKey E s))
    /\ length (concat (map snd g'))
       = (length (concat (map snd g))
          + length (filter (fun s => is_Some (groupKey E s)) sources))%nat.
Proof.
  induction sources as [|s sources IH]; intros g Hg; cbn [foldl]; cbv zeta.
  - split; [exact Hg|]. split; [|cbn; lia].
    intros x. split; [auto|]. intros [H|(s & _ & H & _)]; [exact H | inversion H].
  - destruct (groupKey E s) as [d|] eqn:Hd.
    + destruct (IH _ (addToGroup_grouped E item d s g Hd Hg)) as (Hg' & Hmem & Hlen).
      split; [exact Hg'|]. split.
      * intros x. rewrite Hmem, addToGroup_members. split.
        -- intros [[->|H]|(s' & -> & Hin & Hs')]; [right|left; exact H|right].
           ++ exists s. split; [reflexivity|]. split; [apply list_elem_of_here|].
              rewrite Hd. eauto.
           ++ exists s'. split; [reflexivity|]. split; [apply list_elem_of_further, Hin|].
              exact Hs'.
        -- intros [H|(s' & -> & Hin & Hs')]; [left; right; exact H|].
           apply elem_of_cons in Hin as [->|Hin]; [left; left; reflexivity|].
           right. eauto.
      * rewrite Hlen, addToGroup_length, filter_cons, decide_True by (rewrite Hd; eauto).
        cbn. lia.
    + destruct (IH _ Hg) as (Hg' & Hmem & Hlen).
      split; [exact Hg'|]. split.
      * intros x. rewrite Hmem. split.
        -- intros [H|(s' & -> & Hin & Hs')]; [left; exact H|right].
           exists s'. split; [reflexivity|]. split; [apply list_elem_of_further, Hin|].
           exact Hs'.
        -- intros [H|(s' & -> & Hin & Hs')]; [left; exact H|].
           apply elem_of_cons in Hin as [->|Hin].
           ++ rewrite Hd in Hs'. destruct Hs' as [? Hs']. discriminate.
           ++ right. eauto.
      * rewrite Hlen, filter_cons, decide_False; [reflexivity|].
        rewrite Hd. intros [? H]. discriminate.
Qed.

Lemma groupKey_spec E s d :
  groupKey E s = Some d
  <-> hostname E (url s) = Some d /\ (d ∉ objectPrototypeKeys).
Proof.
  unfold groupKey. destruct (hostname E (url s)) as [d0|].
  - destruct (decide (d0 ∈ objectPrototypeKeys)) as [Hin|Hnin].
    + split; [discriminate|]. intros [[= ->] Hn]. contradiction.
    + split; [intros [= ->]; auto | intros [[= ->] _]; reflexivity].
  - split; [discriminate | intros [[=] _]].
Qed.

(** X26.  Grouping the sources of an item by host name is a partition of
    the sources it keeps, those whose URL parses to a host name that is
    not a property name of [Object.prototype]: every group has its own
    domain, is not empty and holds only pairs of the item with a source
    of that host name; every source kept is in the group of its host
    name, and the groups hold as many pairs as there are sources with a
    group key.  A source whose URL does not parse is left out, and so is one whose
    host name is such a property name, [constructor] or [__proto__] for
    instance: no group is made under such a name. *)
Theorem groupByDomain_partition (E : Env) (item : MaterialItem)
    (sources : list ItemSource) :
  let groups := groupByDomain E item sources in
  NoDup (map fst groups)
  /\ (forall d pairs, (d, pairs) ∈ groups ->
        pairs <> []
        /\ (d ∉ objectPrototypeKeys)
        /\ forall it s, (it, s) ∈ pairs ->
             it = item /\ hostname E (url s) = Some d /\ s ∈ sources)
  /\ (forall s d, s ∈ sources -> hostname E (url s) = Some d ->
        (d ∉ objectPrototypeKeys) ->
        exists pairs, (d, pairs) ∈ groups /\ (item, s) ∈ pairs)
  /\ (forall s d pairs, hostname E (url s) = Some d -> d ∈ objectPrototypeKeys ->
        ((d, pairs) ∉ groups) /\ ((item, s) ∉ concat (map snd groups)))
  /\ length (concat (map snd groups))
     = length (filter (fun s => is_Some (groupKey E s)) sources)
  /\ (forall s d, groupKey E s = Some d
                  <-> hostname E (url s) = Some d /\ (d ∉ objectPrototypeKeys)).
Proof.
  cbv zeta. unfold groupByDomain.
  assert (Hnil : Grouped E item []) by (split; constructor).
  destruct (groupByDomain_fold E item sources [] Hnil) as ([Hnd Hall] & Hmem & Hlen).
  cbv zeta in Hmem, Hlen. cbn [map concat length] in Hmem, Hlen.
  set (groups := foldl _ [] sources) in *.
  assert (Hin_groups : forall d pairs it s,
            (d, pairs) ∈ groups -> (it, s) ∈ pairs ->
            it = item /\ groupKey E s = Some d).
  { intros d pairs it s Hg Hp. rewrite Forall_forall in Hall.
    destruct (Hall _ Hg) as [_ Hps]. rewrite Forall_forall in Hps.
    apply (Hps _ Hp). }
  split; [exact Hnd|]. split; [|split; [|split; [|split]]].
  - intros d pairs Hg. rewrite Forall_forall in Hall.
    destruct (Hall _ Hg) as [Hne Hps]. cbn in Hne, Hps.
    split; [exact Hne|]. split.
    + destruct pairs as [|[it s] pairs]; [congruence|].
      destruct (Hin_groups d _ it s Hg (list_elem_of_here _ _)) as [_ Hk].
      apply groupKey_spec in Hk. tauto.
    + intros it s Hp. destruct (Hin_groups _ _ _ _ Hg Hp) as [-> Hd].
      split; [reflexivity|]. split; [apply groupKey_spec in Hd; tauto|].
      assert (Hx : (item, s) ∈ concat (map snd groups)).
      { apply elem_of_concat. exists pairs. split; [|exact Hp].
        apply (list_elem_of_fmap_2 snd) in Hg. exact Hg. }
      apply Hmem in Hx as [Hx|(s' & [= ->] & Hin & _)]; [inversion Hx | exact Hin].
  - intros s d Hin Hd Hkey.
    assert (Hk : groupKey E s = Some d) by (apply groupKey_spec; auto).
    assert (Hx : (item, s) ∈ concat (map snd groups)).
    { apply Hmem. right. exists s. rewrite Hk. eauto. }
    apply elem_of_concat in Hx as (pairs & Hps & Hp).
    apply list_elem_of_fmap_1 in Hps as ([d' pairs'] & -> & Hg). cbn in Hp.
    destruct (Hin_groups _ _ _ _ Hg Hp) as [_ Hd'].
    assert (d' = d) as -> by congruence. eauto.
  - intros s d pairs Hd Hkey. split.
    + intros Hg. rewrite Forall_forall in Hall.
      destruct (Hall _ Hg) as [Hne Hps]. cbn in Hne, Hps.
      destruct pairs as [|[it s0] pairs]; [congruence|].
      destruct (Hin_groups d _ it s0 Hg (list_elem_of_here _ _)) as [_ Hk].
      apply groupKey_spec in Hk. tauto.
    + intros Hx. apply Hmem in Hx as [Hx|(s' & [= <-] & _ & [d' Hk])]; [inversion Hx|].
      apply groupKey_spec in Hk as [Hd' Hn]. congruence.
  - exact Hlen.
  - intros s d. apply groupKey_spec.
Qed.

(** A source on the host [constructor] is dropped, although its URL
    parses. *)
Example groupByDomain_drops_constructor :
  groupByDomain pricedEnv bolt
    [mkSource 7 "shop.example" None 1 None; mkSource 8 "constructor" None 1 None]
  = [("shop.example", [(bolt, mkSource 7 "shop.example" None 1 None)])].
Proof. vm_compute. reflexivity. Qed.

(** ** The aggregation of material updates *)

Lemma insertByPrice_perm u l : insertByPrice u l ≡ₚ u :: l.
Proof.
  induction l as [|x l IH]; cbn; [reflexivity|].
  destruct (notAbove u x); [reflexivity|]. rewrite IH. apply perm_swap.
Qed.

Lemma sortByPrice_perm l : sortByPrice l ≡ₚ l.
Proof.
  induction l as [|x l IH]; cbn; [reflexivity|].
  rewrite insertByPrice_perm, IH. reflexivity.
Qed.

Lemma insertByPrice_ordered u l :
  Priced u -> Forall Priced l ->
  ForallOrdPairs PriceOrdered l -> ForallOrdPairs PriceOrdered (insertByPrice u l).
Proof.
  intros [pu Hu]. induction l as [|y l IH]; cbn; intros Hp Hl.
  - constructor; constructor.
  - inversion Hl as [|? ? Hy Hl']; subst.
    apply Forall_cons in Hp as [[py Hpy] Hp].
    unfold notAbove. rewrite Hu, Hpy.
    destruct (Qle_bool pu py) eqn:Hc.
    + apply Qle_bool_iff in Hc. constructor; [|exact Hl].
      constructor.
      * intros p q Hp' Hq'. congruence.
      * rewrite Forall_forall in Hy |- *. intros x Hx p q Hp' Hq'.
        assert (p = pu) as -> by congruence.
        apply (Qle_trans _ py); [exact Hc|]. apply (Hy x Hx); assumption.
    + assert (Hlt : (py <= pu)%Q).
      { apply Qlt_le_weak, Qnot_le_lt. intros Hle. apply Qle_bool_iff in Hle. congruence. }
      constructor; [|apply IH; assumption].
      rewrite Forall_forall in Hy |- *. intros x Hx.
      rewrite insertByPrice_perm in Hx. apply elem_of_cons in Hx as [->|Hx].
      * intros p q Hp' Hq'. congruence.
      * apply Hy, Hx.
Qed.

Lemma sortByPrice_ordered l :
  Forall Priced l -> ForallOrdPairs PriceOrdered (sortByPrice l).
Proof.
  induction l as [|y l IH]; cbn; intros Hp; [constructor|].
  apply Forall_cons in Hp as [Hy Hp].
  apply insertByPrice_ordered; [exact Hy | rewrite sortByPrice_perm; exact Hp | apply IH, Hp].
Qed.

Lemma ordered_last l h x :
  ForallOrdPairs PriceOrdered l -> last l = Some h -> x ∈ l -> x = h \/ PriceOrdered x h.
Proof.
  induction l as [|y l IH]; intros Hl Hlast Hx; [inversion Hx|].
  inversion Hl as [|? ? Hy Hl']; subst.
  destruct l as [|z l].
  - cbn in Hlast. injection Hlast as <-. apply elem_of_cons in Hx as [->|Hx]; [auto|].
    inversion Hx.
  - change (last (y :: z :: l)) with (last (z :: l)) in Hlast.
    assert (Hh : h ∈ z :: l).
    { clear -Hlast. revert z Hlast. induction l as [|a l IH]; intros z Hlast.
      - cbn in Hlast. injection Hlast as <-. apply list_elem_of_here.
      - apply list_elem_of_further. apply IH. exact Hlast. }
    apply elem_of_cons in Hx as [->|Hx].
    + right. rewrite Forall_forall in Hy. apply Hy, Hh.
    + apply IH; assumption.
Qed.

(** X27.  For a material item with updated sources, all of them priced,
    [updateMaterialItems] takes as [cost] the lowest price with tax among
    the item's sources and as [salePrice] the highest: every source of
    the item lies between the two, [cheapestVendorId] is the id of an
    item source offering the lowest price, and both prices are offered
    by some source of the item.  Sources of other items play no part. *)
Theorem material_update_extremes (item : nat) (updates : list SourceUpdate)
    (mu : MaterialUpdate) :
  Forall Priced updates ->
  materialUpdateOf item updates = Some mu ->
  mu_id mu = item
  /\ exists lo hi,
       mu_cost mu = Some lo
       /\ mu_salePrice mu = Some hi
       /\ (lo <= hi)%Q
       /\ (forall u p, u ∈ updates -> su_item_id u = item ->
             su_priceWithTax u = Some p -> (lo <= p)%Q /\ (p <= hi)%Q)
       /\ (exists u, u ∈ updates /\ su_item_id u = item
                     /\ su_id u = mu_cheapestVendorId mu
                     /\ su_priceWithTax u = Some lo)
       /\ (exists u, u ∈ updates /\ su_item_id u = item
                     /\ su_priceWithTax u = Some hi).
Proof.
  intros Hpriced. unfold materialUpdateOf. cbv zeta.
  set (mine := filter (fun u => su_item_id u = item) updates).
  assert (Hmine : forall u, u ∈ mine <-> su_item_id u = item /\ u ∈ updates)
    by (intros u; unfold mine; rewrite list_elem_of_filter; reflexivity).
  assert (Hp : Forall Priced mine).
  { rewrite Forall_forall in Hpriced |- *. intros u Hu. apply Hpriced, Hmine, Hu. }
  pose proof (sortByPrice_ordered mine Hp) as Hord.
  pose proof (sortByPrice_perm mine) as Hperm.
  destruct (sortByPrice mine) as [|lowest rest] eqn:Hs; [discriminate|].
  destruct (last (lowest :: rest)) as [highest|] eqn:Hlast; [|discriminate].
  intros [= <-]. cbn [mu_id mu_cost mu_cheapestVendorId mu_salePrice].
  split; [reflexivity|].
  assert (Hlow : lowest ∈ mine) by (rewrite <- Hperm; apply list_elem_of_here).
  assert (Hhigh : highest ∈ mine).
  { rewrite <- Hperm. clear -Hlast. revert lowest Hlast.
    induction rest as [|a rest IH]; intros lowest Hlast.
    - cbn in Hlast. injection Hlast as <-. apply list_elem_of_here.
    - apply list_elem_of_further. apply IH. exact Hlast. }
  rewrite Forall_forall in Hp.
  destruct (Hp _ Hlow) as [lo Hlo]. destruct (Hp _ Hhigh) as [hi Hhi].
  assert (Hbetween : forall u p, u ∈ mine -> su_priceWithTax u = Some p ->
                                 (lo <= p)%Q /\ (p <= hi)%Q).
  { intros u p Hu Hup. rewrite <- Hperm in Hu. split.
    - inversion Hord as [|? ? Hfirst _]; subst.
      apply elem_of_cons in Hu as [->|Hu].
      + assert (p = lo) as -> by congruence. apply Qle_refl.
      + rewrite Forall_forall in Hfirst. apply (Hfirst u Hu); assumption.
    - destruct (ordered_last _ _ _ Hord Hlast Hu) as [->|Hle].
      + assert (p = hi) as -> by congruence. apply Qle_refl.
      + apply Hle; assumption. }
  exists lo, hi. split; [exact Hlo|]. split; [exact Hhi|].
  split; [apply (Hbetween lowest lo Hlow Hlo)|].
  split.
  { intros u p Hu Hitem Hup. apply (Hbetween u p); [apply Hmine; auto | exact Hup]. }
  split.
  - exists lowest. apply Hmine in Hlow as [Hitem Hin]. auto.
  - exists highest. apply Hmine in Hhigh as [Hitem Hin]. auto.
Qed.

Lemma material_update_extremes_witness :
  exists mu,
    materialUpdateOf 1 threeUpdates = Some mu
    /\ mu_id mu = 1%nat
    /\ exists lo hi,
         mu_cost mu = Some lo
         /\ mu_salePrice mu = Some hi
         /\ (lo <= hi)%Q
         /\ (forall u p, u ∈ threeUpdates -> su_item_id u = 1%nat ->
               su_priceWithTax u = Some p -> (lo <= p)%Q /\ (p <= hi)%Q)
         /\ (exists u, u ∈ threeUpdates /\ su_item_id u = 1%nat
                       /\ su_id u = mu_cheapestVendorId mu
                       /\ su_priceWithTax u = Some lo)
         /\ (exists u, u ∈ threeUpdates /\ su_item_id u = 1%nat
                       /\ su_priceWithTax u = Some hi).
Proof.
  eexists. split; [vm_compute; reflexivity|].
  apply (material_update_extremes 1 threeUpdates).
  - repeat constructor; eexists; reflexivity.
  - vm_compute. reflexivity.
Defined.

(** ** Wrapped errors *)

Lemma wrapped_class m :
  isDisconnectionMessage ("Browser disconnection during item source processing: " +:+ m)
  = isDisconnectionMessage m
  /\ isDisconnectionMessage ("Browser disconnection during domain processing: " +:+ m)
     = isDisconnectionMessage m
  /\ isDisconnectionMessage ("Browser disconnection: " +:+ m) = isDisconnectionMessage m.
Proof. unfold isDisconnectionMessage. cbn. auto. Qed.

(** X28.  The prefixes put before a rethrown error neither add nor remove
    the disconnection class: an error thrown by [processItemSource], and
    one rethrown by the page creation of the pool, is recognised by the
    message test exactly when the error it wraps is (the words "Browser
    disconnection" do not count).  So an error thrown by
    [processItemSource] that the message test does not recognise was
    thrown with the browser reference missing, and only the test
    [!browserPool.browser] further up can still tell it from an ordinary
    failure. *)
Theorem thrown_errors_keep_their_class (E : Env) (source : ItemSource)
    (item : MaterialItem) (sv : Services) (thrown : string) (sv' : Services) :
  processItemSource E source item sv = (Throw thrown, sv') ->
  (exists m,
      thrown = "Browser disconnection during item source processing: " +:+ m
      /\ isDisconnectionMessage thrown = isDisconnectionMessage m
      /\ (isDisconnectionMessage thrown = false -> browserMissing sv' = true))
  /\ (forall message p,
        exists rethrown,
          BrowserPool.creationError message p = Throw rethrown
          /\ isDisconnectionMessage rethrown = isDisconnectionMessage message).
Proof.
  intros Hrun. split.
  - unfold processItemSource in Hrun.
    destruct (processItemSource_try E source item sv) as [[r o] sv0].
    destruct o as [m|]; [|discriminate].
    destruct (isDisconnectionMessage m || browserMissing sv0) eqn:Hc; [|discriminate].
    injection Hrun as <- <-. exists m. split; [reflexivity|].
    destruct (wrapped_class m) as (Hw & _ & _). split; [exact Hw|].
    rewrite Hw. intros Hm. rewrite Hm in Hc. exact Hc.
  - intros message p. unfold BrowserPool.creationError.
    destruct (isDisconnectionMessage message
              || match BrowserPool.browser p with Some true => false | _ => true end);
      eexists; (split; [reflexivity|]); [apply wrapped_class | reflexivity].
Qed.

Lemma thrown_errors_keep_their_class_witness :
  exists thrown sv',
    processItemSource deadEnv boltSource bolt (services freshWorld) = (Throw thrown, sv')
    /\ (exists m,
          thrown = "Browser disconnection during item source processing: " +:+ m
          /\ isDisconnectionMessage thrown = isDisconnectionMessage m
          /\ (isDisconnectionMessage thrown = false -> browserMissing sv' = true))
    /\ (forall message p,
          exists rethrown,
            BrowserPool.creationError message p = Throw rethrown
            /\ isDisconnectionMessage rethrown = isDisconnectionMessage message).
Proof.
  eexists _, _. split; [vm_compute; reflexivity|].
  eapply (thrown_errors_keep_their_class deadEnv boltSource bolt (services freshWorld)).
  vm_compute. reflexivity.
Defined.

(** ** Failing batch writes *)

Lemma processDomainItems_no_success E domain pairs sv r sv' :
  (forall k, exists m, batchUpdateItemSources E k = Throw m) ->
  processDomainItems E domain pairs sv = (Ok r, sv') ->
  filter (fun x => sr_success x = true) (d_items r) = [].
Proof.
  intros Hbatch. unfold processDomainItems. intros H.
  apply bind_Ok in H as (acc & sv1 & Hloop & H).
  apply bind_Ok in H as (? & sv2 & _ & H).
  apply bind_Ok in H as (? & sv3 & Hwrite & H).
  injection H as <- _.
  apply processDomainLoop_spec in Hloop as (_ & Hc & _).
  destruct Hc as [Hs _ _ _ _ Hu _].
  { split; cbn; try reflexivity; lia. }
  destruct (0 <? length (updateBatch acc))%nat eqn:Hlen.
  - unfold await in Hwrite. destruct (Hbatch (clock sv2)) as [m Hm].
    rewrite Hm in Hwrite. discriminate.
  - apply Nat.ltb_ge in Hlen. apply nil_length_inv. lia.
Qed.

Lemma processDomains_no_updates E item groups :
  (forall k, exists m, batchUpdateItemSources E k = Throw m) ->
  forall acc sv acc' sv',
    processDomains E item groups acc sv = (Ok acc', sv') ->
    acc_updated acc = [] -> acc_updated acc' = [].
Proof.
  intros Hbatch. induction groups as [|[domain pairs] rest IH];
    intros acc sv acc' sv'; cbn [processDomains].
  - intros [= <- _] H. exact H.
  - intros H Hacc. apply bind_Ok in H as (acc1 & sv1 & Hdom & H).
    apply (IH _ _ _ _ H). unfold tryCatch in Hdom.
    destruct ((result <- processDomainItems E domain pairs;;
               ret (collectDomain item acc result)) sv) as [[a|m] sv0] eqn:Hinner.
    + injection Hdom as <- _.
      apply bind_Ok in Hinner as (result & sv2 & Hitems & Hret).
      injection Hret as <- _.
      apply (processDomainItems_no_success _ _ _ _ _ _ Hbatch) in Hitems.
      cbn [collectDomain acc_updated]. rewrite Hacc, Hitems. reflexivity.
    + destruct (isDisconnectionMessage m || browserMissing sv0); [discriminate|].
      injection Hdom as <- _. exact Hacc.
Qed.

(** X29.  When the batch update of item sources is rejected, the results
    of every domain with a successful source are dropped by the catch
    block of the domain loop, although each of these sources was already
    written by [updateItemSource]: no update reaches
    [updateMaterialItems], and [processMaterialItem] reports every item
    as failed with no updated item source. *)
Theorem failed_batch_write_fails_item (E : Env) (item : MaterialItem)
    (sv : Services) (r : ItemResult) (sv' : Services) :
  (forall k, exists m, batchUpdateItemSources E k = Throw m) ->
  processMaterialItem E item sv = (Ok r, sv') ->
  success r = false /\ updatedItemSources r = [] /\ materialItem r = item.
Proof.
  intros Hbatch Hrun.
  unfold processMaterialItem, tryCatch in Hrun.
  destruct (processMaterialItem_try E item sv) as [[r0|m] sv0] eqn:Htry.
  - injection Hrun as <- _. unfold processMaterialItem_try in Htry.
    apply bind_Ok in Htry as (? & sv1 & _ & H).
    apply bind_Ok in H as (itemSources & sv2 & _ & H).
    destruct (length itemSources =? 0)%nat.
    + injection H as <- _. auto.
    + apply bind_Ok in H as (acc & sv3 & Hdomains & H).
      apply (processDomains_no_updates _ _ _ Hbatch) in Hdomains; [|reflexivity].
      apply bind_Ok in H as (updates & sv4 & Hupd & H).
      unfold updateMaterialItems in Hupd. rewrite Hdomains in Hupd.
      injection Hupd as <- _. cbn [existsb] in H.
      injection H as <- _. rewrite Hdomains. auto.
  - injection Hrun as <- _. auto.
Qed.

Lemma failed_batch_write_fails_item_witness :
  exists r sv',
    processMaterialItem noBatchEnv bolt connectedServices = (Ok r, sv')
    /\ success r = false /\ updatedItemSources r = [] /\ materialItem r = bolt.
Proof.
  eexists _, _. split; [vm_compute; reflexivity|].
  eapply (failed_batch_write_fails_item noBatchEnv bolt connectedServices).
  - intros k. eexists. reflexivity.
  - vm_compute. reflexivity.
Defined.

End PriceScraperProofs.
